(** * Wayback static mirror: resolution and rewriting pipeline

    A shallow embedding of [wayback_extractor.py], the properties its
    specification states about it, and further properties that the code
    itself shows.

    Python [str] values are modelled as [string]; one [ascii] stands for one
    code point below 256.  Comparison of strings is by code point, as in
    Python.  The capture index client yields rows as [r.json()] gives
    them, dictionaries of values that need not be strings ([crow]); the
    candidate builder and the snapshot resolver are modelled on rows whose
    values are strings ([row], a [gmap string string]).  The [latest]
    dictionary of the candidate builder, whose insertion order decides the
    order of the output, is an association list.  A [float] is a binary64
    number.  Of the Python standard library, [urllib.parse] is an interface
    with one executable model, and [os.path] an executable model of
    [posixpath]. *)

From Stdlib Require Import ZArith String Ascii List Bool Sorted Lia.
From Stdlib Require Import Floats.SpecFloat.
From stdpp Require Import base option list gmap strings.

Local Open Scope string_scope.

(** ** Python string operations *)

Module PyStr.

(** [bool(s)] for a [str]. *)
Definition truthy (s : string) : bool := negb (String.eqb s "").

(** [s.startswith(p)] *)
Definition startswith (s p : string) : bool := String.prefix p s.

(** [s.endswith(suf)] *)
Fixpoint endswith (s suf : string) : bool :=
  String.eqb s suf ||
  match s with
  | "" => false
  | String _ s' => endswith s' suf
  end.

(** [sub in s] *)
Fixpoint contains (s sub : string) : bool :=
  String.prefix sub s ||
  match s with
  | "" => false
  | String _ s' => contains s' sub
  end.

(** [c in s] for a single character. *)
Fixpoint has_char (c : ascii) (s : string) : bool :=
  match s with
  | "" => false
  | String a s' => Ascii.eqb a c || has_char c s'
  end.

Definition in_range (lo hi : N) (c : ascii) : bool :=
  (N.leb lo (N_of_ascii c) && N.leb (N_of_ascii c) hi)%bool.

Definition is_upper (c : ascii) : bool :=
  in_range 65 90 c || in_range 192 214 c || in_range 216 222 c.

Definition lower_char (c : ascii) : ascii :=
  if is_upper c then ascii_of_N (N_of_ascii c + 32) else c.

(** [s.lower()] *)
Fixpoint lower (s : string) : string :=
  match s with
  | "" => ""
  | String c s' => String (lower_char c) (lower s')
  end.

Definition is_digit (c : ascii) : bool := in_range 48 57 c.

Definition is_ascii_alpha (c : ascii) : bool :=
  in_range 65 90 c || in_range 97 122 c.

(** [c.isspace()]: the white space of [str.strip], [str.split] and of
    [\s] in a [str] pattern, below code point 256. *)
Definition is_space (c : ascii) : bool :=
  in_range 9 13 c || in_range 28 32 c ||
  N.eqb (N_of_ascii c) 133 || N.eqb (N_of_ascii c) 160.

Fixpoint all_chars (p : ascii -> bool) (s : string) : bool :=
  match s with
  | "" => true
  | String c s' => p c && all_chars p s'
  end.

(** The part of [s] before the first [c], and the part after it when
    [c] occurs: [s.split(c, 1)]. *)
Fixpoint split_first (c : ascii) (s : string) : string * option string :=
  match s with
  | "" => ("", None)
  | String a s' =>
      if Ascii.eqb a c then ("", Some s')
      else let '(h, t) := split_first c s' in (String a h, t)
  end.

(** [s.split(c)[0]] *)
Definition before (c : ascii) (s : string) : string := fst (split_first c s).

(** [s.split(c)]: never empty. *)
Fixpoint split_on (c : ascii) (s : string) : list string :=
  match s with
  | "" => [""]
  | String a s' =>
      if Ascii.eqb a c then "" :: split_on c s'
      else match split_on c s' with
           | [] => [String a ""]
           | h :: t => String a h :: t
           end
  end.

(** [sep.join(l)] *)
Fixpoint join_with (sep : string) (l : list string) : string :=
  match l with
  | [] => ""
  | [x] => x
  | x :: l' => x +:+ sep +:+ join_with sep l'
  end.

(** [s.lstrip(c)] for a single character [c]. *)
Fixpoint lstrip_char (c : ascii) (s : string) : string :=
  match s with
  | "" => ""
  | String a s' => if Ascii.eqb a c then lstrip_char c s' else s
  end.

Fixpoint drop_while (p : ascii -> bool) (s : string) : string :=
  match s with
  | "" => ""
  | String a s' => if p a then drop_while p s' else s
  end.

Fixpoint take_while (p : ascii -> bool) (s : string) : string :=
  match s with
  | "" => ""
  | String a s' => if p a then String a (take_while p s') else ""
  end.

(** [s.rstrip()] *)
Fixpoint rstrip (s : string) : string :=
  match s with
  | "" => ""
  | String a s' =>
      match rstrip s' with
      | "" => if is_space a then "" else String a ""
      | t => String a t
      end
  end.

(** [s.strip()] *)
Definition strip (s : string) : string := rstrip (drop_while is_space s).

(** [s.split()[0]], when [s.split()] is not empty. *)
Definition first_word (s : string) : option string :=
  match drop_while is_space s with
  | "" => None
  | t => Some (take_while (fun c => negb (is_space c)) t)
  end.

Definition digit_val (c : ascii) : Z := Z.of_N (N_of_ascii c) - 48.

(** Digits of an [int] literal after its sign: groups of digits
    separated by single underscores. [prev] tells whether the previous
    character was a digit. *)
Fixpoint int_digits (acc : Z) (prev : bool) (s : string) : option Z :=
  match s with
  | "" => if prev then Some acc else None
  | String c s' =>
      if is_digit c then int_digits (10 * acc + digit_val c) true s'
      else if Ascii.eqb c "_" then
        if prev then int_digits acc false s' else None
      else None
  end.

(** The number of digits of [s]. *)
Fixpoint count_digits (s : string) : Z :=
  match s with
  | "" => 0%Z
  | String c s' => ((if is_digit c then 1 else 0) + count_digits s')%Z
  end.

(** [int(s)] for a token without white space; [None] is [ValueError],
    which CPython 3.11 also raises for a literal of more than 4300
    digits, leading zeros counted, sign and underscores not. *)
Definition parse_int (s : string) : option Z :=
  if (4300 <? count_digits s)%Z then None
  else match s with
       | String "-" s' => Z.opp <$> int_digits 0 false s'
       | String "+" s' => int_digits 0 false s'
       | _ => int_digits 0 false s
       end.

End PyStr.

(** ** Capture records *)

(** One row of the capture index whose values are strings. *)
Abbreviation row := (gmap string string).

(** [r.get(k, "")] *)
Definition field (r : row) (k : string) : string := default "" (r !! k).

Definition mk_row (ts original mimetype : string) : row :=
  <["timestamp" := ts]> (<["original" := original]>
    (<["mimetype" := mimetype]> (<["statuscode" := "200"]> ∅))).

(** ** The interface of [urllib.parse] *)

Record ParseResult := {
  scheme : string;
  netloc : string;
  path : string;
  params : string;
  query : string;
  fragment : string
}.

(** [urlparse] and [urljoin] raise [ValueError] on some inputs; [None]
    stands for the exception. *)
Class UrlLib := {
  urlparse : string -> option ParseResult;
  urljoin : string -> string -> option string
}.

(** *** An executable model of CPython's [urllib.parse]

    It follows [urlsplit], [urlparse], [urlunparse] and [urljoin] of
    CPython 3.11.  Of the checks of the network location only the balance
    of square brackets is modelled.  The general theorems below hold for
    every [UrlLib]; this instance serves to run the program on concrete
    inputs. *)

Module CPython.
Import PyStr.

Definition in_list (s : string) (l : list string) : bool :=
  existsb (String.eqb s) l.

Definition uses_relative : list string :=
  [""; "ftp"; "http"; "gopher"; "nntp"; "imap"; "wais"; "file"; "https";
   "shttp"; "mms"; "prospero"; "rtsp"; "rtspu"; "sftp"; "svn"; "svn+ssh";
   "ws"; "wss"].

Definition uses_netloc : list string :=
  [""; "ftp"; "http"; "gopher"; "nntp"; "telnet"; "imap"; "wais"; "file";
   "mms"; "https"; "shttp"; "snews"; "prospero"; "rtsp"; "rtspu"; "rsync";
   "svn"; "svn+ssh"; "sftp"; "nfs"; "git"; "git+ssh"; "ws"; "wss"].

Definition uses_params : list string :=
  [""; "ftp"; "hdl"; "prospero"; "http"; "imap"; "https"; "shttp"; "rtsp";
   "rtspu"; "sip"; "sips"; "mms"; "sftp"; "tel"].

Definition scheme_char (c : ascii) : bool :=
  is_ascii_alpha c || is_digit c || has_char c "+-.".

Definition is_c0_or_space (c : ascii) : bool := in_range 0 32 c.

(** Tab, line feed and carriage return are removed from a URL. *)
Definition is_unsafe (c : ascii) : bool :=
  in_range 9 10 c || in_range 13 13 c.

Fixpoint remove_chars (p : ascii -> bool) (s : string) : string :=
  match s with
  | "" => ""
  | String a s' => if p a then remove_chars p s' else String a (remove_chars p s')
  end.

(** The scheme, when the text before the first colon is one, and the
    rest of the URL. *)
Definition split_scheme (default_scheme url : string) : string * string :=
  match split_first ":" url with
  | (String c h, Some rest) =>
      if is_ascii_alpha c && all_chars scheme_char (String c h)
      then (lower (String c h), rest)
      else (default_scheme, url)
  | _ => (default_scheme, url)
  end.

Definition netloc_delim (c : ascii) : bool := has_char c "/?#".

Definition not_delim (c : ascii) : bool := negb (netloc_delim c).

Record SplitResult := {
  s_scheme : string; s_netloc : string; s_path : string;
  s_query : string; s_fragment : string
}.

(** [s.rstrip(chars)] for the control characters and the space. *)
Fixpoint rstrip_c0 (s : string) : string :=
  match s with
  | "" => ""
  | String a s' =>
      match rstrip_c0 s' with
      | "" => if is_c0_or_space a then "" else String a ""
      | t => String a t
      end
  end.

Definition urlsplit (url default_scheme : string) : option SplitResult :=
  let url := remove_chars is_unsafe (drop_while is_c0_or_space url) in
  let default_scheme :=
    remove_chars is_unsafe
      (rstrip_c0 (drop_while is_c0_or_space default_scheme)) in
  let '(sch, url) := split_scheme default_scheme url in
  let '(loc, url) :=
    match url with
    | String "/" (String "/" u) => (take_while not_delim u, drop_while not_delim u)
    | _ => ("", url)
    end in
  if xorb (has_char "[" loc) (has_char "]" loc) then None
  else
    let '(url, frag) := split_first "#" url in
    let '(url, qry) := split_first "?" url in
    Some {| s_scheme := sch; s_netloc := loc; s_path := url;
            s_query := default "" qry; s_fragment := default "" frag |}.

(** The path up to and including its last slash, and what follows. *)
Fixpoint split_last_seg (s : string) : string * string :=
  match s with
  | "" => ("", "")
  | String a s' =>
      let '(d, l) := split_last_seg s' in
      if has_char "/" s' then (String a d, l)
      else if Ascii.eqb a "/" then ("/", s')
      else ("", String a s')
  end.

Definition splitparams (url : string) : string * string :=
  let '(d, l) := split_last_seg url in
  let '(h, t) := split_first ";" l in
  (d +:+ h, default "" t).

Definition urlparse_with (url default_scheme : string) : option ParseResult :=
  r ← urlsplit url default_scheme;
  let '(p, prm) :=
    if in_list (s_scheme r) uses_params && has_char ";" (s_path r)
    then splitparams (s_path r) else (s_path r, "") in
  Some {| scheme := s_scheme r; netloc := s_netloc r; path := p;
          params := prm; query := s_query r; fragment := s_fragment r |}.

Definition urlunsplit (sch loc url qry frag : string) : string :=
  let url :=
    if truthy loc ||
       (truthy sch && in_list sch uses_netloc && negb (startswith url "//"))
    then "//" +:+ loc +:+
         (if truthy url && negb (startswith url "/") then "/" +:+ url else url)
    else url in
  let url := if truthy sch then sch +:+ ":" +:+ url else url in
  let url := if truthy qry then url +:+ "?" +:+ qry else url in
  if truthy frag then url +:+ "#" +:+ frag else url.

Definition urlunparse (p : ParseResult) : string :=
  let url := if truthy (params p) then path p +:+ ";" +:+ params p else path p in
  urlunsplit (scheme p) (netloc p) url (query p) (fragment p).

(** [l[1:-1] = filter(None, l[1:-1])] on the tail of [l]. *)
Fixpoint filter_init (l : list string) : list string :=
  match l with
  | [] => []
  | [x] => [x]
  | x :: t => if truthy x then x :: filter_init t else filter_init t
  end.

Definition filter_middle (l : list string) : list string :=
  match l with
  | [] => []
  | x :: t => x :: filter_init t
  end.

Definition resolve_step (acc : list string) (seg : string) : list string :=
  if String.eqb seg ".." then removelast acc
  else if String.eqb seg "." then acc
  else (acc ++ [seg])%list.

Definition merge_paths (bpath upath : string) : string :=
  let base_parts := split_on "/" bpath in
  let base_parts :=
    if truthy (List.last base_parts "") then removelast base_parts
    else base_parts in
  let segments :=
    if startswith upath "/" then split_on "/" upath
    else filter_middle (base_parts ++ split_on "/" upath)%list in
  let resolved := fold_left resolve_step segments [] in
  let resolved :=
    if in_list (List.last segments "") ["."; ".."] then (resolved ++ [""])%list
    else resolved in
  match join_with "/" resolved with
  | "" => "/"
  | p => p
  end.

Definition urljoin_model (base url : string) : option string :=
  if negb (truthy base) then Some url
  else if negb (truthy url) then Some base
  else
    b ← urlparse_with base "";
    u ← urlparse_with url (scheme b);
    if negb (String.eqb (scheme u) (scheme b)) ||
       negb (in_list (scheme u) uses_relative)
    then Some url
    else if in_list (scheme u) uses_netloc && truthy (netloc u)
    then Some (urlunparse u)
    else
      let loc := if in_list (scheme u) uses_netloc then netloc b else netloc u in
      if negb (truthy (path u)) && negb (truthy (params u))
      then Some (urlunparse
             {| scheme := scheme u; netloc := loc; path := path b;
                params := params b;
                query := if truthy (query u) then query u else query b;
                fragment := fragment u |})
      else Some (urlunparse
             {| scheme := scheme u; netloc := loc;
                path := merge_paths (path b) (path u);
                params := params u; query := query u;
                fragment := fragment u |}).

Definition urllib : UrlLib :=
  {| urlparse := fun url => urlparse_with url ""; urljoin := urljoin_model |}.

End CPython.

(** *** An executable model of [posixpath]

    [os.path] on a POSIX system.  The current working directory, which
    [abspath] and [relpath] read from the process, is an argument. *)

Module PosixPath.
Import PyStr.

(** [os.path.join(a, b)] *)
Definition join (a b : string) : string :=
  if startswith b "/" then b
  else if negb (truthy a) || endswith a "/" then a +:+ b
  else a +:+ "/" +:+ b.

(** [s.rstrip("/")] *)
Fixpoint rstrip_sep (s : string) : string :=
  match s with
  | "" => ""
  | String a s' =>
      match rstrip_sep s' with
      | "" => if Ascii.eqb a "/" then "" else String a ""
      | t => String a t
      end
  end.

Definition is_sep (c : ascii) : bool := Ascii.eqb c "/".

(** [os.path.dirname(p)] *)
Definition dirname (p : string) : string :=
  let head := fst (CPython.split_last_seg p) in
  if truthy head && negb (all_chars is_sep head) then rstrip_sep head
  else head.

(** One turn of the loop of [normpath]; [new_comps] is kept with its
    last element first. *)
Definition norm_step (initial_slashes : bool) (new_comps : list string)
    (comp : string) : list string :=
  if String.eqb comp "" || String.eqb comp "." then new_comps
  else if negb (String.eqb comp "..")
       || (negb initial_slashes && bool_decide (new_comps = []))
       || (match new_comps with top :: _ => String.eqb top ".." | [] => false end)
  then comp :: new_comps
  else match new_comps with
       | _ :: below => below
       | [] => new_comps
       end.

(** [os.path.normpath(path)] *)
Definition normpath (path : string) : string :=
  if negb (truthy path) then "."
  else
    let initial_slashes := startswith path "/" in
    let two := startswith path "//" && negb (startswith path "///") in
    let comps := rev (fold_left (norm_step initial_slashes) (split_on "/" path) []) in
    let p := join_with "/" comps in
    let p := if initial_slashes then (if two then "//" else "/") +:+ p else p in
    if truthy p then p else ".".

(** [os.path.abspath(path)] in a process whose working directory is
    [cwd]. *)
Definition abspath (cwd path : string) : string :=
  normpath (if startswith path "/" then path else join cwd path).

(** The length of the common prefix of two lists of components. *)
Fixpoint common_len (l1 l2 : list string) : nat :=
  match l1, l2 with
  | x :: l1', y :: l2' => if String.eqb x y then S (common_len l1' l2') else 0
  | _, _ => 0
  end.

(** [[x for x in p.split("/") if x]] *)
Definition components (p : string) : list string :=
  filter (fun x => truthy x = true) (split_on "/" p).

(** [os.path.relpath(path, start)]; [None] is the [ValueError] raised for
    an empty [path]. *)
Definition relpath (cwd path start : string) : option string :=
  if negb (truthy path) then None
  else
    let start_list := components (abspath cwd start) in
    let path_list := components (abspath cwd path) in
    let i := common_len start_list path_list in
    let rel_list :=
      (repeat ".." (List.length start_list - i) ++ drop i path_list)%list in
    match rel_list with
    | [] => Some "."
    | x :: l => Some (fold_left join l x)
    end.

End PosixPath.

(** ** Utilities of the program *)

Import PyStr.

(** [to_ts_full]: the pattern [\d{14}] must match the whole argument;
    [None] is [ValueError]. *)
Definition to_ts_full (ts14 : string) : option string :=
  if Nat.eqb (String.length ts14) 14 && all_chars is_digit ts14
  then Some ts14 else None.

Definition ensure_local_path (path : string) : string :=
  let path :=
    if negb (truthy path) || endswith path "/"
    then (if truthy path then path else "/") +:+ "index.html"
    else path in
  let path := before "#" (before "?" path) in
  lstrip_char "/" path.

Definition is_same_site `{UrlLib} (url root_host : string) : option bool :=
  p ← urlparse url;
  let h := lower (netloc p) in
  Some (String.eqb h root_host || endswith h ("." +:+ root_host)).

(** ** Candidate builder *)

(** A Python [dict] with [str] keys, in insertion order. *)
Fixpoint dict_get {V} (k : string) (d : list (string * V)) : option V :=
  match d with
  | [] => None
  | (k', v) :: d' => if String.eqb k' k then Some v else dict_get k d'
  end.

(** [d[k] = v]: a key that is present keeps its place. *)
Fixpoint dict_set {V} (k : string) (v : V) (d : list (string * V)) : list (string * V) :=
  match d with
  | [] => [(k, v)]
  | (k', v') :: d' =>
      if String.eqb k' k then (k, v) :: d' else (k', v') :: dict_set k v d'
  end.

Definition normalize_url `{UrlLib} (url : string) (ignore_query_params : bool) : string :=
  if negb (truthy url) then url
  else match urlparse url with
       | Some parsed =>
           if ignore_query_params
           then scheme parsed +:+ "://" +:+ netloc parsed +:+ path parsed
           else url
       | None => url
       end.

(** What one turn of the loop of [latest_per_original] decides for a
    record: [continue], or the dictionary key of the record. *)
Inductive verdict := Skip | Keep (url_key : string).

(** The body of the loop up to the computation of [url_key]; [None] is the
    [ValueError] of the [urlparse] call that no [try] encloses. *)
Definition classify `{UrlLib} (cutoff_ts : string) (path_prefix : option string)
    (include_nonhtml ignore_query_params : bool) (r : row) : option verdict :=
  let o := field r "original" in
  if negb (truthy o) then Some Skip
  else
    let ts := field r "timestamp" in
    if negb (truthy ts) || String.ltb cutoff_ts ts then Some Skip
    else
      p ← urlparse o;
      if endswith (path p) "/robots.txt" then Some Skip
      else if match path_prefix with
              | Some prefix =>
                  truthy prefix &&
                  match urlparse o with
                  | Some p' => negb (startswith (path p') prefix)
                  | None => true
                  end
              | None => false
              end
      then Some Skip
      else
        let mime := lower (field r "mimetype") in
        if negb include_nonhtml &&
           negb (startswith mime "text/html" || contains mime "html")
        then Some Skip
        else Some (Keep (if ignore_query_params
                         then normalize_url o ignore_query_params else o)).

(** Every row stored in [latest] has a timestamp, so
    [latest[url_key]["timestamp"]] cannot fail. *)
Definition builder_step `{UrlLib} (cutoff_ts : string) (path_prefix : option string)
    (include_nonhtml ignore_query_params : bool)
    (latest : list (string * row)) (r : row) : option (list (string * row)) :=
  v ← classify cutoff_ts path_prefix include_nonhtml ignore_query_params r;
  match v with
  | Skip => Some latest
  | Keep url_key =>
      match dict_get url_key latest with
      | Some old =>
          if String.ltb (field old "timestamp") (field r "timestamp")
          then Some (dict_set url_key r latest)
          else Some latest
      | None => Some (dict_set url_key r latest)
      end
  end.

Fixpoint builder_loop `{UrlLib} (cutoff_ts : string) (path_prefix : option string)
    (include_nonhtml ignore_query_params : bool)
    (latest : list (string * row)) (records : list row)
    : option (list (string * row)) :=
  match records with
  | [] => Some latest
  | r :: rs =>
      latest' ← builder_step cutoff_ts path_prefix include_nonhtml
                  ignore_query_params latest r;
      builder_loop cutoff_ts path_prefix include_nonhtml ignore_query_params
        latest' rs
  end.

Definition latest_per_original `{UrlLib} (records : list row) (cutoff_ts : string)
    (path_prefix : option string) (include_nonhtml ignore_query_params : bool)
    : option (list row) :=
  latest ← builder_loop cutoff_ts path_prefix include_nonhtml
             ignore_query_params [] records;
  Some (map snd latest).

(** ** Network *)

Definition CDX : string := "https://web.archive.org/cdx/search/cdx".
Definition CDX_ALTERNATE : string := "https://web.archive.org/cdx/search".
Definition WAYBACK_AVAILABILITY : string := "https://archive.org/wayback/available".
Definition WAYBACK_RAW : string := "https://web.archive.org/web".

(** The exceptions the program distinguishes: [requests.exceptions.SSLError],
    [requests.exceptions.Timeout], [KeyError], and any other [Exception]. *)
Inductive exn := SSLError | Timeout | KeyError | OtherError.

(** A [requests.Response]: the status, the headers (a dictionary that
    ignores the case of its keys, so the keys are kept in lower case) and
    the body. *)
Record Response := {
  status_code : Z;
  headers : gmap string string;
  content : string
}.

(** [resp.headers.get(name)] *)
Definition header_get (resp : Response) (name : string) : option string :=
  headers resp !! lower name.

(** [requests.Response()] with [status_code] set. *)
Definition synthesized (code : Z) : Response :=
  {| status_code := code; headers := ∅; content := "" |}.

(** One request of the session: the address and the query parameters. *)
Record Request := {
  req_url : string;
  req_params : gmap string string
}.

(** The program's view of the world: what [session.get] answers to a
    request, either a response or a raised exception. *)
Class Network := {
  session_get : Request -> exn + Response
}.

(** Computations that send requests: the requests sent so far are threaded
    through, most recent last, and a computation ends with a value or a
    raised exception. *)
Definition Net (A : Type) : Type := list Request -> (exn + A) * list Request.

Definition ret {A} (a : A) : Net A := fun log => (inr a, log).

Definition raise {A} (e : exn) : Net A := fun log => (inl e, log).

Definition bind {A B} (m : Net A) (k : A -> Net B) : Net B :=
  fun log =>
    match m log with
    | (inr a, log') => k a log'
    | (inl e, log') => (inl e, log')
    end.

(** [try: m except: h] *)
Definition try_except {A} (m : Net A) (h : exn -> Net A) : Net A :=
  fun log =>
    match m log with
    | (inr a, log') => (inr a, log')
    | (inl e, log') => h e log'
    end.

Declare Scope net_scope.
Delimit Scope net_scope with net.
Notation "'let*' x ':=' m 'in' k" := (bind m (fun x => k))
  (at level 10, x name, m at level 100, k at level 200) : net_scope.

(** [session.get(url, params=params)] *)
Definition http_get `{Network} (url : string) (params : gmap string string)
    : Net Response :=
  fun log =>
    let rq := {| req_url := url; req_params := params |} in
    (session_get rq, (log ++ [rq])%list).

(** *** Fetchers

    [limiter.take()] only delays the caller; the limiter is modelled on
    its own below. *)

Definition fetch_id `{Network} (ts original : string) : Net Response :=
  try_except
    (http_get (WAYBACK_RAW +:+ "/" +:+ ts +:+ "id_/" +:+ original) ∅)
    (fun e =>
       match e with
       | Timeout => ret (synthesized 504)
       | _ => ret (synthesized 500)
       end).

Definition fetch_if `{Network} (ts original : string) : Net Response :=
  try_except
    (http_get (WAYBACK_RAW +:+ "/" +:+ ts +:+ "if_/" +:+ original) ∅)
    (fun e =>
       match e with
       | Timeout => ret (synthesized 504)
       | _ => ret (synthesized 500)
       end).

(** [a or b] for two optional strings. *)
Definition py_or (a b : option string) : option string :=
  match a with
  | Some x => if truthy x then a else b
  | None => b
  end.

Definition origin_ok (resp : Response) : bool :=
  let s := py_or (header_get resp "X-Archive-Orig-status")
                 (header_get resp "X-Archive-Orig-Status") in
  let code :=
    match s with
    | Some v => if truthy v then first_word v ≫= parse_int else None
    | None => None
    end in
  match code with
  | Some code => (200 <=? code)%Z && (code <? 300)%Z
  | None => (200 <=? status_code resp)%Z && (status_code resp <? 300)%Z
  end.

Definition HTMLISH_PREFIXES : list string := ["text/html"; "application/xhtml+xml"].

Definition looks_html (resp : Response) : bool :=
  let ctype := lower (default "" (header_get resp "Content-Type")) in
  existsb (startswith ctype) HTMLISH_PREFIXES || contains ctype "html".

(** ** Snapshot resolver *)

(** [sorted(records, key=..., reverse=True)]: a stable sort, newest first.
    Records carry their key. *)
Fixpoint insert_desc (x : string * row) (l : list (string * row)) : list (string * row) :=
  match l with
  | [] => [x]
  | y :: l' =>
      if String.ltb (fst x) (fst y) then y :: insert_desc x l' else x :: l
  end.

Definition sort_desc (l : list (string * row)) : list (string * row) :=
  foldr insert_desc [] l.

(** The key function of the sort, [x["timestamp"]], raises [KeyError] on a
    record without the field. *)
Definition sort_keys (records : list row) : option (list (string * row)) :=
  mapM (fun r => ts ← r !! "timestamp"; Some (ts, r)) records.

(** The tests a response has to pass. *)
Definition acceptable (include_nonhtml : bool) (resp : Response) : bool :=
  (status_code resp =? 200)%Z && origin_ok resp &&
  (include_nonhtml || looks_html resp).

Local Open Scope net_scope.

Fixpoint resolve_loop `{Network} (include_nonhtml : bool)
    (sorted_records : list (string * row)) : Net (option (row * string)) :=
  match sorted_records with
  | [] => ret None
  | (ts, r) :: rest =>
      match r !! "original" with
      | None => raise KeyError
      | Some original =>
          let* resp := try_except (fetch_id ts original)
                         (fun e =>
                            match e with
                            | SSLError => fetch_if ts original
                            | _ => raise e
                            end) in
          if negb (status_code resp =? 200)%Z then resolve_loop include_nonhtml rest
          else if negb (origin_ok resp) then resolve_loop include_nonhtml rest
          else if negb include_nonhtml && negb (looks_html resp)
          then resolve_loop include_nonhtml rest
          else ret (Some (r, content resp))
      end
  end.

Definition pick_best_snapshot `{Network} (records : list row)
    (include_nonhtml : bool) : Net (option (row * string)) :=
  match sort_keys records with
  | None => raise KeyError
  | Some keyed => resolve_loop include_nonhtml (sort_desc keyed)
  end.

Local Close Scope net_scope.

(** ** Capture index client *)

(** A value that [r.json()] gives: a string, [None], or another value (a
    number, a truth value, a list or a dictionary).  Of a value of the
    last kind the program uses whether it is truthy and, where it is a
    key of a dictionary or an element of a set, which values it equals:
    [key] names that class, and is [None] for a value that cannot be
    hashed.  To compare such a value or [None] with a string raises
    [TypeError]. *)
Inductive cell :=
| Str (s : string)
| Null
| Other (truth : bool) (key : option N).

#[global] Instance cell_eq_dec : EqDecision cell.
Proof. solve_decision. Defined.

(** [bool(c)] *)
Definition cell_truthy (c : cell) : bool :=
  match c with
  | Str s => truthy s
  | Null => false
  | Other truth _ => truth
  end.

(** A key of a dictionary: a string, [None], or the class of another
    value that can be hashed. *)
Abbreviation pykey := (string + option N)%type.

(** [hash(c)], as a dictionary or a set takes it; [None] stands for
    [TypeError]. *)
Definition hash_key (c : cell) : option pykey :=
  match c with
  | Str s => Some (inl s)
  | Null => Some (inr None)
  | Other _ (Some n) => Some (inr (Some n))
  | Other _ None => None
  end.

(** A row as the capture index client yields it: a [dict] of values. *)
Abbreviation crow := (gmap pykey cell).

(** [r.get(k)] and [r.get(k, "")] *)
Definition cell_get (r : crow) (k : string) : cell :=
  default Null (r !! (inl k : pykey)).

Definition cell_field (r : crow) (k : string) : cell :=
  default (Str "") (r !! (inl k : pykey)).

(** A [dict] with keys of any kind, in insertion order. *)
Fixpoint kdict_get {V} (k : pykey) (d : list (pykey * V)) : option V :=
  match d with
  | [] => None
  | (k', v) :: d' => if bool_decide (k' = k) then Some v else kdict_get k d'
  end.

Fixpoint kdict_set {V} (k : pykey) (v : V) (d : list (pykey * V))
    : list (pykey * V) :=
  match d with
  | [] => [(k, v)]
  | (k', v') :: d' =>
      if bool_decide (k' = k) then (k, v) :: d' else (k', v') :: kdict_set k v d'
  end.

(** The [closest] snapshot of a reply of the availability service:
    whether [snapshot.get('available', False)] is truthy,
    [snapshot.get('url')] and [snapshot.get('timestamp', '')]. *)
Record Snapshot := {
  snap_available : bool;
  snap_url : cell;
  snap_timestamp : cell
}.

(** [r.json()] as the program reads it.  [json_rows] is the reply of the
    capture index the way [_cdx] goes through it: the header [rows[0]] and
    the lines [rows[1:]], each as [zip] lists it; [None] stands for a body
    that is not JSON and for a value that is not such a table, which both
    make a step of [_cdx] raise.  [json_closest] is the [closest] snapshot
    of a reply of the availability service: [None] when reading it raises,
    [Some None] when there is no such snapshot.

    [untyped_pick] is what [pick_best_snapshot] makes of records whose
    timestamp or address is not a string, the outcome and the requests
    sent: how Python orders and prints such values is not modelled, and
    nothing is assumed about it. *)
Class JsonLib := {
  json_rows : string -> option (list (list cell));
  json_closest : string -> option (option Snapshot);
  untyped_pick : list crow -> bool -> list Request
                 -> (exn + option (row * string)) * list Request
}.

Local Open Scope net_scope.

(** [dict(zip(header, row))]: of two equal field names the later wins. *)
Definition zip_row {K V} `{Countable K} (header : list K) (cells : list V)
    : gmap K V :=
  fold_left (fun (d : gmap K V) kv => <[kv.1 := kv.2]> d) (zip header cells) ∅.

(** [dict(zip(header, row))] on values: the names that get a cell are
    hashed; [None] stands for the [TypeError] of a name that cannot be. *)
Definition dict_zip (header cells : list cell) : option crow :=
  names ← mapM hash_key (take (List.length cells) header);
  Some (zip_row names cells).

Definition _cdx `{Network} `{JsonLib} (params : gmap string string)
    (endpoint : string) : Net (list crow) :=
  try_except
    (let* r := http_get endpoint params in
     if (400 <=? status_code r)%Z && (status_code r <? 600)%Z
     then raise OtherError
     else if negb (truthy (strip (content r))) then ret []
     else match json_rows (content r) with
          | None => ret []
          | Some [] => ret []
          | Some (header :: rows) =>
              match mapM (dict_zip header) rows with
              | Some dicts => ret dicts
              | None => raise OtherError
              end
          end)
    (fun _ => ret []).

Definition _cdx_multi_endpoint `{Network} `{JsonLib}
    (params : gmap string string) : Net (list crow) :=
  let* results :=
    match params !! "matchType" with
    | None => _cdx (<["matchType" := "prefix"]> params) CDX
    | Some _ => ret []
    end in
  let* primary := _cdx params CDX in
  let results := (results ++ primary)%list in
  if (List.length results <? 10)%nat
  then let* more := _cdx params CDX_ALTERNATE in
       ret (results ++ more)%list
  else ret results.

Definition availability_row (ts original : cell) : crow :=
  <[inl "timestamp" := ts]> (<[inl "original" := original]>
    (<[inl "statuscode" := Str "200"]> (<[inl "mimetype" := Str "text/html"]>
      (<[inl "digest" := Str ""]> (<[inl "length" := Str ""]> ∅))))).

(** One of the two look-ups of [check_availability_api]. *)
Definition availability_lookup `{Network} `{JsonLib} (host cutoff_ts : string)
    : Net (list crow) :=
  let* resp := http_get (WAYBACK_AVAILABILITY +:+ "?url=" +:+ host
                          +:+ "&timestamp=" +:+ cutoff_ts) ∅ in
  if (status_code resp =? 200)%Z then
    match json_closest (content resp) with
    | None => raise OtherError
    | Some None => ret []
    | Some (Some snapshot) =>
        if snap_available snapshot && cell_truthy (snap_url snapshot)
           && cell_truthy (snap_timestamp snapshot)
        then ret [availability_row (snap_timestamp snapshot) (snap_url snapshot)]
        else ret []
    end
  else ret [].

Definition check_availability_api `{Network} `{JsonLib} (domain cutoff_ts : string)
    : Net (list crow) :=
  try_except
    (let* first := availability_lookup domain cutoff_ts in
     let domain_with_www :=
       if startswith domain "www." then domain else "www." +:+ domain in
     let* second := availability_lookup domain_with_www cutoff_ts in
     ret (first ++ second)%list)
    (fun _ => ret []).

Definition base_all_urls : gmap string string :=
  <["output" := "json"]>
    (<["fl" := "timestamp,original,mimetype,statuscode,digest,length"]>
      (<["collapse" := "urlkey"]> (<["filter" := "statuscode:200"]> ∅))).

(** [domain[4:]] *)
Definition drop4 (s : string) : string :=
  String.substring 4 (String.length s - 4) s.

Definition domain_variants (domain : string) : gset string :=
  let v : gset string := {[ domain ]} ∪ {[ lower domain ]} in
  let v := if startswith domain "www." then v ∪ {[ drop4 domain ]}
           else v ∪ {[ "www." +:+ domain ]} in
  if negb (startswith (lower domain) "www.")
  then v ∪ {[ "www." +:+ lower domain ]} else v.

(** One address passes the loop that fills [unique_originals]: it is
    falsy, or it can be hashed. *)
Definition trackable (r : crow) : bool :=
  let url := cell_get r "original" in
  negb (cell_truthy url) || bool_decide (is_Some (hash_key url)).

(** The loop that fills [unique_originals]: the set is only printed, and
    to put into it an address that cannot be hashed raises [TypeError]. *)
Definition track_originals (results : list crow) : Net unit :=
  if forallb trackable results then ret tt else raise OtherError.

(** The two queries sent for one spelling of the domain. *)
Definition query_variant `{Network} `{JsonLib} (subdomains : bool) (d : string)
    : Net (list crow) :=
  let* wildcard := _cdx (<["url" := d +:+ "*"]> base_all_urls) CDX in
  let* _ := track_originals wildcard in
  let* scoped :=
    _cdx (<["matchType" := if subdomains then "domain" else "host"]>
            (<["url" := d +:+ "/*"]> base_all_urls)) CDX in
  let* _ := track_originals scoped in
  ret (wildcard ++ scoped)%list.

Fixpoint query_all `{Network} `{JsonLib} (subdomains : bool) (ds : list string)
    : Net (list crow) :=
  match ds with
  | [] => ret []
  | d :: ds' =>
      let* here := query_variant subdomains d in
      let* there := query_all subdomains ds' in
      ret (here ++ there)%list
  end.

(** Step 2 of [cdx_query_variants]: the rows whose timestamp is not after
    the cutoff, each with that timestamp, which is a string once it has
    been compared with the cutoff; [None] stands for the [TypeError] of a
    timestamp that is not a string. *)
Fixpoint filter_by_date (cutoff_ts : string) (all_urls : list crow)
    : option (list (string * crow)) :=
  match all_urls with
  | [] => Some []
  | r :: rest =>
      match cell_field r "timestamp" with
      | Str ts =>
          rest' ← filter_by_date cutoff_ts rest;
          Some (if String.leb ts cutoff_ts then (ts, r) :: rest' else rest')
      | _ => None
      end
  end.

(** One turn of step 3 of [cdx_query_variants], for a row and its
    timestamp; [None] stands for the [TypeError] of an address that cannot
    be hashed. *)
Definition latest_step (latest_per_url : list (pykey * (string * crow)))
    (x : string * crow) : option (list (pykey * (string * crow))) :=
  let '(ts, r) := x in
  let url := cell_field r "original" in
  if negb (cell_truthy url) || negb (truthy ts) then Some latest_per_url
  else
    k ← hash_key url;
    Some match kdict_get k latest_per_url with
         | Some (old_ts, _) =>
             if String.ltb old_ts ts
             then kdict_set k (ts, r) latest_per_url else latest_per_url
         | None => kdict_set k (ts, r) latest_per_url
         end.

Fixpoint latest_loop (filtered_by_date : list (string * crow))
    (latest_per_url : list (pykey * (string * crow)))
    : option (list (pykey * (string * crow))) :=
  match filtered_by_date with
  | [] => Some latest_per_url
  | x :: rest =>
      latest_per_url' ← latest_step latest_per_url x;
      latest_loop rest latest_per_url'
  end.

(** The rows of the availability service that [cdx_query_variants] adds:
    those with an address that is not a key of [latest_per_url]; [None]
    stands for the [TypeError] of an address that cannot be hashed. *)
Fixpoint new_rows {V} (latest_per_url : list (pykey * V))
    (avail_results : list crow) : option (list crow) :=
  match avail_results with
  | [] => Some []
  | r :: rest =>
      let url := cell_field r "original" in
      if negb (cell_truthy url) then new_rows latest_per_url rest
      else
        k ← hash_key url;
        rest' ← new_rows latest_per_url rest;
        Some match kdict_get k latest_per_url with
             | Some _ => rest'
             | None => r :: rest'
             end
  end.

(** The elements of the set [domain_variants] are visited in an order the
    language does not fix; [elements] gives one. *)
Definition cdx_query_variants `{Network} `{JsonLib} (domain cutoff_ts : string)
    (subdomains : bool) : Net (list crow) :=
  let* all_urls := query_all subdomains (elements (domain_variants domain)) in
  match filter_by_date cutoff_ts all_urls with
  | None => raise OtherError
  | Some filtered_by_date =>
      match latest_loop filtered_by_date [] with
      | None => raise OtherError
      | Some latest_per_url =>
          let uniq := map (fun e => e.2.2) latest_per_url in
          if (List.length uniq <? 5)%nat
          then
            let* avail_results := check_availability_api domain cutoff_ts in
            match new_rows latest_per_url avail_results with
            | None => raise OtherError
            | Some added => ret (uniq ++ added)%list
            end
          else ret uniq
      end
  end.

Local Close Scope net_scope.

(** ** Rewriting *)

(** A match of [CSS_URL_RE]: the whole match, the quote and the target. *)
Record CssMatch := {
  group0 : string;
  group1 : string;
  group2 : string
}.

Definition is_quote (c : ascii) : bool :=
  Ascii.eqb c "'" || Ascii.eqb c "034".

(** The character class of group 2: neither a quote nor a closing
    parenthesis. *)
Definition plain (c : ascii) : bool := negb (is_quote c || Ascii.eqb c ")").

Fixpoint last_char (s : string) : option ascii :=
  match s with
  | "" => None
  | String a "" => Some a
  | String _ s' => last_char s'
  end.

(** [CSS_URL_RE.match(s)]: the text [url(], letters in either case, white
    space, an optional quote (group 1), one or more plain characters
    (group 2), the same quote again, white space and a closing parenthesis,
    at the start of [s].

    After [url(], the first white space [ws] is taken.  When a quote follows,
    group 2 is the longest run of plain characters after it: a shorter run
    is not followed by the quote, and to give group 1 up, or white space
    back, leaves group 2 in front of that quote, where no parenthesis can follow.
    When a plain character follows, group 2 is the longest run from it,
    which a closing parenthesis must end.  When the closing parenthesis
    follows at once, the white space gives one character back and group 2
    is the last character of [ws]. *)
Definition match_css_url (s : string) : option CssMatch :=
  match s with
  | String u (String r (String l (String "(" rest))) =>
      if String.eqb (lower (String u (String r (String l "")))) "url" then
        let head := String u (String r (String l "(")) in
        let ws := take_while is_space rest in
        match drop_while is_space rest with
        | "" => None
        | String c after_c =>
            if is_quote c then
              let run := take_while plain after_c in
              match drop_while plain after_c with
              | String c' after_q =>
                  if truthy run && Ascii.eqb c' c then
                    match drop_while is_space after_q with
                    | String ")" _ =>
                        Some {| group0 := head +:+ ws +:+ String c run +:+
                                          String c (take_while is_space after_q)
                                          +:+ ")";
                                group1 := String c "";
                                group2 := run |}
                    | _ => None
                    end
                  else None
              | "" => None
              end
            else if Ascii.eqb c ")" then
              match last_char ws with
              | Some w =>
                  Some {| group0 := head +:+ ws +:+ ")"; group1 := "";
                          group2 := String w "" |}
              | None => None
              end
            else
              let run := take_while plain (String c after_c) in
              match drop_while plain (String c after_c) with
              | String ")" _ =>
                  Some {| group0 := head +:+ ws +:+ run +:+ ")"; group1 := "";
                          group2 := run |}
              | _ => None
              end
        end
      else None
  | _ => None
  end.

(** [CSS_URL_RE.sub(repl, s)]: matches are looked for from left to right
    and do not overlap; [skip] counts the characters of the last match
    still to pass.  [repl] may raise. *)
Fixpoint css_sub_from (repl : CssMatch -> option string) (skip : nat)
    (s : string) : option string :=
  match s with
  | "" => Some ""
  | String c s' =>
      match skip with
      | S k => css_sub_from repl k s'
      | O =>
          match match_css_url s with
          | Some m =>
              out ← repl m;
              rest ← css_sub_from repl (String.length (group0 m) - 1) s';
              Some (out +:+ rest)
          | None => String c <$> css_sub_from repl 0 s'
          end
      end
  end.

Definition css_sub (repl : CssMatch -> option string) (s : string) : option string :=
  css_sub_from repl 0 s.

Section Rewriting.
Context `{UrlLib}.
(** The working directory of the process. *)
Variable cwd : string.

(** The function [repl] of [rewrite_css_urls]. *)
Definition css_repl (base_url root_host out_css_dir : string) (m : CssMatch)
    : option string :=
  let raw := strip (group2 m) in
  if startswith raw "data:" || startswith raw "#" then Some (group0 m)
  else
    absu ← urljoin base_url raw;
    same ← is_same_site absu root_host;
    if same : bool then
      p ← urlparse absu;
      let local := ensure_local_path (path p) in
      rel ← PosixPath.relpath cwd local out_css_dir;
      Some ("url(" +:+ rel +:+ ")")
    else Some ("url(" +:+ raw +:+ ")").

(** [rewrite_css_urls] on the decoded text of the stylesheet. *)
Definition rewrite_css_urls (css base_url root_host out_css_dir : string)
    : option string :=
  css_sub (css_repl base_url root_host out_css_dir) css.

(** [os.path.dirname(current) or "."] *)
Definition page_dir (current : string) : string :=
  if truthy (PosixPath.dirname current) then PosixPath.dirname current else ".".

(** What [rewrite_html_and_collect] computes for a same-site reference
    [absu] of the page at [base_url]: the relative path it stores in the
    attribute. *)
Definition relative_target (base_url absu : string) : option string :=
  p ← urlparse absu;
  let local := ensure_local_path (path p) in
  b ← urlparse base_url;
  let current := ensure_local_path (path b) in
  PosixPath.relpath cwd local (page_dir current).

(** The body of the loop of [rewrite_attr] for an attribute value [v]:
    the new value of the attribute and, for a same-site reference, its
    absolute address. *)
Definition rewrite_attr (base_url root_host v : string)
    : option (string * option string) :=
  if negb (truthy v) then Some (v, None)
  else
    absu ← urljoin base_url v;
    same ← is_same_site absu root_host;
    if same : bool then
      rel ← relative_target base_url absu;
      Some (rel, Some absu)
    else Some (v, None).

(** The function [repl] for inline [style] attributes. *)
Definition style_repl (base_url root_host : string) (m : CssMatch)
    : option string :=
  let inside := strip (group2 m) in
  absu ← urljoin base_url inside;
  same ← is_same_site absu root_host;
  if same : bool then
    rel ← relative_target base_url absu;
    Some ("url(" +:+ rel +:+ ")")
  else Some (group0 m).

(** Where [download_asset] stores an asset, below [outdir]. *)
Definition asset_local (asset_url : string) : option string :=
  p ← urlparse asset_url;
  Some (ensure_local_path (path p)).

End Rewriting.

Local Open Scope net_scope.

(** What [download_asset] does outside the session: [os.makedirs] with
    [exist_ok=True] on a directory, and the writing of the body of a
    response to a file, which opens the file and reads the body, asked for
    with [stream=True], chunk by chunk with [iter_content].  Either call
    returns ([None]) or raises. *)
Class Storage := {
  makedirs : string -> option exn;
  save_body : string -> Response -> option exn
}.

(** [download_asset]: the local path, the success flag, the path of the
    file and the content type.  The directory is made before anything is
    asked for; on success the body is written to the file, outside any
    [try]. *)
Definition download_asset `{UrlLib} `{Network} `{Storage}
    (ts asset_url outdir : string) : Net (string * bool * string * string) :=
  match asset_local asset_url with
  | None => raise OtherError
  | Some local =>
      let out_path := PosixPath.join outdir local in
      match makedirs (PosixPath.dirname out_path) with
      | Some e => raise e
      | None =>
          let* resp := fetch_id ts asset_url in
          let* resp := if negb (status_code resp =? 200)%Z
                       then fetch_if ts asset_url else ret resp in
          if (status_code resp =? 200)%Z then
            match save_body out_path resp with
            | Some e => raise e
            | None =>
                ret (local, true, out_path,
                     default "" (header_get resp "Content-Type"))
            end
          else ret (local, false, out_path,
                    default "" (header_get resp "Content-Type"))
      end
  end.

Local Close Scope net_scope.

(** ** Rate limiter

    A [float] of Python is a binary64 number of IEEE 754: a [spec_float]
    with the operations of precision 53 and largest exponent 1024, which
    round to nearest, ties to even.  The readings of [time.monotonic()]
    are given to the functions, and so is the outcome of [time.sleep]. *)

Module RateLimiter.

Definition float : Type := spec_float.
Definition prec : Z := 53%Z.
Definition emax : Z := 1024%Z.

Definition add : float -> float -> float := SFadd prec emax.
Definition sub : float -> float -> float := SFsub prec emax.
Definition mul : float -> float -> float := SFmul prec emax.

(** [a < b], false when one of the two is not a number. *)
Definition lt : float -> float -> bool := SFltb.

(** [float(z)] for an [int]; [None] stands for [OverflowError]. *)
Definition of_int (z : Z) : option float :=
  match binary_normalize prec emax z 0%Z false with
  | S754_infinity _ => None
  | f => Some f
  end.

(** [a / b]; [None] stands for [ZeroDivisionError]. *)
Definition div (a b : float) : option float :=
  match b with
  | S754_zero _ => None
  | _ => Some (SFdiv prec emax a b)
  end.

(** The literals [0.0], [0.05] and [1.0]. *)
Definition zero : float := S754_zero false.
Definition one_twentieth : float := S754_finite false 7205759403792794 (-57)%Z.
Definition one : float := S754_finite false 4503599627370496 (-52)%Z.

(** [max(a, b)] and [min(a, b)] of Python: the first argument is kept
    unless the second is above it, respectively below it. *)
Definition py_max (a b : float) : float := if lt a b then b else a.
Definition py_min (a b : float) : float := if lt b a then b else a.

Record t := {
  capacity : float;
  tokens : float;
  fill : float;
  t0 : float
}.

(** [RateLimiter(rps, burst)], created at time [now]. *)
Definition init (now rps : float) (burst : Z) : option t :=
  capacity ← of_int (if (burst <? 1)%Z then 1%Z else burst);
  Some {| capacity := capacity; tokens := capacity;
          fill := py_max rps one_twentieth; t0 := now |}.

(** How a call of [take] ends: it returns, having asked [time.sleep] for
    [slept] seconds or not at all, or an exception leaves it; the limiter
    is the object as the call leaves it. *)
Inductive outcome :=
| Returned (l : t) (slept : option float)
| Raised (l : t).

(** [take(n)]: [now] and [later] are the two readings of the clock, the
    second one taken only on the branch that may sleep, and
    [sleep_returns] says whether [time.sleep] returns rather than raises. *)
Definition take (now later : float) (sleep_returns : bool) (n : float) (l : t)
    : outcome :=
  let elapsed := sub now (t0 l) in
  let filled := py_min (capacity l) (add (tokens l) (mul elapsed (fill l))) in
  let l1 := {| capacity := capacity l; tokens := filled; fill := fill l;
               t0 := now |} in
  if lt filled n then
    match div (sub n filled) (fill l) with
    | None => Raised l1
    | Some sleep_time =>
        if lt zero sleep_time && negb sleep_returns then Raised l1
        else Returned {| capacity := capacity l; tokens := zero;
                         fill := fill l; t0 := later |}
               (if lt zero sleep_time then Some sleep_time else None)
    end
  else
    Returned {| capacity := capacity l; tokens := sub filled n;
                fill := fill l; t0 := now |} None.

End RateLimiter.

(** ** Pieces of the orchestrator *)

Local Open Scope net_scope.

(** [cdx_history_for_url] *)
Definition cdx_history_for_url `{Network} `{JsonLib} (url cutoff_ts : string)
    : Net (list crow) :=
  _cdx (<["url" := url]> (<["output" := "json"]> (<["gzip" := "false"]>
          (<["to" := cutoff_ts]>
            (<["fl" := "timestamp,original,mimetype,statuscode,digest,length"]> ∅)))))
       CDX.

(** [not (not chosen or not html_bytes)] for a result of
    [pick_best_snapshot]: a record that is not the empty dictionary and a
    body that is not empty. *)
Definition found (result : option (row * string)) : bool :=
  match result with
  | Some (chosen, html_bytes) =>
      negb (bool_decide (chosen = ∅)) && truthy html_bytes
  | None => false
  end.

(** A row of the index whose timestamp and address, where it has them,
    are strings. *)
Definition is_text (c : option cell) : bool :=
  match c with
  | Some (Str _) | None => true
  | Some _ => false
  end.

Definition readable (r : crow) : bool :=
  is_text (r !! (inl "timestamp" : pykey)) && is_text (r !! (inl "original" : pykey)).

(** The fields of a row that have a string for name and for value: of a
    readable row, all that [pick_best_snapshot] and the loop of [main]
    read. *)
Definition text_fields (r : crow) : row :=
  map_fold (fun (k : pykey) (c : cell) (acc : row) =>
              match k, c with
              | inl name, Str v => <[name := v]> acc
              | _, _ => acc
              end) ∅ r.

(** [pick_best_snapshot] on rows of the index. *)
Definition pick_from_history `{Network} `{JsonLib} (history : list crow)
    (include_nonhtml : bool) : Net (option (row * string)) :=
  if forallb readable history
  then pick_best_snapshot (map text_fields history) include_nonhtml
  else fun log =>
         let '(outcome, sent) := untyped_pick history include_nonhtml log in
         (outcome, (log ++ sent)%list).

(** The resolution of one candidate in the loop of [main]: the candidate
    itself, then the history of its address; [None] is the outcome
    reported as [no_good_snapshot]. *)
Definition resolve_candidate `{Network} `{JsonLib} (url_info : row)
    (cutoff_ts : string) (include_nonhtml : bool) : Net (option (row * string)) :=
  match url_info !! "original" with
  | None => raise KeyError
  | Some original =>
      let* first := pick_best_snapshot [url_info] include_nonhtml in
      if found first then ret first
      else
        let* history := cdx_history_for_url original cutoff_ts in
        let* second := pick_from_history history include_nonhtml in
        if found second then ret second else ret None
  end.

(** The key by which [main] tells the rows of its two enumerations
    apart: [(r.get("original"), r.get("timestamp"))], as a set hashes it;
    [None] stands for [TypeError]. *)
Definition capture_key (r : crow) : option (pykey * pykey) :=
  original ← hash_key (cell_get r "original");
  timestamp ← hash_key (cell_get r "timestamp");
  Some (original, timestamp).

(** One turn of the loop that merges the rows found for the domain in
    lower case. *)
Definition merge_step (acc : list crow * gset (pykey * pykey)) (r : crow)
    : option (list crow * gset (pykey * pykey)) :=
  let '(all_rows, seen) := acc in
  key ← capture_key r;
  Some (if decide (key ∈ seen) then acc
        else ((all_rows ++ [r])%list, {[ key ]} ∪ seen)).

Fixpoint merge_loop (lowercase_rows : list crow)
    (acc : list crow * gset (pykey * pykey))
    : option (list crow * gset (pykey * pykey)) :=
  match lowercase_rows with
  | [] => Some acc
  | r :: rest => acc' ← merge_step acc r; merge_loop rest acc'
  end.

(** The enumeration of [main]: the domain as it was typed and, when that
    differs, the domain in lower case.  A [TypeError] leaves it like any
    other exception. *)
Definition enumerate_rows `{Network} `{JsonLib} (domain cutoff_ts : string)
    (subdomains : bool) : Net (list crow) :=
  let* all_rows := cdx_query_variants domain cutoff_ts subdomains in
  if negb (String.eqb (lower domain) domain) then
    let* lowercase_rows := cdx_query_variants (lower domain) cutoff_ts subdomains in
    match mapM capture_key all_rows with
    | None => raise OtherError
    | Some keys =>
        match merge_loop lowercase_rows (all_rows, list_to_set keys) with
        | None => raise OtherError
        | Some merged => ret merged.1
        end
    end
  else ret all_rows.

Local Close Scope net_scope.

(** The name under which [main] keeps the first stylesheet of the run. *)
Definition standard_css_rel : string := "assets/stylesheets/application.css".

(** The address [main] writes into the stylesheet links of a page stored
    at [local_html_rel], in its second pass; the separator of the system is
    the slash already. *)
Definition stylesheet_href (cwd local_html_rel : string) : option string :=
  PosixPath.relpath cwd standard_css_rel (PosixPath.dirname local_html_rel).

(** ** Vocabulary of the statements *)

(** The requests of the two fetch modes. *)
Definition id_request (ts original : string) : Request :=
  {| req_url := WAYBACK_RAW +:+ "/" +:+ ts +:+ "id_/" +:+ original;
     req_params := ∅ |}.

Definition if_request (ts original : string) : Request :=
  {| req_url := WAYBACK_RAW +:+ "/" +:+ ts +:+ "if_/" +:+ original;
     req_params := ∅ |}.

(** The response a fetcher hands to its caller for an outcome of
    [session.get]. *)
Definition absorb (outcome : exn + Response) : Response :=
  match outcome with
  | inr resp => resp
  | inl Timeout => synthesized 504
  | inl _ => synthesized 500
  end.

(** The identity-mode response of a capture. *)
Definition capture_response `{Network} (r : row) : Response :=
  absorb (session_get (id_request (field r "timestamp") (field r "original"))).

(** The status the archive reports for the original response: the
    integer that [int] reads from the first word of the header
    [X-Archive-Orig-Status], whose name may be in either case; there is
    none when the header is absent, empty or blank, or when its first
    word is no such integer. *)
Definition archived_status (resp : Response) : option Z :=
  v ← header_get resp "X-Archive-Orig-Status";
  w ← first_word v;
  parse_int w.

(** The archived status is between 200 and 299; without an archived
    status the outer status is. *)
Definition origin_status_ok (resp : Response) : Prop :=
  match archived_status resp with
  | Some code => (200 <= code < 300)%Z
  | None => (200 <= status_code resp < 300)%Z
  end.

(** The content type, in lower case, starts with [text/html] or
    [application/xhtml+xml], or contains [html]. *)
Definition html_like (resp : Response) : Prop :=
  let ctype := lower (default "" (header_get resp "Content-Type")) in
  startswith ctype "text/html" = true
  ∨ startswith ctype "application/xhtml+xml" = true
  ∨ contains ctype "html" = true.

(** A capture is usable when its response has status 200, its origin
    status is in order and, unless other content is allowed, its content
    type is HTML-like. *)
Definition usable `{Network} (include_nonhtml : bool) (r : row) : Prop :=
  status_code (capture_response r) = 200%Z
  ∧ origin_status_ok (capture_response r)
  ∧ (include_nonhtml = true ∨ html_like (capture_response r)).

(** The request sent for a capture. *)
Definition row_request (r : row) : Request :=
  id_request (field r "timestamp") (field r "original").

(** A capture whose identity-mode fetch fails in the TLS layer while the
    fallback mode would serve a page. *)
Definition tls_capture : row :=
  mk_row "20200101000000" "http://example.com/" "text/html".

Definition served_page : Response :=
  {| status_code := 200;
     headers := <["content-type" := "text/html"]> ∅;
     content := "<html></html>" |}.

(** An archive that serves the same page for every request. *)
Definition serving_net : Network :=
  {| session_get := fun _ => inr served_page |}.

(** A page served with status 200 whose header of the archived status
    does not begin with a number. *)
Definition unread_status_page : Response :=
  {| status_code := 200;
     headers := <["x-archive-orig-status" := "HTTP/1.1 404 Not Found"]>
                  (<["content-type" := "text/html"]> ∅);
     content := "<html></html>" |}.

Definition unread_status_net : Network :=
  {| session_get := fun _ => inr unread_status_page |}.

(** A disk on which directories can be made and no body can be written. *)
Definition full_disk : Storage :=
  {| makedirs := fun _ => None; save_body := fun _ _ => Some OtherError |}.

Definition tls_failure_net : Network :=
  {| session_get := fun rq =>
       if String.eqb (req_url rq)
            (req_url (id_request "20200101000000" "http://example.com/"))
       then inl SSLError else inr served_page |}.

(** A capture record has its timestamp and its address. *)
Definition well_formed (r : row) : Prop :=
  is_Some (r !! "timestamp") ∧ is_Some (r !! "original").

(** The dictionary key of a record in the candidate builder. *)
Definition record_key `{UrlLib} (ignore_query_params : bool) (r : row) : string :=
  if ignore_query_params
  then normalize_url (field r "original") ignore_query_params
  else field r "original".

(** A record contributes when the loop of the builder reaches the update
    of the dictionary with it. *)
Definition contributes `{UrlLib} (cutoff_ts : string) (path_prefix : option string)
    (include_nonhtml ignore_query_params : bool) (r : row) : Prop :=
  classify cutoff_ts path_prefix include_nonhtml ignore_query_params r
  = Some (Keep (record_key ignore_query_params r)).

(** The filters of the builder, in the words of the amended claim: a
    record passes when it has an address and a timestamp, the timestamp is
    not after the cutoff, the address parses, its path does not end in
    [/robots.txt] and starts with the path prefix when one is given, and,
    unless other content is included, its type in lower case starts with
    [text/html] or contains [html]. *)
Definition passes_filters `{UrlLib} (cutoff_ts : string)
    (path_prefix : option string) (include_nonhtml : bool) (r : row) : Prop :=
  field r "original" ≠ ""
  ∧ field r "timestamp" ≠ ""
  ∧ String.le (field r "timestamp") cutoff_ts
  ∧ ∃ p, urlparse (field r "original") = Some p
         ∧ endswith (path p) "/robots.txt" = false
         ∧ (∀ prefix, path_prefix = Some prefix -> prefix ≠ "" ->
              startswith (path p) prefix = true)
         ∧ (include_nonhtml = false ->
              startswith (lower (field r "mimetype")) "text/html" = true
              ∨ contains (lower (field r "mimetype")) "html" = true).

(** The key of a record, in the words of the claim: the address, or, when
    queries are ignored, its scheme, network location and path. *)
Definition candidate_key `{UrlLib} (ignore_query_params : bool) (r : row)
    : string :=
  if ignore_query_params then
    match urlparse (field r "original") with
    | Some p => scheme p +:+ "://" +:+ netloc p +:+ path p
    | None => field r "original"
    end
  else field r "original".

(** Two captures of one page, the newer one an image. *)
Definition page_capture : row :=
  mk_row "20190101000000" "http://example.com/a" "text/html".

Definition image_capture : row :=
  mk_row "20190601000000" "http://example.com/a" "image/png".

(** A record whose timestamp has four digits. *)
Definition short_capture : row :=
  mk_row "2019" "http://example.com/" "text/html".

(** The derivation of the local path as the specification words it: a
    single leading separator is stripped. *)
Definition strip_one_sep (s : string) : string :=
  match s with
  | String "/" s' => s'
  | _ => s
  end.

Definition spec_local_path (path : string) : string :=
  let path :=
    if negb (truthy path) || endswith path "/"
    then path +:+ "index.html" else path in
  strip_one_sep (before "#" (before "?" path)).

(** An archive whose capture index knows nothing: every request is
    answered with status 200 and an empty table. *)
Definition empty_index_net : Network :=
  {| session_get := fun _ =>
       inr {| status_code := 200; headers := ∅; content := "[]" |} |}.

Definition empty_index_json : JsonLib :=
  {| json_rows := fun _ => Some []; json_closest := fun _ => Some None;
     untyped_pick := fun _ _ _ => (inr None, []) |}.

(** An archive whose index answers every query with two captures of one
    page, and one whose index gives the older capture no timestamp. *)
Definition listing_net : Network :=
  {| session_get := fun _ =>
       inr {| status_code := 200; headers := ∅; content := "[...]" |} |}.

Definition listing_json : JsonLib :=
  {| json_rows := fun _ =>
       Some [[Str "timestamp"; Str "original"];
             [Str "20190101000000"; Str "http://example.com/"];
             [Str "20190601000000"; Str "http://example.com/"]];
     json_closest := fun _ => Some None;
     untyped_pick := fun _ _ _ => (inr None, []) |}.

Definition null_timestamp_json : JsonLib :=
  {| json_rows := fun _ =>
       Some [[Str "timestamp"; Str "original"];
             [Null; Str "http://example.com/"];
             [Str "20190601000000"; Str "http://example.com/"]];
     json_closest := fun _ => Some None;
     untyped_pick := fun _ _ _ => (inr None, []) |}.

(** A computation sends only requests that satisfy [P]. *)
Definition sends_only {A} (P : Request -> Prop) (m : Net A) : Prop :=
  ∀ log, ∃ new, (m log).2 = (log ++ new)%list ∧ Forall P new.

Definition not_alternate (rq : Request) : Prop := req_url rq ≠ CDX_ALTERNATE.

(** The double quote, and a stylesheet with a quoted reference to another
    host. *)
Definition dq : string := String "034" "".

Definition third_party_sheet : string :=
  "a{background:url(" +:+ dq +:+ "http://other-host.example/x.png" +:+ dq +:+ ")}".

(** The stylesheet of the example of the specification. *)
Definition example_sheet : string :=
  "a{b:url(a.png)} c{d:url(" +:+ dq +:+ "b.png" +:+ dq +:+ ")} e{f:url('c.png')} "
  +:+ "g{h:url(data:image/png;base64,AAAA)} i{j:url(//other-host.example/x.png)}".

(** A record of the sorted list, with its key. *)
Definition keyed (x : string * row) : Prop :=
  x.2 !! "timestamp" = Some x.1 ∧ is_Some (x.2 !! "original").

(** The record at the head of the loop of the resolver is accepted. *)
Definition pass `{Network} (include_nonhtml : bool) (x : string * row) : bool :=
  acceptable include_nonhtml (capture_response x.2).

(** The sort keeps the records and puts newer ones first. *)
Definition newer_first (x y : string * row) : Prop := String.le y.1 x.1.

(** The invariant of the loop of the builder: [latest] holds, for every
    key, the newest of the contributing records seen so far. *)
Definition newest_of `{UrlLib} (cutoff_ts : string) (path_prefix : option string)
    (include_nonhtml ignore_query_params : bool)
    (seen : list row) (k : string) (r : row) : Prop :=
  r ∈ seen
  ∧ classify cutoff_ts path_prefix include_nonhtml ignore_query_params r
    = Some (Keep k)
  ∧ ∀ r', r' ∈ seen ->
      classify cutoff_ts path_prefix include_nonhtml ignore_query_params r'
      = Some (Keep k) ->
      String.le (field r' "timestamp") (field r "timestamp").

Definition builder_inv `{UrlLib} (cutoff_ts : string) (path_prefix : option string)
    (include_nonhtml ignore_query_params : bool)
    (seen : list row) (latest : list (string * row)) : Prop :=
  NoDup (map fst latest)
  ∧ ∀ k, match dict_get k latest with
         | Some r =>
             newest_of cutoff_ts path_prefix include_nonhtml
               ignore_query_params seen k r
         | None =>
             ∀ r', r' ∈ seen ->
               classify cutoff_ts path_prefix include_nonhtml
                 ignore_query_params r' ≠ Some (Keep k)
         end.

(** [s[n:]] *)
Fixpoint drop_str (n : nat) (s : string) : string :=
  match n, s with
  | S k, String _ s' => drop_str k s'
  | _, _ => s
  end.

(** A component proper: not empty and without separator. *)
Definition component (x : string) : Prop := x ≠ "" ∧ has_char "/" x = false.

Definition not_dot (x : string) : Prop := x ≠ ".".

(** A component that is not a dot. *)
(** Neither empty, nor a dot, nor two dots. *)
Definition ordinary (x : string) : Prop := x ≠ "" ∧ x ≠ "." ∧ x ≠ "..".

(** The working directory: an absolute path of ordinary components. *)
Definition absolute_dir (cwd : string) (comps : list string) : Prop :=
  cwd = "/" +:+ join_with "/" comps
  ∧ Forall component comps ∧ Forall ordinary comps.

(** The request of a query of the capture index. *)
Definition cdx_request (params : gmap string string) (endpoint : string) : Request :=
  {| req_url := endpoint; req_params := params |}.

(** The rows [_cdx] makes of an outcome of [session.get]. *)
Definition cdx_rows `{JsonLib} (outcome : exn + Response) : list crow :=
  match outcome with
  | inl _ => []
  | inr r =>
      if (400 <=? status_code r)%Z && (status_code r <? 600)%Z then []
      else if negb (truthy (strip (content r))) then []
      else match json_rows (content r) with
           | Some (header :: rows) => default [] (mapM (dict_zip header) rows)
           | _ => []
           end
  end.

(** A row as the availability service yields them. *)
Definition availability_shaped (r : crow) : Prop :=
  cell_field r "statuscode" = Str "200"
  ∧ cell_field r "mimetype" = Str "text/html"
  ∧ cell_truthy (cell_field r "timestamp") = true
  ∧ cell_truthy (cell_field r "original") = true.

(** What one look-up of the availability service comes to.  It fails
    when the request raises, and when a reply of status 200 cannot be
    read.  It yields one row when the reply has status 200 and names a
    closest snapshot that is available and has an address and a
    timestamp, and no row otherwise. *)
Definition availability_rows `{JsonLib} (outcome : exn + Response)
    : option (list crow) :=
  match outcome with
  | inl _ => None
  | inr resp =>
      if bool_decide (status_code resp = 200%Z) then
        closest ← json_closest (content resp);
        Some match closest with
             | Some snapshot =>
                 if bool_decide (snap_available snapshot = true
                                 ∧ cell_truthy (snap_url snapshot) = true
                                 ∧ cell_truthy (snap_timestamp snapshot) = true)
                 then [availability_row (snap_timestamp snapshot)
                         (snap_url snapshot)]
                 else []
             | None => []
             end
      else Some []
  end.

(** The timestamp of a row is a string, or the row has none; the string. *)
Definition dated (r : crow) : Prop := ∃ ts, cell_field r "timestamp" = Str ts.

Definition timestamp_of (r : crow) : string :=
  match cell_field r "timestamp" with
  | Str ts => ts
  | _ => ""
  end.

(** The address of a row as a key of a dictionary. *)
Definition address_key (r : crow) : option pykey :=
  hash_key (cell_field r "original").

(** A row with an address and a timestamp. *)
Definition identified (r : crow) : Prop :=
  cell_truthy (cell_field r "original") = true ∧ timestamp_of r ≠ "".

(** The request of a look-up of the availability service. *)
Definition availability_request (host cutoff_ts : string) : Request :=
  {| req_url := WAYBACK_AVAILABILITY +:+ "?url=" +:+ host
                +:+ "&timestamp=" +:+ cutoff_ts;
     req_params := ∅ |}.

(** The host of the second look-up of [check_availability_api]. *)
Definition with_www (domain : string) : string :=
  if startswith domain "www." then domain else "www." +:+ domain.

(** The invariant of step 3 of [cdx_query_variants]: [latest_per_url]
    holds, for every address, the newest of the rows seen so far that
    have an address and a timestamp. *)
Definition counted (x : string * crow) : Prop :=
  cell_truthy (cell_field x.2 "original") = true ∧ x.1 ≠ "".

Definition latest_of (seen : list (string * crow)) (k : pykey)
    (x : string * crow) : Prop :=
  x ∈ seen ∧ counted x ∧ address_key x.2 = Some k
  ∧ ∀ x', x' ∈ seen -> counted x' -> address_key x'.2 = Some k ->
      String.le x'.1 x.1.

Definition latest_inv (seen : list (string * crow))
    (latest : list (pykey * (string * crow))) : Prop :=
  NoDup (map fst latest)
  ∧ ∀ k, match kdict_get k latest with
         | Some x => latest_of seen k x
         | None => ∀ x', x' ∈ seen -> counted x' -> address_key x'.2 ≠ Some k
         end.

(** The key under which the builder stores a record, when it stores it. *)
Definition key_of `{UrlLib} (cutoff_ts : string) (path_prefix : option string)
    (include_nonhtml ignore_query_params : bool) (r : row) : option string :=
  match classify cutoff_ts path_prefix include_nonhtml ignore_query_params r with
  | Some (Keep k) => Some k
  | _ => None
  end.

(** The elements of a list in the order of their first occurrence. *)
Definition add_key (acc : list string) (k : string) : list string :=
  if bool_decide (k ∈ acc) then acc else (acc ++ [k])%list.

Definition first_occurrences (ks : list string) : list string :=
  fold_left add_key ks [].

(** The request [cdx_history_for_url] sends. *)
Definition history_request (url cutoff_ts : string) : Request :=
  cdx_request
    (<["url" := url]> (<["output" := "json"]> (<["gzip" := "false"]>
       (<["to" := cutoff_ts]>
          (<["fl" := "timestamp,original,mimetype,statuscode,digest,length"]> ∅)))))
    CDX.

(** A record without timestamp. *)
Definition undated_capture : row := <["original" := "http://example.com/"]> ∅.

(** Newer captures first. *)
Definition newer_capture_first (a b : row) : Prop :=
  String.le (field b "timestamp") (field a "timestamp").

(** The numbers 2, a tenth and 3 as [float]s. *)
Definition two : RateLimiter.float := S754_finite false 4503599627370496 (-51)%Z.
Definition one_tenth : RateLimiter.float :=
  S754_finite false 7205759403792794 (-56)%Z.
Definition three : RateLimiter.float := S754_finite false 6755399441055744 (-51)%Z.

(** The limiter of [--rps nan] with the default burst, with any number of
    tokens. *)
Definition unpaced (tokens start : RateLimiter.float) : RateLimiter.t :=
  {| RateLimiter.capacity := two; RateLimiter.tokens := tokens;
     RateLimiter.fill := S754_nan; RateLimiter.t0 := start |}.

(** * Theorems *)

(** Closes an equation between closed terms by evaluating both sides. *)
Ltac by_evaluation :=
  lazymatch goal with
  | |- @eq ?A _ ?y => vm_cast_no_check (@eq_refl A y)
  end.

(** ** Order of strings *)

Lemma ltb_false_le (a b : string) : String.ltb a b = false -> String.le b a.
Proof.
  unfold String.ltb, String.le, String.leb. rewrite (String.compare_antisym b a).
  destruct (String.compare a b); simpl; intros; done.
Qed.

Lemma ltb_true_le (a b : string) : String.ltb a b = true -> String.le a b.
Proof.
  unfold String.ltb, String.le, String.leb.
  destruct (String.compare a b); simpl; intros; done.
Qed.

Lemma ltb_true_not_le (a b : string) : String.ltb a b = true -> ¬ String.le b a.
Proof.
  unfold String.ltb, String.le, String.leb. rewrite (String.compare_antisym b a).
  destruct (String.compare a b); simpl; intros ? ?; done.
Qed.

Lemma le_refl_str (a : string) : String.le a a.
Proof. apply (reflexivity (R := String.le)). Qed.

Lemma le_trans_str (a b c : string) : String.le a b -> String.le b c -> String.le a c.
Proof. apply (transitivity (R := String.le)). Qed.

(** ** Fetchers *)

Lemma fetch_id_run `{Network} (ts original : string) (log : list Request) :
  fetch_id ts original log
  = (inr (absorb (session_get (id_request ts original))),
     (log ++ [id_request ts original])%list).
Proof.
  unfold fetch_id, try_except, http_get, id_request.
  destruct (session_get _) as [[]|resp]; reflexivity.
Qed.

Lemma fetch_if_run `{Network} (ts original : string) (log : list Request) :
  fetch_if ts original log
  = (inr (absorb (session_get (if_request ts original))),
     (log ++ [if_request ts original])%list).
Proof.
  unfold fetch_if, try_except, http_get, if_request.
  destruct (session_get _) as [[]|resp]; reflexivity.
Qed.

(** C9. In either mode a fetch ends with a response: the one the session
    returned, a synthesized one with status 504 when the session raised a
    timeout, and a synthesized one with status 500 when it raised anything
    else.  No exception reaches the caller. *)
Theorem fetch_always_responds `{Network} (ts original : string) (log : list Request) :
  (∃ resp, fetch_id ts original log
           = (inr resp, (log ++ [id_request ts original])%list)
     ∧ match session_get (id_request ts original) with
       | inr answered => resp = answered
       | inl Timeout => resp = synthesized 504 ∧ status_code resp = 504%Z
       | inl _ => resp = synthesized 500 ∧ status_code resp = 500%Z
       end)
  ∧ (∃ resp, fetch_if ts original log
             = (inr resp, (log ++ [if_request ts original])%list)
       ∧ match session_get (if_request ts original) with
         | inr answered => resp = answered
         | inl Timeout => resp = synthesized 504 ∧ status_code resp = 504%Z
         | inl _ => resp = synthesized 500 ∧ status_code resp = 500%Z
         end).
Proof.
  split.
  - exists (absorb (session_get (id_request ts original))).
    split; [apply fetch_id_run|].
    destruct (session_get _) as [[]|resp]; simpl; auto.
  - exists (absorb (session_get (if_request ts original))).
    split; [apply fetch_if_run|].
    destruct (session_get _) as [[]|resp]; simpl; auto.
Qed.

(** ** Snapshot resolver *)

Lemma origin_ok_archived (resp : Response) :
  origin_ok resp
  = match archived_status resp with
    | Some code => (200 <=? code)%Z && (code <? 300)%Z
    | None => (200 <=? status_code resp)%Z && (status_code resp <? 300)%Z
    end.
Proof.
  unfold origin_ok, archived_status, py_or, header_get.
  change (lower "X-Archive-Orig-status") with (lower "X-Archive-Orig-Status").
  destruct (headers resp !! lower "X-Archive-Orig-Status") as [v|]; simpl;
    [|done].
  destruct (truthy v) eqn:Hv; simpl.
  - by rewrite Hv.
  - unfold truthy in Hv. apply negb_false_iff, String.eqb_eq in Hv. subst v.
    simpl. reflexivity.
Qed.

Lemma origin_ok_spec (resp : Response) :
  origin_ok resp = true <-> origin_status_ok resp.
Proof.
  rewrite origin_ok_archived. unfold origin_status_ok.
  destruct (archived_status resp) as [code|];
    rewrite andb_true_iff, Z.leb_le, Z.ltb_lt; tauto.
Qed.

Lemma looks_html_spec (resp : Response) :
  looks_html resp = true <-> html_like resp.
Proof.
  unfold looks_html, html_like, HTMLISH_PREFIXES. cbn [existsb].
  rewrite orb_false_r, !orb_true_iff. tauto.
Qed.

Lemma acceptable_usable `{Network} (include_nonhtml : bool) (r : row) :
  acceptable include_nonhtml (capture_response r) = true
  <-> usable include_nonhtml r.
Proof.
  unfold acceptable, usable.
  rewrite !andb_true_iff, orb_true_iff, Z.eqb_eq.
  rewrite origin_ok_spec, looks_html_spec. tauto.
Qed.

(** The handler for [SSLError] around [fetch_id] never runs. *)
Lemma guarded_fetch_id `{Network} (ts original : string) (h : exn -> Net Response)
    (log : list Request) :
  try_except (fetch_id ts original) h log = fetch_id ts original log.
Proof. unfold try_except at 1. rewrite fetch_id_run. reflexivity. Qed.

Lemma resolve_loop_run `{Network} (include_nonhtml : bool)
    (l : list (string * row)) (log : list Request) :
  Forall keyed l ->
  ∃ n, resolve_loop include_nonhtml l log
       = (inr ((fun x : string * row => (x.2, content (capture_response x.2)))
                 <$> List.find (pass include_nonhtml) l),
          (log ++ map (fun x => row_request x.2) (take n l))%list).
Proof.
  intros Hl. revert log. induction Hl as [|[ts r] l [Hts [o Ho]] Hl IH]; intros log.
  - exists 0%nat. simpl. unfold ret. by rewrite app_nil_r.
  - simpl in Hts, Ho. simpl resolve_loop. rewrite Ho.
    unfold bind. rewrite guarded_fetch_id, fetch_id_run.
    assert (Hresp : absorb (session_get (id_request ts o)) = capture_response r).
    { unfold capture_response, field. by rewrite Hts, Ho. }
    assert (Hreq : id_request ts o = row_request r).
    { unfold row_request, field. by rewrite Hts, Ho. }
    rewrite Hresp, Hreq. simpl List.find. unfold pass at 1, acceptable. simpl.
    destruct (status_code (capture_response r) =? 200)%Z; simpl.
    2:{ destruct (IH (log ++ [row_request r])%list) as [n ->].
        exists (S n). simpl. by rewrite <- app_assoc. }
    destruct (origin_ok (capture_response r)); simpl.
    2:{ destruct (IH (log ++ [row_request r])%list) as [n ->].
        exists (S n). simpl. by rewrite <- app_assoc. }
    destruct include_nonhtml; simpl.
    { exists 1%nat. simpl. reflexivity. }
    destruct (looks_html (capture_response r)); simpl.
    { exists 1%nat. simpl. reflexivity. }
    destruct (IH (log ++ [row_request r])%list) as [n ->].
    exists (S n). simpl. by rewrite <- app_assoc.
Qed.

Lemma insert_desc_perm (x : string * row) (l : list (string * row)) :
  insert_desc x l ≡ₚ x :: l.
Proof.
  induction l as [|y l IH]; simpl; [done|].
  destruct (String.ltb x.1 y.1); [|done].
  rewrite IH. apply Permutation_swap.
Qed.

Lemma sort_desc_perm (l : list (string * row)) : sort_desc l ≡ₚ l.
Proof.
  induction l as [|x l IH]; simpl; [done|].
  rewrite insert_desc_perm. by rewrite IH.
Qed.

Lemma insert_desc_sorted (x : string * row) (l : list (string * row)) :
  StronglySorted newer_first l -> StronglySorted newer_first (insert_desc x l).
Proof.
  induction 1 as [|y l Hl IH Hy]; simpl.
  - repeat constructor.
  - destruct (String.ltb x.1 y.1) eqn:Hlt.
    + constructor; [done|].
      rewrite insert_desc_perm. constructor; [|done].
      by apply ltb_true_le.
    + constructor; [by constructor|].
      apply ltb_false_le in Hlt. constructor; [done|].
      eapply Forall_impl; [exact Hy|].
      intros z Hz. unfold newer_first in *. by eapply le_trans_str.
Qed.

Lemma sort_desc_sorted (l : list (string * row)) :
  StronglySorted newer_first (sort_desc l).
Proof.
  induction l as [|x l IH]; simpl; [constructor|].
  by apply insert_desc_sorted.
Qed.

Lemma find_newest (p : string * row -> bool) (l : list (string * row))
    (x : string * row) :
  StronglySorted newer_first l -> List.find p l = Some x ->
  x ∈ l ∧ p x = true ∧ ∀ y, y ∈ l -> p y = true -> String.le y.1 x.1.
Proof.
  induction 1 as [|z l Hl IH Hz]; simpl; [done|].
  destruct (p z) eqn:Hpz.
  - intros [= ->]. split; [left|]. split; [done|].
    intros y [->|Hy]%elem_of_cons _; [apply le_refl_str|].
    rewrite Forall_forall in Hz. by apply Hz.
  - intros Hf. destruct (IH Hf) as (Hin & Hpx & Hmax).
    split; [by right|]. split; [done|].
    intros y [->|Hy]%elem_of_cons Hpy; [congruence|]. by apply Hmax.
Qed.

Lemma find_nothing (p : string * row -> bool) (l : list (string * row)) :
  List.find p l = None -> ∀ y, y ∈ l -> p y = false.
Proof.
  induction l as [|z l IH]; simpl; [by intros _ y ?%elem_of_nil|].
  destruct (p z) eqn:Hpz; [done|].
  intros Hf y [->|Hy]%elem_of_cons; [done|]. by apply IH.
Qed.

Lemma sort_keys_ok (records : list row) :
  Forall well_formed records ->
  sort_keys records = Some (map (fun r => (field r "timestamp", r)) records).
Proof.
  unfold sort_keys. induction 1 as [|r l [[ts Hts] _] Hl IH]; [done|].
  simpl. rewrite IH. simpl. unfold field. rewrite Hts. reflexivity.
Qed.

Lemma keyed_of_well_formed (records : list row) :
  Forall well_formed records ->
  Forall keyed (map (fun r => (field r "timestamp", r)) records).
Proof.
  intros Hwf. apply Forall_map. eapply Forall_impl; [exact Hwf|].
  intros r [[ts Hts] Ho]. split; [|done]. simpl. unfold field. by rewrite Hts.
Qed.

(** What a successful result of [origin_ok] says about the header. *)
Lemma origin_ok_header (resp : Response) (v : string) (code : Z) :
  header_get resp "X-Archive-Orig-Status" = Some v ->
  first_word v ≫= parse_int = Some code ->
  origin_ok resp = ((200 <=? code)%Z && (code <? 300)%Z).
Proof.
  intros Hv Hcode. unfold origin_ok.
  assert (Hsame : header_get resp "X-Archive-Orig-status" = Some v) by exact Hv.
  rewrite Hsame, Hv. unfold py_or.
  destruct (truthy v) eqn:Htr.
  - rewrite Htr, Hcode. reflexivity.
  - unfold truthy in Htr. apply negb_false_iff, String.eqb_eq in Htr.
    subst v. discriminate Hcode.
Qed.

(** C2, amended. For capture records that have their timestamp and
    address, the resolver raises nothing and returns either a usable
    capture, with the body of its response, whose timestamp is the
    greatest among the usable captures, or nothing when no capture is
    usable.  Usable means: the outer status is 200; the archived status,
    which is the integer read from the first word of the header
    [X-Archive-Orig-Status], is between 200 and 299, and where the header
    gives no such integer the outer status decides; and the content type
    is HTML-like unless other content is allowed.  So a capture whose
    header parses to a number outside 200 to 299 is never returned. *)
Theorem resolver_returns_newest_usable `{Network} (records : list row)
    (include_nonhtml : bool) (log : list Request) :
  Forall well_formed records ->
  ∃ log',
    (pick_best_snapshot records include_nonhtml log = (inr None, log')
     ∧ ∀ r, r ∈ records -> ¬ usable include_nonhtml r)
    ∨ (∃ r, pick_best_snapshot records include_nonhtml log
            = (inr (Some (r, content (capture_response r))), log')
         ∧ r ∈ records
         ∧ usable include_nonhtml r
         ∧ (∀ r', r' ∈ records -> usable include_nonhtml r' ->
              String.le (field r' "timestamp") (field r "timestamp"))
         ∧ (∀ v code,
              header_get (capture_response r) "X-Archive-Orig-Status" = Some v ->
              first_word v ≫= parse_int = Some code ->
              (200 <= code < 300)%Z)).
Proof.
  intros Hwf. unfold pick_best_snapshot. rewrite (sort_keys_ok _ Hwf).
  set (keyed_records := map (fun r => (field r "timestamp", r)) records).
  assert (Hperm : sort_desc keyed_records ≡ₚ keyed_records) by apply sort_desc_perm.
  assert (Hkeyed : Forall keyed (sort_desc keyed_records)).
  { rewrite Hperm. by apply keyed_of_well_formed. }
  destruct (resolve_loop_run include_nonhtml _ log Hkeyed) as [n ->].
  eexists.
  destruct (List.find (pass include_nonhtml) (sort_desc keyed_records))
    as [[ts r]|] eqn:Hfind; simpl.
  - right. exists r. split; [reflexivity|].
    destruct (find_newest _ _ _ (sort_desc_sorted keyed_records) Hfind)
      as (Hin & Hp & Hmax).
    rewrite Hperm in Hin. apply list_elem_of_fmap in Hin as (r0 & [= -> ->] & Hr0).
    apply acceptable_usable in Hp. simpl in Hp.
    split; [done|]. split; [done|]. split.
    + intros r' Hr' Hu'.
      apply (Hmax (field r' "timestamp", r')).
      * rewrite Hperm. apply list_elem_of_fmap. by exists r'.
      * by apply acceptable_usable.
    + intros v code Hv Hcode. destruct Hp as (_ & Hok & _).
      apply origin_ok_spec in Hok.
      rewrite (origin_ok_header _ _ _ Hv Hcode) in Hok.
      apply andb_true_iff in Hok as [?%Z.leb_le ?%Z.ltb_lt]. lia.
  - left. split; [reflexivity|].
    intros r Hr Hu. apply acceptable_usable in Hu.
    pose proof (find_nothing _ _ Hfind (field r "timestamp", r)) as Hnone.
    unfold pass in Hnone. simpl in Hnone. rewrite Hnone in Hu; [done|].
    rewrite Hperm. apply list_elem_of_fmap. by exists r.
Qed.

Lemma resolver_returns_newest_usable_witness :
  Forall well_formed [page_capture; image_capture]
  ∧ @pick_best_snapshot serving_net [page_capture; image_capture] false []
    = (inr (Some (image_capture, "<html></html>")), [row_request image_capture])
  ∧ @usable serving_net false image_capture
  ∧ (∀ r', r' ∈ [page_capture; image_capture] ->
       @usable serving_net false r' ->
       String.le (field r' "timestamp") (field image_capture "timestamp")).
Proof.
  assert (Hwf : Forall well_formed [page_capture; image_capture]).
  { repeat constructor; eexists; vm_compute; reflexivity. }
  assert (Hrun : @pick_best_snapshot serving_net [page_capture; image_capture]
                   false []
                 = (inr (Some (image_capture, "<html></html>")),
                    [row_request image_capture])) by by_evaluation.
  split; [exact Hwf|]. split; [exact Hrun|].
  destruct (@resolver_returns_newest_usable serving_net
              [page_capture; image_capture] false [] Hwf)
    as [log' [[Hnone _]|(r & Hsome & _ & Hus & Hmax & _)]].
  - rewrite Hrun in Hnone. discriminate Hnone.
  - rewrite Hrun in Hsome. assert (Hr : r = image_capture) by congruence.
    rewrite Hr in Hus, Hmax. split; [exact Hus|exact Hmax].
Defined.

(** C2 as stated fails: the header of the archived status is present
    and names the status 404, yet [int] does not read its first word, the
    outer status 200 decides, and the capture is returned. *)
Lemma capture_with_unread_status_header_is_returned :
  header_get unread_status_page "X-Archive-Orig-Status"
  = Some "HTTP/1.1 404 Not Found"
  ∧ archived_status unread_status_page = None
  ∧ @capture_response unread_status_net page_capture = unread_status_page
  ∧ @pick_best_snapshot unread_status_net [page_capture] false []
    = (inr (Some (page_capture, "<html></html>")), [row_request page_capture]).
Proof. repeat split; by_evaluation. Qed.

(** The resolver sends identity-mode requests only. *)
Lemma resolver_sends_identity_requests `{Network} (records : list row)
    (include_nonhtml : bool) (log : list Request) :
  Forall well_formed records ->
  ∃ sent, (pick_best_snapshot records include_nonhtml log).2
          = (log ++ map row_request sent)%list
          ∧ sent ⊆ records.
Proof.
  intros Hwf. unfold pick_best_snapshot. rewrite (sort_keys_ok _ Hwf).
  set (keyed_records := map (fun r => (field r "timestamp", r)) records).
  assert (Hperm : sort_desc keyed_records ≡ₚ keyed_records) by apply sort_desc_perm.
  assert (Hkeyed : Forall keyed (sort_desc keyed_records)).
  { rewrite Hperm. by apply keyed_of_well_formed. }
  destruct (resolve_loop_run include_nonhtml _ log Hkeyed) as [n ->].
  exists (map snd (take n (sort_desc keyed_records))). simpl. split.
  - by rewrite map_map.
  - intros r (x & -> & Hx)%list_elem_of_fmap.
    apply subseteq_take in Hx. rewrite Hperm in Hx.
    by apply list_elem_of_fmap in Hx as (r0 & -> & Hr0).
Qed.

(** C7 (the code differs). The identity-mode fetch of [tls_capture] fails
    with [SSLError] and the fallback mode would serve a usable page; the
    resolver sends the identity-mode request only and returns nothing. *)
Theorem tls_failure_is_not_retried :
  @session_get tls_failure_net (row_request tls_capture) = inl SSLError
  ∧ acceptable false
      (absorb (@session_get tls_failure_net
                 (if_request "20200101000000" "http://example.com/"))) = true
  ∧ @pick_best_snapshot tls_failure_net [tls_capture] false []
    = (inr None, [row_request tls_capture]).
Proof. repeat split; by_evaluation. Qed.

(** ** Rate limiter *)

Lemma mul_nan (x : RateLimiter.float) : RateLimiter.mul x S754_nan = S754_nan.
Proof. by destruct x. Qed.

Lemma add_nan (x : RateLimiter.float) : RateLimiter.add x S754_nan = S754_nan.
Proof. by destruct x. Qed.

(** C10 (the code differs). The command line accepts [--rps nan], and
    [max(nan, 0.05)] is [nan]: the first argument of [max] stays unless
    the second compares above it, and nothing compares above [nan].  The
    refill rate of that limiter is neither [rps] clamped to 0.05 nor above
    0, and the limiter limits nothing: whatever the clock reads and
    however many tokens are left, [take()] finds the bucket full again,
    takes one token and returns without sleeping.  The capacity is not
    [max(burst, 1)] either once [float] has to round it, as for
    [2 ** 53 + 1], and the constructor raises [OverflowError] for a burst
    of [2 ** 1024]. *)
Theorem nan_rate_disables_limiter (start now later tokens : RateLimiter.float)
    (sleep_returns : bool) :
  RateLimiter.init start S754_nan 2 = Some (unpaced two start)
  ∧ RateLimiter.lt RateLimiter.zero (RateLimiter.fill (unpaced two start)) = false
  ∧ RateLimiter.lt (RateLimiter.fill (unpaced two start)) RateLimiter.one_twentieth
    = false
  ∧ RateLimiter.fill (unpaced two start) ≠ RateLimiter.one_twentieth
  ∧ RateLimiter.take now later sleep_returns RateLimiter.one (unpaced tokens start)
    = RateLimiter.Returned (unpaced RateLimiter.one now) None
  ∧ RateLimiter.capacity <$> RateLimiter.init start RateLimiter.one (2 ^ 53 + 1)
    = RateLimiter.of_int (2 ^ 53)
  ∧ RateLimiter.of_int (2 ^ 53 + 1) ≠ None
  ∧ RateLimiter.init start RateLimiter.one (2 ^ 1024) = None.
Proof.
  split; [reflexivity|]. split; [reflexivity|]. split; [reflexivity|].
  split; [discriminate|]. split; [|by vm_compute].
  unfold RateLimiter.take, unpaced; simpl.
  by rewrite mul_nan, add_nan.
Qed.

(** ** Candidate builder *)

Lemma truthy_of_nonempty (s : string) : s ≠ "" -> truthy s = true.
Proof. intros Hne. unfold truthy. by apply negb_true_iff, String.eqb_neq. Qed.

Section BuilderFacts.
Context `{UrlLib}.
Variables (cutoff_ts : string) (path_prefix : option string).
Variables (include_nonhtml ignore_query_params : bool).

Local Abbreviation classify_here :=
  (classify cutoff_ts path_prefix include_nonhtml ignore_query_params).
Local Abbreviation contributes_here :=
  (contributes cutoff_ts path_prefix include_nonhtml ignore_query_params).
Local Abbreviation newest_here :=
  (newest_of cutoff_ts path_prefix include_nonhtml ignore_query_params).
Local Abbreviation inv_here :=
  (builder_inv cutoff_ts path_prefix include_nonhtml ignore_query_params).

Lemma classify_key (r : row) (k : string) :
  classify_here r = Some (Keep k) -> k = record_key ignore_query_params r.
Proof.
  unfold classify, record_key. intros Hc.
  repeat match type of Hc with
         | (if ?b then _ else _) = _ => destruct b; try discriminate
         | (_ ≫= _) = _ => destruct (urlparse (field r "original")); simpl in Hc;
                            try discriminate
         end.
  all: congruence.
Qed.

(** What the filters of the builder ask of a record. *)
Lemma contributes_filters (r : row) :
  contributes_here r ->
  field r "original" ≠ ""
  ∧ field r "timestamp" ≠ ""
  ∧ String.le (field r "timestamp") cutoff_ts
  ∧ ∃ p, urlparse (field r "original") = Some p
         ∧ endswith (path p) "/robots.txt" = false
         ∧ (∀ prefix, path_prefix = Some prefix -> prefix ≠ "" ->
              startswith (path p) prefix = true)
         ∧ (include_nonhtml = false ->
              startswith (lower (field r "mimetype")) "text/html" = true
              ∨ contains (lower (field r "mimetype")) "html" = true).
Proof.
  unfold contributes, classify. intros Hc.
  destruct (truthy (field r "original")) eqn:Ho; simpl in Hc; [|discriminate].
  destruct (truthy (field r "timestamp")) eqn:Hts; simpl in Hc; [|discriminate].
  destruct (String.ltb cutoff_ts (field r "timestamp")) eqn:Hcut; [discriminate|].
  destruct (urlparse (field r "original")) as [p|] eqn:Hp; simpl in Hc;
    [|discriminate].
  destruct (endswith (path p) "/robots.txt") eqn:Hrobots; [discriminate|].
  unfold truthy in Ho, Hts.
  apply negb_true_iff, String.eqb_neq in Ho, Hts.
  split; [done|]. split; [done|]. split; [by apply ltb_false_le|].
  exists p. split; [done|]. split; [done|]. split.
  - intros prefix -> Hne.
    assert (Htr : truthy prefix = true)
      by (unfold truthy; by apply negb_true_iff, String.eqb_neq).
    rewrite Htr in Hc. simpl in Hc.
    destruct (startswith (path p) prefix); [done|discriminate].
  - intros ->.
    destruct (match path_prefix with Some _ => _ | None => _ end);
      [discriminate|].
    simpl in Hc.
    destruct (startswith (lower (field r "mimetype")) "text/html"); [by left|].
    destruct (contains (lower (field r "mimetype")) "html"); [by right|].
    discriminate.
Qed.

(** A record contributes exactly when it passes the filters, and its key
    is then the key of the claim. *)
Lemma contributes_iff_passes (r : row) :
  contributes_here r
  <-> passes_filters cutoff_ts path_prefix include_nonhtml r.
Proof.
  split; [apply contributes_filters|].
  intros (Ho & Hts & Hle & p & Hp & Hrobots & Hprefix & Hhtml).
  unfold contributes, classify.
  rewrite (truthy_of_nonempty _ Ho), (truthy_of_nonempty _ Hts). simpl.
  assert (Hcut : String.ltb cutoff_ts (field r "timestamp") = false).
  { destruct (String.ltb cutoff_ts (field r "timestamp")) eqn:Hlt; [|done].
    by apply ltb_true_not_le in Hlt. }
  rewrite Hcut, Hp. simpl. rewrite Hrobots.
  assert (Hpre : match path_prefix with
                 | Some prefix =>
                     truthy prefix && negb (startswith (path p) prefix)
                 | None => false
                 end = false).
  { destruct path_prefix as [prefix|]; [|done].
    destruct (truthy prefix) eqn:Htr; [|done].
    rewrite (Hprefix prefix eq_refl); [done|]. intros ->. discriminate Htr. }
  rewrite Hpre.
  assert (Hmime : negb include_nonhtml
                  && negb (startswith (lower (field r "mimetype")) "text/html"
                           || contains (lower (field r "mimetype")) "html")
                  = false).
  { destruct include_nonhtml; [done|]. simpl.
    destruct (Hhtml eq_refl) as [-> | ->]; [done|by rewrite orb_true_r]. }
  rewrite Hmime. unfold record_key. by destruct ignore_query_params.
Qed.

Lemma passing_key (r : row) :
  passes_filters cutoff_ts path_prefix include_nonhtml r ->
  record_key ignore_query_params r = candidate_key ignore_query_params r.
Proof.
  intros (Ho & _ & _ & p & Hp & _).
  unfold record_key, candidate_key, normalize_url.
  destruct ignore_query_params; [|done].
  by rewrite (truthy_of_nonempty _ Ho), Hp.
Qed.

Lemma dict_get_set {V} (k k' : string) (v : V) (d : list (string * V)) :
  dict_get k' (dict_set k v d) = if String.eqb k k' then Some v else dict_get k' d.
Proof.
  induction d as [|[k0 v0] d IH]; simpl.
  - destruct (String.eqb_spec k k'); reflexivity.
  - destruct (String.eqb_spec k0 k) as [->|Hne]; simpl.
    + destruct (String.eqb_spec k k'); reflexivity.
    + rewrite IH. destruct (String.eqb_spec k0 k') as [->|Hne'];
        destruct (String.eqb_spec k k'); congruence.
Qed.

Lemma dict_get_None {V} (k : string) (d : list (string * V)) :
  dict_get k d = None -> k ∉ map fst d.
Proof.
  induction d as [|[k0 v0] d IH]; simpl; [intros _; apply not_elem_of_nil|].
  destruct (String.eqb_spec k0 k); [done|].
  intros Hd [->|Hin]%elem_of_cons; [done|]. by apply IH.
Qed.

Lemma dict_get_elem {V} (k : string) (v : V) (d : list (string * V)) :
  dict_get k d = Some v -> (k, v) ∈ d.
Proof.
  induction d as [|[k0 v0] d IH]; simpl; [done|].
  destruct (String.eqb_spec k0 k) as [->|Hne].
  - intros [= ->]. left.
  - intros Hd. right. by apply IH.
Qed.

Lemma dict_elem_get {V} (k : string) (v : V) (d : list (string * V)) :
  NoDup (map fst d) -> (k, v) ∈ d -> dict_get k d = Some v.
Proof.
  induction d as [|[k0 v0] d IH]; simpl; [by intros _ ?%elem_of_nil|].
  intros [Hk0 Hnd]%NoDup_cons [[= -> ->]|Hin]%elem_of_cons.
  - by rewrite String.eqb_refl.
  - destruct (String.eqb_spec k0 k) as [->|Hne]; [|by apply IH].
    exfalso. apply Hk0. apply list_elem_of_fmap. by exists (k, v).
Qed.

Lemma dict_set_keys {V} (k : string) (v : V) (d : list (string * V)) :
  NoDup (map fst d) -> NoDup (map fst (dict_set k v d)).
Proof.
  induction d as [|[k0 v0] d IH]; simpl.
  - intros _. apply NoDup_singleton.
  - intros [Hk0 Hnd]%NoDup_cons.
    destruct (String.eqb_spec k0 k) as [->|Hne]; simpl.
    + by apply NoDup_cons.
    + apply NoDup_cons. split; [|by apply IH].
      intros ([k1 v1] & Hk1 & Hin)%list_elem_of_fmap. simpl in Hk1. subst k1.
      apply Hk0. assert (Hg : dict_get k0 (dict_set k v d) = Some v1).
      { apply dict_elem_get; [by apply IH|done]. }
      rewrite dict_get_set in Hg. destruct (String.eqb_spec k k0); [congruence|].
      apply dict_get_elem in Hg. apply list_elem_of_fmap. by exists (k0, v1).
Qed.

Lemma inv_other_key (seen : list row) (latest : list (string * row)) (r : row)
    (k0 k : string) :
  inv_here seen latest -> classify_here r = Some (Keep k0) -> k0 ≠ k ->
  match dict_get k latest with
  | Some r0 => newest_here (r :: seen) k r0
  | None => ∀ r', r' ∈ r :: seen -> classify_here r' ≠ Some (Keep k)
  end.
Proof.
  intros [_ Hinv] Hc Hne. specialize (Hinv k).
  destruct (dict_get k latest) as [r0|].
  - destruct Hinv as (Hin & Hk & Hmax). split; [by right|]. split; [done|].
    intros r' [->|Hr']%elem_of_cons Hr'k; [congruence|]. by apply Hmax.
  - intros r' [->|Hr']%elem_of_cons; [congruence|]. by apply Hinv.
Qed.

Lemma inv_set (seen : list row) (latest : list (string * row)) (r : row)
    (k0 : string) :
  inv_here seen latest -> classify_here r = Some (Keep k0) ->
  (∀ r', r' ∈ seen -> classify_here r' = Some (Keep k0) ->
     String.le (field r' "timestamp") (field r "timestamp")) ->
  inv_here (r :: seen) (dict_set k0 r latest).
Proof.
  intros Hinv Hc Hnewer. split; [apply dict_set_keys, Hinv|]. intros k.
  rewrite dict_get_set. destruct (String.eqb_spec k0 k) as [<-|Hne].
  - split; [left|]. split; [done|].
    intros r' [->|Hr']%elem_of_cons Hr'k; [apply le_refl_str|]. by apply Hnewer.
  - by eapply inv_other_key.
Qed.

Lemma inv_keep (seen : list row) (latest : list (string * row)) (r old : row)
    (k0 : string) :
  inv_here seen latest -> classify_here r = Some (Keep k0) ->
  dict_get k0 latest = Some old ->
  String.le (field r "timestamp") (field old "timestamp") ->
  inv_here (r :: seen) latest.
Proof.
  intros Hinv Hc Hold Hle. split; [apply Hinv|]. intros k.
  destruct (String.eqb_spec k0 k) as [<-|Hne]; [|by eapply inv_other_key].
  destruct Hinv as [_ Hinv]. specialize (Hinv k0). rewrite Hold in *.
  destruct Hinv as (Hin & Hk & Hmax). split; [by right|]. split; [done|].
  intros r' [->|Hr']%elem_of_cons Hr'k; [done|]. by apply Hmax.
Qed.

Lemma builder_step_inv (seen : list row) (latest latest' : list (string * row))
    (r : row) :
  inv_here seen latest ->
  builder_step cutoff_ts path_prefix include_nonhtml ignore_query_params latest r
  = Some latest' ->
  inv_here (r :: seen) latest'.
Proof.
  intros Hinv. unfold builder_step.
  destruct (classify_here r) as [[|k0]|] eqn:Hc; simpl; [| |discriminate].
  - intros [= <-]. destruct Hinv as [Hnd Hinv]. split; [done|]. intros k.
    specialize (Hinv k). destruct (dict_get k latest) as [r0|].
    + destruct Hinv as (Hin & Hk & Hmax). split; [by right|]. split; [done|].
      intros r' [->|Hr']%elem_of_cons Hr'k; [congruence|]. by apply Hmax.
    + intros r' [->|Hr']%elem_of_cons; [congruence|]. by apply Hinv.
  - destruct (dict_get k0 latest) as [old|] eqn:Hold.
    + destruct (String.ltb (field old "timestamp") (field r "timestamp"))
        eqn:Hlt; intros [= <-].
      * apply inv_set; [done..|]. intros r' Hr' Hr'k.
        destruct Hinv as [_ Hinv]. specialize (Hinv k0). rewrite Hold in Hinv.
        destruct Hinv as (_ & _ & Hmax).
        eapply le_trans_str; [by apply Hmax|by apply ltb_true_le].
      * eapply inv_keep; [done..|]. by apply ltb_false_le.
    + intros [= <-]. apply inv_set; [done..|]. intros r' Hr' Hr'k.
      destruct Hinv as [_ Hinv]. specialize (Hinv k0). rewrite Hold in Hinv.
      by destruct (Hinv r' Hr').
Qed.

Lemma builder_loop_inv (records seen : list row)
    (latest latest' : list (string * row)) :
  inv_here seen latest ->
  builder_loop cutoff_ts path_prefix include_nonhtml ignore_query_params
    latest records = Some latest' ->
  inv_here (rev records ++ seen) latest'.
Proof.
  revert seen latest. induction records as [|r records IH]; intros seen latest Hinv.
  - simpl. by intros [= <-].
  - simpl. destruct (builder_step _ _ _ _ latest r) as [latest1|] eqn:Hstep;
      simpl; [|discriminate].
    intros Hloop. rewrite <- app_assoc. simpl.
    eapply IH; [|exact Hloop]. by eapply builder_step_inv.
Qed.

Lemma builder_inv_start : inv_here [] [].
Proof.
  split; [constructor|]. intros k. simpl. by intros r' ?%elem_of_nil.
Qed.

End BuilderFacts.

Lemma elem_of_rev {A} (x : A) (l : list A) : x ∈ rev l <-> x ∈ l.
Proof. rewrite !list_elem_of_In. symmetry. apply in_rev. Qed.

Lemma latest_per_original_inv `{UrlLib} (records : list row) (cutoff_ts : string)
    (path_prefix : option string) (include_nonhtml ignore_query_params : bool)
    (out : list row) :
  latest_per_original records cutoff_ts path_prefix include_nonhtml
    ignore_query_params = Some out ->
  ∃ latest, out = map snd latest
            ∧ builder_inv cutoff_ts path_prefix include_nonhtml
                ignore_query_params records latest.
Proof.
  unfold latest_per_original.
  destruct (builder_loop _ _ _ _ [] records) as [latest|] eqn:Hloop; simpl;
    [|discriminate].
  intros [= <-]. exists latest. split; [done|].
  pose proof (builder_loop_inv _ _ _ _ records [] [] latest
                (builder_inv_start _ _ _ _) Hloop) as [Hnd Hinv].
  split; [done|]. intros k. specialize (Hinv k).
  rewrite app_nil_r in Hinv. unfold newest_of in *.
  destruct (dict_get k latest).
  - setoid_rewrite elem_of_rev in Hinv. exact Hinv.
  - setoid_rewrite elem_of_rev in Hinv. exact Hinv.
Qed.

Lemma latest_entry `{UrlLib} (records : list row) (cutoff_ts : string)
    (path_prefix : option string) (include_nonhtml ignore_query_params : bool)
    (latest : list (string * row)) (k : string) (r : row) :
  builder_inv cutoff_ts path_prefix include_nonhtml ignore_query_params
    records latest ->
  (k, r) ∈ latest ->
  k = record_key ignore_query_params r
  ∧ newest_of cutoff_ts path_prefix include_nonhtml ignore_query_params
      records k r.
Proof.
  intros [Hnd Hinv] Hin. specialize (Hinv k).
  rewrite (dict_elem_get _ _ _ Hnd Hin) in Hinv. split; [|done].
  destruct Hinv as (_ & Hc & _). by eapply classify_key.
Qed.

(** The builder returns whenever [urlparse] accepts the addresses of the
    records. *)
Lemma classify_returns `{UrlLib} (cutoff_ts : string) (path_prefix : option string)
    (include_nonhtml ignore_query_params : bool) (r : row) :
  is_Some (urlparse (field r "original")) ->
  is_Some (classify cutoff_ts path_prefix include_nonhtml ignore_query_params r).
Proof.
  intros [p Hp]. unfold classify. rewrite Hp. simpl.
  repeat match goal with
         | |- is_Some (if ?b then _ else _) => destruct b
         end; done.
Qed.

Lemma latest_per_original_returns `{UrlLib} (records : list row)
    (cutoff_ts : string) (path_prefix : option string)
    (include_nonhtml ignore_query_params : bool) :
  Forall (fun r => is_Some (urlparse (field r "original"))) records ->
  is_Some (latest_per_original records cutoff_ts path_prefix include_nonhtml
             ignore_query_params).
Proof.
  intros Hrec. unfold latest_per_original.
  assert (Hloop : ∀ latest,
            is_Some (builder_loop cutoff_ts path_prefix include_nonhtml
                       ignore_query_params latest records)).
  { induction Hrec as [|r records Hr Hrec IH]; intros latest; [done|].
    simpl. unfold builder_step.
    destruct (classify_returns cutoff_ts path_prefix include_nonhtml
                ignore_query_params r Hr) as [[|k] ->]; simpl; [apply IH|].
    destruct (dict_get k latest); [|apply IH].
    destruct (String.ltb _ _); apply IH. }
  destruct (Hloop []) as [latest ->]. done.
Qed.

(** The records of the output are input records that contribute. *)
Lemma output_records_contribute `{UrlLib} (records : list row)
    (cutoff_ts : string) (path_prefix : option string)
    (include_nonhtml ignore_query_params : bool) (out : list row) :
  latest_per_original records cutoff_ts path_prefix include_nonhtml
    ignore_query_params = Some out ->
  ∀ r, r ∈ out ->
    r ∈ records
    ∧ contributes cutoff_ts path_prefix include_nonhtml ignore_query_params r.
Proof.
  intros (latest & -> & Hinv)%latest_per_original_inv.
  intros r ([k r0] & -> & Hin)%list_elem_of_fmap. simpl.
  by destruct (latest_entry _ _ _ _ _ _ _ _ Hinv Hin) as [-> (Hrec & Hc & _)].
Qed.

(** The output in terms of the verdict of the loop. *)
Lemma output_newest_contributing `{UrlLib} (records : list row)
    (cutoff_ts : string) (path_prefix : option string)
    (include_nonhtml ignore_query_params : bool) (out : list row) :
  latest_per_original records cutoff_ts path_prefix include_nonhtml
    ignore_query_params = Some out ->
  NoDup (map (record_key ignore_query_params) out)
  ∧ (∀ r, r ∈ out ->
       r ∈ records
       ∧ contributes cutoff_ts path_prefix include_nonhtml ignore_query_params r
       ∧ ∀ r', r' ∈ records ->
           contributes cutoff_ts path_prefix include_nonhtml
             ignore_query_params r' ->
           record_key ignore_query_params r' = record_key ignore_query_params r ->
           String.le (field r' "timestamp") (field r "timestamp"))
  ∧ (∀ r', r' ∈ records ->
       contributes cutoff_ts path_prefix include_nonhtml ignore_query_params r' ->
       ∃ r, r ∈ out
            ∧ record_key ignore_query_params r = record_key ignore_query_params r').
Proof.
  intros (latest & -> & Hinv)%latest_per_original_inv.
  split; [|split].
  - assert (Hkeys : map (record_key ignore_query_params) (map snd latest)
                    = map fst latest).
    { rewrite map_map. apply map_ext_in. intros [k r] Hin%list_elem_of_In.
      simpl. symmetry. by eapply latest_entry. }
    rewrite Hkeys. apply Hinv.
  - intros r ([k r0] & -> & Hin)%list_elem_of_fmap. simpl.
    destruct (latest_entry _ _ _ _ _ _ _ _ Hinv Hin) as [-> (Hrec & Hc & Hmax)].
    split; [done|]. split; [done|].
    intros r' Hr' Hr'c Hkey. apply Hmax; [done|].
    unfold contributes in Hr'c. by rewrite Hr'c, Hkey.
  - intros r' Hr' Hr'c. destruct Hinv as [Hnd Hinv].
    specialize (Hinv (record_key ignore_query_params r')).
    destruct (dict_get _ latest) as [r|] eqn:Hget.
    + exists r. split.
      * apply list_elem_of_fmap. exists (record_key ignore_query_params r', r).
        split; [done|]. by apply dict_get_elem.
      * destruct Hinv as (_ & Hc & _). symmetry. by eapply classify_key.
    + by destruct (Hinv r' Hr').
Qed.

(** C1, amended. The output of the candidate builder has at most one
    record per key (the address, or its scheme, network location and path
    when queries are ignored).  Each record of the output is an input
    record that passes the filters: it has an address and a timestamp,
    the timestamp is not after the cutoff, the path of the address does
    not end in [/robots.txt] and starts with the path prefix when one is
    given, and its type is HTML-like unless other content is included.
    Its timestamp is the greatest among the input records of its key that
    pass the filters, and the key of every input record that passes them
    is present. *)
Theorem candidates_newest_contributing `{UrlLib} (records : list row)
    (cutoff_ts : string) (path_prefix : option string)
    (include_nonhtml ignore_query_params : bool) (out : list row) :
  latest_per_original records cutoff_ts path_prefix include_nonhtml
    ignore_query_params = Some out ->
  NoDup (map (candidate_key ignore_query_params) out)
  ∧ (∀ r, r ∈ out ->
       r ∈ records
       ∧ passes_filters cutoff_ts path_prefix include_nonhtml r
       ∧ ∀ r', r' ∈ records ->
           passes_filters cutoff_ts path_prefix include_nonhtml r' ->
           candidate_key ignore_query_params r'
           = candidate_key ignore_query_params r ->
           String.le (field r' "timestamp") (field r "timestamp"))
  ∧ (∀ r', r' ∈ records ->
       passes_filters cutoff_ts path_prefix include_nonhtml r' ->
       ∃ r, r ∈ out
            ∧ candidate_key ignore_query_params r
              = candidate_key ignore_query_params r').
Proof.
  intros Hout.
  destruct (output_newest_contributing _ _ _ _ _ _ Hout) as (Hnd & Hin & Hcov).
  assert (Hkey : ∀ r, passes_filters cutoff_ts path_prefix include_nonhtml r ->
                   record_key ignore_query_params r
                   = candidate_key ignore_query_params r).
  { intros r. apply passing_key. }
  assert (Hpass : ∀ r, r ∈ out ->
                    passes_filters cutoff_ts path_prefix include_nonhtml r).
  { intros r Hr. apply (contributes_iff_passes _ _ _ ignore_query_params).
    by apply Hin. }
  split; [|split].
  - assert (Hmap : map (candidate_key ignore_query_params) out
                   = map (record_key ignore_query_params) out).
    { apply map_ext_in. intros r Hr%list_elem_of_In. symmetry.
      by apply Hkey, Hpass. }
    by rewrite Hmap.
  - intros r Hr. destruct (Hin r Hr) as (Hrec & Hc & Hmax).
    split; [done|]. split; [by apply Hpass|].
    intros r' Hr' Hp' Hk. apply Hmax; [done| |].
    + by apply contributes_iff_passes.
    + rewrite (Hkey r' Hp'), (Hkey r (Hpass r Hr)). exact Hk.
  - intros r' Hr' Hp'.
    destruct (Hcov r' Hr') as (r & Hr & Hk); [by apply contributes_iff_passes|].
    exists r. split; [done|].
    by rewrite <- (Hkey r' Hp'), <- (Hkey r (Hpass r Hr)).
Qed.

Lemma candidates_newest_contributing_witness :
  @latest_per_original CPython.urllib [page_capture; image_capture]
    "20200101235959" None false false = Some [page_capture]
  ∧ NoDup (map (@candidate_key CPython.urllib false) [page_capture])
  ∧ (∀ r, r ∈ [page_capture] ->
       r ∈ [page_capture; image_capture]
       ∧ @passes_filters CPython.urllib "20200101235959" None false r
       ∧ ∀ r', r' ∈ [page_capture; image_capture] ->
           @passes_filters CPython.urllib "20200101235959" None false r' ->
           @candidate_key CPython.urllib false r'
           = @candidate_key CPython.urllib false r ->
           String.le (field r' "timestamp") (field r "timestamp"))
  ∧ (∀ r', r' ∈ [page_capture; image_capture] ->
       @passes_filters CPython.urllib "20200101235959" None false r' ->
       ∃ r, r ∈ [page_capture]
            ∧ @candidate_key CPython.urllib false r
              = @candidate_key CPython.urllib false r').
Proof.
  assert (Hrun : @latest_per_original CPython.urllib [page_capture; image_capture]
                   "20200101235959" None false false = Some [page_capture])
    by by_evaluation.
  split; [exact Hrun|].
  exact (@candidates_newest_contributing CPython.urllib _ _ _ _ _ _ Hrun).
Defined.

(** C1 as stated fails: with non-HTML records left out, the image capture
    is an input record of the key of the page capture, not after the
    cutoff, and newer than the record the builder returns. *)
Lemma candidate_older_than_same_key_input :
  @latest_per_original CPython.urllib [page_capture; image_capture]
    "20200101235959" None false false = Some [page_capture]
  ∧ image_capture ∈ [page_capture; image_capture]
  ∧ @candidate_key CPython.urllib false image_capture
    = @candidate_key CPython.urllib false page_capture
  ∧ String.le (field image_capture "timestamp") "20200101235959"
  ∧ ¬ String.le (field image_capture "timestamp") (field page_capture "timestamp").
Proof.
  split; [by_evaluation|]. split; [set_solver|].
  split; [by_evaluation|]. split; [vm_compute; exact I|].
  vm_compute. exact (fun x => x).
Qed.

(** C5, amended. Every record the candidate builder returns has a
    timestamp, which is not empty and not greater than the cutoff in the
    order of strings; a record without timestamp, or with a later one, is
    discarded.  The builder does not look at the number of characters of a
    timestamp: only [to_ts_full], which the program applies to the cutoff
    given on the command line, accepts exactly the strings of 14 digits. *)
Theorem candidates_timestamp_checked `{UrlLib} (records : list row)
    (cutoff_ts : string) (path_prefix : option string)
    (include_nonhtml ignore_query_params : bool) (out : list row) :
  latest_per_original records cutoff_ts path_prefix include_nonhtml
    ignore_query_params = Some out ->
  (∀ r, r ∈ out ->
     is_Some (r !! "timestamp")
     ∧ field r "timestamp" ≠ ""
     ∧ String.le (field r "timestamp") cutoff_ts)
  ∧ (∀ r, r !! "timestamp" = None ∨ ¬ String.le (field r "timestamp") cutoff_ts ->
       r ∉ out)
  ∧ (∀ ts, to_ts_full ts
           = if Nat.eqb (String.length ts) 14 && all_chars is_digit ts
             then Some ts else None).
Proof.
  intros Hrun.
  pose proof (output_records_contribute _ _ _ _ _ _ Hrun) as Hout.
  assert (Hgood : ∀ r, r ∈ out ->
            is_Some (r !! "timestamp") ∧ field r "timestamp" ≠ ""
            ∧ String.le (field r "timestamp") cutoff_ts).
  { intros r Hr. destruct (Hout r Hr) as (_ & Hc).
    apply contributes_filters in Hc as (_ & Hts & Hle & _).
    split; [|done]. unfold field in Hts. by destruct (r !! "timestamp"). }
  split; [exact Hgood|]. split; [|done].
  intros r Hbad Hr. destruct (Hgood r Hr) as (Hsome & _ & Hle).
  destruct Hbad as [Hnone|Hgt]; [|done].
  rewrite Hnone in Hsome. by destruct Hsome.
Qed.

Lemma candidates_timestamp_checked_witness :
  @latest_per_original CPython.urllib [short_capture; image_capture]
    "20200101235959" None true false = Some [short_capture; image_capture]
  ∧ (∀ r, r ∈ [short_capture; image_capture] ->
       is_Some (r !! "timestamp")
       ∧ field r "timestamp" ≠ ""
       ∧ String.le (field r "timestamp") "20200101235959").
Proof.
  assert (Hrun : @latest_per_original CPython.urllib [short_capture; image_capture]
                   "20200101235959" None true false
                 = Some [short_capture; image_capture])
    by by_evaluation.
  split; [exact Hrun|].
  exact (proj1 (@candidates_timestamp_checked CPython.urllib _ _ _ _ _ _ Hrun)).
Defined.

(** C5 as stated fails: a record whose timestamp has four digits, which
    [to_ts_full] rejects, is neither validated nor discarded by the
    builder. *)
Lemma malformed_timestamp_is_kept :
  to_ts_full (field short_capture "timestamp") = None
  ∧ @latest_per_original CPython.urllib [short_capture] "20200101235959"
      None true false = Some [short_capture].
Proof. split; by_evaluation. Qed.

(** ** Local paths *)

Lemma has_char_before (c : ascii) (s : string) : has_char c (before c s) = false.
Proof.
  unfold before. induction s as [|a s IH]; simpl; [done|].
  destruct (Ascii.eqb a c) eqn:Hac; simpl; [done|].
  destruct (split_first c s) as [h t]. simpl in *. by rewrite Hac.
Qed.

Lemma before_without (c : ascii) (s : string) :
  has_char c s = false -> before c s = s.
Proof.
  unfold before. induction s as [|a s IH]; simpl; [done|].
  intros [Hac Hs]%orb_false_iff. rewrite Hac.
  destruct (split_first c s) as [h t]. simpl in *. by rewrite IH.
Qed.

Lemma has_char_before_other (c d : ascii) (s : string) :
  has_char c s = false -> has_char c (before d s) = false.
Proof.
  unfold before. induction s as [|a s IH]; simpl; [done|].
  intros [Hac Hs]%orb_false_iff.
  destruct (Ascii.eqb a d); simpl; [done|].
  destruct (split_first d s) as [h t]. simpl in *. by rewrite Hac, IH.
Qed.

Lemma has_char_lstrip (c d : ascii) (s : string) :
  has_char c s = false -> has_char c (lstrip_char d s) = false.
Proof.
  induction s as [|a s IH]; simpl; [done|].
  intros [Hac Hs]%orb_false_iff.
  destruct (Ascii.eqb a d); simpl; [by apply IH|by rewrite Hac, Hs].
Qed.

Lemma has_char_app (c : ascii) (s t : string) :
  has_char c (s +:+ t) = has_char c s || has_char c t.
Proof. induction s as [|a s IH]; simpl; [done|]. by rewrite IH, orb_assoc. Qed.

Lemma startswith_char (a c : ascii) (s : string) :
  startswith (String a s) (String c "") = Ascii.eqb a c.
Proof.
  unfold startswith. cbn [String.prefix].
  destruct (ascii_dec c a) as [->|Hne].
  - rewrite Ascii.eqb_refl. by destruct s.
  - symmetry. apply Ascii.eqb_neq. congruence.
Qed.

Lemma lstrip_not_leading (s : string) :
  startswith (lstrip_char "/" s) "/" = false.
Proof.
  induction s as [|a s IH]; simpl; [done|].
  destruct (Ascii.eqb a "/") eqn:Ha; [done|].
  by rewrite startswith_char.
Qed.

Lemma lstrip_strip_one (s : string) :
  lstrip_char "/" (strip_one_sep s) = lstrip_char "/" s.
Proof.
  destruct s as [|a s]; [done|]. unfold strip_one_sep.
  destruct (Ascii.eqb_spec a "/") as [->|Hne]; [done|].
  assert (Hs : match a with
               | "/"%char => s
               | _ => String a s
               end = String a s).
  { destruct a as [[] [] [] [] [] [] [] []]; congruence. }
  by rewrite Hs.
Qed.

Lemma lstrip_app_index (s : string) :
  lstrip_char "/" (s +:+ "index.html") = lstrip_char "/" s +:+ "index.html".
Proof.
  induction s as [|a s IH]; [done|].
  simpl. change (String a s +:+ "index.html") with (String a (s +:+ "index.html")).
  simpl. destruct (Ascii.eqb a "/"); [exact IH|done].
Qed.

Lemma ensure_local_path_nonempty (a : ascii) (p : string) :
  ensure_local_path (String a p)
  = lstrip_char "/"
      (before "#" (before "?"
         (if endswith (String a p) "/"
          then String a p +:+ "index.html" else String a p))).
Proof. reflexivity. Qed.

(** C3, amended. The derivation appends [index.html] to a path that is
    empty or ends with a separator, cuts the result at the first question
    mark and at the first hash, and strips every leading separator: it is
    the derivation of the specification followed by the removal of the
    separators that are left.  The result has no leading separator, no
    query and no fragment; for a path without them it is the path without
    its leading separators, with [index.html] added when the path is empty
    or ends with a separator.  The three call sites derive the local path
    of an address by this one function. *)
Theorem local_path_derivation (p : string) :
  ensure_local_path p = lstrip_char "/" (spec_local_path p)
  ∧ startswith (ensure_local_path p) "/" = false
  ∧ has_char "?" (ensure_local_path p) = false
  ∧ has_char "#" (ensure_local_path p) = false
  ∧ (has_char "?" p = false -> has_char "#" p = false ->
       ensure_local_path p
       = if negb (truthy p) || endswith p "/"
         then lstrip_char "/" p +:+ "index.html"
         else lstrip_char "/" p)
  ∧ (∀ (U : UrlLib) (cwd base_url root_host out_css_dir absu : string)
       (parsed : ParseResult),
       urlparse absu = Some parsed -> path parsed = p ->
       asset_local absu = Some (ensure_local_path p)
       ∧ relative_target cwd base_url absu
         = (b ← urlparse base_url;
            PosixPath.relpath cwd (ensure_local_path p)
              (page_dir (ensure_local_path (path b))))
       ∧ (is_same_site absu root_host = Some true ->
          ∀ m, startswith (strip (group2 m)) "data:" = false ->
               startswith (strip (group2 m)) "#" = false ->
               urljoin base_url (strip (group2 m)) = Some absu ->
               css_repl cwd base_url root_host out_css_dir m
               = (rel ← PosixPath.relpath cwd (ensure_local_path p) out_css_dir;
                  Some ("url(" +:+ rel +:+ ")")))).
Proof.
  assert (Hspec : ensure_local_path p = lstrip_char "/" (spec_local_path p)).
  { unfold ensure_local_path, spec_local_path. rewrite lstrip_strip_one.
    destruct p as [|a p]; [reflexivity|]. reflexivity. }
  split; [exact Hspec|]. split; [apply lstrip_not_leading|].
  split; [|split; [|split]].
  - unfold ensure_local_path. apply has_char_lstrip, has_char_before_other,
      has_char_before.
  - unfold ensure_local_path. apply has_char_lstrip, has_char_before.
  - intros Hq Hf. destruct p as [|a p]; [reflexivity|].
    rewrite ensure_local_path_nonempty.
    change (negb (truthy (String a p))) with false. rewrite orb_false_l.
    destruct (endswith (String a p) "/").
    + assert (Hq' : has_char "?" (String a p +:+ "index.html") = false)
        by (by rewrite has_char_app, Hq).
      assert (Hf' : has_char "#" (String a p +:+ "index.html") = false)
        by (by rewrite has_char_app, Hf).
      rewrite (before_without "?" _ Hq'), (before_without "#" _ Hf').
      apply lstrip_app_index.
    + by rewrite (before_without "?" _ Hq), (before_without "#" _ Hf).
  - intros U cwd base_url root_host out_css_dir absu parsed Hparsed <-.
    split; [by unfold asset_local; rewrite Hparsed|]. split.
    + unfold relative_target. by rewrite Hparsed.
    + intros Hsame m Hdata Hfrag Hjoin. unfold css_repl.
      rewrite Hdata, Hfrag, Hjoin. simpl. rewrite Hsame. simpl.
      by rewrite Hparsed.
Qed.

Lemma local_path_derivation_witness :
  has_char "?" "/blog/" = false
  ∧ has_char "#" "/blog/" = false
  ∧ ensure_local_path "/blog/" = "blog/index.html".
Proof.
  assert (Hq : has_char "?" "/blog/" = false) by reflexivity.
  assert (Hf : has_char "#" "/blog/" = false) by reflexivity.
  split; [exact Hq|]. split; [exact Hf|].
  exact (proj1 (proj2 (proj2 (proj2 (proj2 (local_path_derivation "/blog/")))))
           Hq Hf).
Defined.

(** C3 as stated fails: a path with two leading separators loses both,
    where the specification strips one. *)
Lemma two_leading_separators_stripped :
  ensure_local_path "//img/a.png" = "img/a.png"
  ∧ spec_local_path "//img/a.png" = "/img/a.png"
  ∧ ensure_local_path "//img/a.png" ≠ spec_local_path "//img/a.png".
Proof. repeat split; [reflexivity..|discriminate]. Qed.

(** ** Capture index client *)

Lemma sends_only_ret {A} (P : Request -> Prop) (a : A) : sends_only P (ret a).
Proof. intros log. exists []. by rewrite app_nil_r. Qed.

Lemma sends_only_raise {A} (P : Request -> Prop) (e : exn) :
  sends_only P (@raise A e).
Proof. intros log. exists []. by rewrite app_nil_r. Qed.

Lemma sends_only_bind {A B} (P : Request -> Prop) (m : Net A) (k : A -> Net B) :
  sends_only P m -> (∀ a, sends_only P (k a)) -> sends_only P (bind m k).
Proof.
  intros Hm Hk log. unfold bind. destruct (Hm log) as (new & Hlog & Hnew).
  destruct (m log) as [[e|a] log1]; simpl in Hlog; subst log1.
  - by exists new.
  - destruct (Hk a (log ++ new)%list) as (new' & Hlog' & Hnew').
    exists (new ++ new')%list. rewrite Hlog', app_assoc. split; [done|].
    by apply Forall_app.
Qed.

Lemma sends_only_try_except {A} (P : Request -> Prop) (m : Net A)
    (h : exn -> Net A) :
  sends_only P m -> (∀ e, sends_only P (h e)) -> sends_only P (try_except m h).
Proof.
  intros Hm Hh log. unfold try_except. destruct (Hm log) as (new & Hlog & Hnew).
  destruct (m log) as [[e|a] log1]; simpl in Hlog; subst log1.
  - destruct (Hh e (log ++ new)%list) as (new' & Hlog' & Hnew').
    exists (new ++ new')%list. rewrite Hlog', app_assoc. split; [done|].
    by apply Forall_app.
  - by exists new.
Qed.

Lemma sends_only_http_get `{Network} (P : Request -> Prop) (url : string)
    (params : gmap string string) :
  P {| req_url := url; req_params := params |} ->
  sends_only P (http_get url params).
Proof. intros HP log. eexists. split; [reflexivity|]. by constructor. Qed.

Lemma cdx_sends_to_endpoint `{Network} `{JsonLib} (P : Request -> Prop)
    (params : gmap string string) (endpoint : string) :
  P {| req_url := endpoint; req_params := params |} ->
  sends_only P (_cdx params endpoint).
Proof.
  intros HP. unfold _cdx. apply sends_only_try_except.
  - apply sends_only_bind; [by apply sends_only_http_get|].
    intros r. destruct (_ && _); [apply sends_only_raise|].
    destruct (negb _); [apply sends_only_ret|].
    destruct (json_rows _) as [[|header rows]|]; try apply sends_only_ret.
    destruct (mapM _ _); [apply sends_only_ret|apply sends_only_raise].
  - intros e. apply sends_only_ret.
Qed.

Lemma track_originals_sends (P : Request -> Prop) (results : list crow) :
  sends_only P (track_originals results).
Proof.
  unfold track_originals.
  destruct (forallb _ _); [apply sends_only_ret|apply sends_only_raise].
Qed.

Lemma availability_lookup_sends `{Network} `{JsonLib} (host cutoff_ts : string) :
  sends_only not_alternate (availability_lookup host cutoff_ts).
Proof.
  unfold availability_lookup. apply sends_only_bind.
  - apply sends_only_http_get. unfold not_alternate. simpl.
    intros Heq. apply (f_equal (fun s => String.get 8 s)) in Heq.
    discriminate Heq.
  - intros resp. destruct (_ =? _)%Z; [|apply sends_only_ret].
    destruct (json_closest _) as [[snapshot|]|];
      [|apply sends_only_ret|apply sends_only_raise].
    destruct (_ && _); apply sends_only_ret.
Qed.

Lemma check_availability_sends `{Network} `{JsonLib} (domain cutoff_ts : string) :
  sends_only not_alternate (check_availability_api domain cutoff_ts).
Proof.
  unfold check_availability_api. apply sends_only_try_except.
  - apply sends_only_bind; [apply availability_lookup_sends|]. intros first.
    apply sends_only_bind; [apply availability_lookup_sends|]. intros second.
    apply sends_only_ret.
  - intros e. apply sends_only_ret.
Qed.

Lemma query_all_sends `{Network} `{JsonLib} (subdomains : bool) (ds : list string) :
  sends_only not_alternate (query_all subdomains ds).
Proof.
  induction ds as [|d ds IH]; simpl; [apply sends_only_ret|].
  apply sends_only_bind.
  - unfold query_variant.
    apply sends_only_bind; [by apply cdx_sends_to_endpoint|]. intros wildcard.
    apply sends_only_bind; [apply track_originals_sends|]. intros _.
    apply sends_only_bind; [by apply cdx_sends_to_endpoint|]. intros scoped.
    apply sends_only_bind; [apply track_originals_sends|]. intros _.
    apply sends_only_ret.
  - intros here. apply sends_only_bind; [exact IH|]. intros there.
    apply sends_only_ret.
Qed.

(** C8 (the code differs). The enumeration of the pipeline never sends a
    request to the alternate address of the capture index, whatever the
    archive answers: on an archive whose index is empty it returns no row
    and has asked the primary address only, while [_cdx_multi_endpoint],
    which nothing calls, does ask the alternate address there. *)
Theorem enumeration_never_asks_alternate :
  (∀ (N : Network) (J : JsonLib) (domain cutoff_ts : string) (subdomains : bool),
     sends_only not_alternate (cdx_query_variants domain cutoff_ts subdomains))
  ∧ (@cdx_query_variants empty_index_net empty_index_json
       "example.com" "20200101235959" true []).1 = inr []
  ∧ Forall not_alternate
      (@cdx_query_variants empty_index_net empty_index_json
         "example.com" "20200101235959" true []).2
  ∧ (@_cdx_multi_endpoint empty_index_net empty_index_json
       (<["url" := "example.com*"]> base_all_urls) []).2
    = [ {| req_url := CDX;
           req_params := <["matchType" := "prefix"]>
                           (<["url" := "example.com*"]> base_all_urls) |};
        {| req_url := CDX; req_params := <["url" := "example.com*"]> base_all_urls |};
        {| req_url := CDX_ALTERNATE;
           req_params := <["url" := "example.com*"]> base_all_urls |} ].
Proof.
  assert (Hgen : ∀ (N : Network) (J : JsonLib) (domain cutoff_ts : string)
                   (subdomains : bool),
            sends_only not_alternate
              (cdx_query_variants domain cutoff_ts subdomains)).
  { intros N J domain cutoff_ts subdomains. unfold cdx_query_variants.
    apply sends_only_bind; [apply query_all_sends|]. intros all_urls.
    destruct (filter_by_date _ _) as [filtered|]; [|apply sends_only_raise].
    destruct (latest_loop _ _) as [latest|]; [|apply sends_only_raise].
    cbv zeta. destruct (_ <? _)%nat; [|apply sends_only_ret].
    apply sends_only_bind; [apply check_availability_sends|]. intros avail.
    destruct (new_rows _ _); [apply sends_only_ret|apply sends_only_raise]. }
  split; [exact Hgen|]. split; [by_evaluation|]. split; [|by_evaluation].
  destruct (Hgen empty_index_net empty_index_json "example.com"
              "20200101235959" true []) as (new & -> & Hnew).
  exact Hnew.
Qed.

(** ** Rewriting of stylesheets *)

Lemma take_drop_while (p : ascii -> bool) (s : string) :
  take_while p s +:+ drop_while p s = s.
Proof.
  induction s as [|a s IH]; simpl; [done|].
  destruct (p a); [|done].
  change (String a (take_while p s) +:+ drop_while p s)
    with (String a (take_while p s +:+ drop_while p s)).
  by rewrite IH.
Qed.

Lemma app_assoc_str (a b c : string) : (a +:+ b) +:+ c = a +:+ (b +:+ c).
Proof.
  induction a as [|x a IH]; [done|].
  change (String x ((a +:+ b) +:+ c) = String x (a +:+ (b +:+ c))). by rewrite IH.
Qed.

(** Brings concatenations of strings to a right-nested form. *)
Ltac normalize_append :=
  repeat first
    [ rewrite app_assoc_str
    | match goal with
      | |- context [String ?a ?s +:+ ?t] =>
          change (String a s +:+ t) with (String a (s +:+ t))
      | |- context [EmptyString +:+ ?t] => change (EmptyString +:+ t) with t
      end ].

Lemma length_app_str (a b : string) :
  String.length (a +:+ b) = (String.length a + String.length b)%nat.
Proof.
  induction a as [|x a IH]; [done|].
  change (S (String.length (a +:+ b)) = S (String.length a + String.length b)).
  by rewrite IH.
Qed.

Lemma drop_while_space_no_space (s : string) (c : ascii) (t : string) :
  drop_while is_space s = String c t -> is_space c = false.
Proof.
  induction s as [|a s IH]; simpl; [done|].
  destruct (is_space a) eqn:Ha; [done|]. by intros [= <- _].
Qed.

(** A match is a prefix of the text it was found in. *)
Lemma match_css_url_prefix (s : string) (m : CssMatch) :
  match_css_url s = Some m -> ∃ rest, s = group0 m +:+ rest.
Proof.
  unfold match_css_url.
  destruct s as [|u [|r [|l [|par rest]]]]; try done.
  destruct (Ascii.eqb_spec par "(") as [->|Hne];
    [|by destruct par as [[] [] [] [] [] [] [] []]].
  destruct (String.eqb _ "url"); [|done].
  pose proof (take_drop_while is_space rest) as Hws.
  destruct (drop_while is_space rest) as [|c after_c] eqn:Hdrop; [done|].
  destruct (is_quote c) eqn:Hq.
  - pose proof (take_drop_while plain after_c) as Hrun.
    destruct (drop_while plain after_c) as [|c' after_q]; [done|].
    destruct (truthy _ && Ascii.eqb c' c) eqn:Hc'; [|done].
    apply andb_true_iff in Hc' as [_ ->%Ascii.eqb_eq].
    pose proof (take_drop_while is_space after_q) as Hws2.
    destruct (drop_while is_space after_q) as [|par2 rest2]; [done|].
    destruct (Ascii.eqb_spec par2 ")") as [->|Hne];
      [|by destruct par2 as [[] [] [] [] [] [] [] []]].
    intros [= <-]. exists rest2. simpl group0.
    rewrite <- Hws at 1. rewrite <- Hrun at 1. rewrite <- Hws2 at 1.
    by normalize_append.
  - destruct (Ascii.eqb_spec c ")") as [->|Hne].
    + destruct (last_char _); [|done]. intros [= <-]. exists after_c.
      simpl group0. rewrite <- Hws at 1. by normalize_append.
    + pose proof (take_drop_while plain (String c after_c)) as Hrun.
      destruct (drop_while plain (String c after_c)) as [|par2 rest2]; [done|].
      destruct (Ascii.eqb_spec par2 ")") as [->|Hne2];
        [|by destruct par2 as [[] [] [] [] [] [] [] []]].
      intros [= <-]. exists rest2. simpl group0.
      rewrite <- Hws at 1. rewrite <- Hrun at 1. by normalize_append.
Qed.

Lemma match_css_url_nonempty (s : string) (m : CssMatch) :
  match_css_url s = Some m -> ∃ a g, group0 m = String a g.
Proof.
  unfold match_css_url.
  destruct s as [|u [|r [|l [|par rest]]]]; try done.
  destruct par as [[] [] [] [] [] [] [] []]; try done.
  destruct (String.eqb _ "url"); [|done].
  destruct (drop_while is_space rest) as [|c after_c]; [done|].
  destruct (is_quote c).
  - destruct (drop_while plain after_c) as [|c' after_q]; [done|].
    destruct (truthy _ && Ascii.eqb c' c); [|done].
    destruct (drop_while is_space after_q) as [|par2 rest2]; [done|].
    destruct par2 as [[] [] [] [] [] [] [] []]; try done.
    intros [= <-]. simpl group0. eexists _, _. by normalize_append.
  - destruct (Ascii.eqb c ")").
    + destruct (last_char _); [|done]. intros [= <-]. simpl group0.
      eexists _, _. by normalize_append.
    + destruct (drop_while plain (String c after_c)) as [|par2 rest2]; [done|].
      destruct par2 as [[] [] [] [] [] [] [] []]; try done.
      intros [= <-]. simpl group0. eexists _, _. by normalize_append.
Qed.

Lemma drop_str_app (g rest : string) :
  drop_str (String.length g) (g +:+ rest) = rest.
Proof. induction g as [|a g IH]; [by destruct rest|exact IH]. Qed.

(** A replacement function that returns the match leaves the text as it
    is. *)
Lemma css_sub_from_untouched (repl : CssMatch -> option string) (skip : nat)
    (s : string) :
  (∀ m, repl m = Some (group0 m)) ->
  css_sub_from repl skip s = Some (drop_str skip s).
Proof.
  intros Hrepl. revert skip. induction s as [|c s IH]; intros skip.
  - by destruct skip.
  - destruct skip as [|k]; cbn [css_sub_from]; [|apply IH].
    destruct (match_css_url (String c s)) as [m|] eqn:Hm.
    + rewrite Hrepl. cbn [mbind option_bind]. rewrite IH. cbn [mbind option_bind].
      destruct (match_css_url_prefix _ _ Hm) as (rest & Hs).
      destruct (match_css_url_nonempty _ _ Hm) as (a & g & Hg).
      rewrite Hg in Hs |- *. injection Hs as -> ->.
      replace (String.length (String a g) - 1)%nat with (String.length g)
        by (simpl; lia).
      rewrite drop_str_app. by normalize_append.
    + rewrite IH. by destruct s.
Qed.

Lemma css_sub_untouched (repl : CssMatch -> option string) (s : string) :
  (∀ m, repl m = Some (group0 m)) -> css_sub repl s = Some s.
Proof.
  intros Hrepl. unfold css_sub. rewrite css_sub_from_untouched by done.
  by destruct s.
Qed.

(** What [repl] of [rewrite_css_urls] returns for a match, by the kind of
    its target. *)
Lemma css_repl_cases `{UrlLib} (cwd base_url root_host out_css_dir : string)
    (m : CssMatch) :
  let raw := strip (group2 m) in
  (startswith raw "data:" = true ∨ startswith raw "#" = true ->
     css_repl cwd base_url root_host out_css_dir m = Some (group0 m))
  ∧ (startswith raw "data:" = false -> startswith raw "#" = false ->
     ∀ absu, urljoin base_url raw = Some absu ->
       (is_same_site absu root_host = Some false ->
          css_repl cwd base_url root_host out_css_dir m
          = Some ("url(" +:+ raw +:+ ")"))
       ∧ (is_same_site absu root_host = Some true ->
          css_repl cwd base_url root_host out_css_dir m
          = (local ← asset_local absu;
             rel ← PosixPath.relpath cwd local out_css_dir;
             Some ("url(" +:+ rel +:+ ")")))).
Proof.
  intros raw. unfold css_repl. fold raw. split.
  - intros [-> | ->]; [done|]. by rewrite orb_true_r.
  - intros -> -> absu ->. simpl. split; intros ->; simpl; [done|].
    unfold asset_local. by destruct (urlparse absu).
Qed.

(** C6 (the code differs). A quoted reference to another host is not
    left as it is: [rewrite_css_urls] writes it back without its quotes,
    where the replacement function for inline styles returns the match
    itself.  On the stylesheet of the example of the specification, whose
    cross-host reference has no quotes, the [data:] and cross-host entries
    come out unchanged and the three same-site entries relative to the
    directory of the stylesheet. *)
Theorem quoted_third_party_reference_loses_quotes :
  @rewrite_css_urls CPython.urllib "/srv" third_party_sheet
    "http://example.com/css/site.css" "example.com" "css"
  = Some "a{background:url(http://other-host.example/x.png)}"
  ∧ "a{background:url(http://other-host.example/x.png)}" ≠ third_party_sheet
  ∧ css_sub (@style_repl CPython.urllib "/srv"
               "http://example.com/css/site.css" "example.com")
      third_party_sheet
    = Some third_party_sheet
  ∧ @rewrite_css_urls CPython.urllib "/srv" example_sheet
      "http://example.com/css/site.css" "example.com" "css"
    = Some ("a{b:url(a.png)} c{d:url(b.png)} e{f:url(c.png)} "
            +:+ "g{h:url(data:image/png;base64,AAAA)} "
            +:+ "i{j:url(//other-host.example/x.png)}").
Proof.
  split; [by_evaluation|]. split; [by vm_compute|].
  split; by_evaluation.
Qed.

(** ** Paths *)

Lemma split_on_nonempty (c : ascii) (s : string) : split_on c s ≠ [].
Proof.
  induction s as [|a s IH]; simpl; [done|].
  destruct (Ascii.eqb a c); [done|]. by destruct (split_on c s).
Qed.

Lemma split_on_app (a b : string) :
  split_on "/" (a +:+ "/" +:+ b) = (split_on "/" a ++ split_on "/" b)%list.
Proof.
  induction a as [|x a IH].
  - reflexivity.
  - change (String x a +:+ "/" +:+ b) with (String x (a +:+ "/" +:+ b)).
    simpl. rewrite IH. destruct (Ascii.eqb x "/"); [done|].
    pose proof (split_on_nonempty "/" a). by destruct (split_on "/" a).
Qed.

Lemma split_on_plain (s : string) :
  has_char "/" s = false -> split_on "/" s = [s].
Proof.
  induction s as [|a s IH]; simpl; [done|].
  intros [Ha Hs]%orb_false_iff. rewrite Ha, IH by done. reflexivity.
Qed.

Lemma split_on_slash_free (s : string) :
  Forall (fun x => has_char "/" x = false) (split_on "/" s).
Proof.
  induction s as [|a s IH]; simpl; [by repeat constructor|].
  destruct (Ascii.eqb a "/") eqn:Ha; [by constructor|].
  destruct (split_on "/" s) as [|h t]; [by repeat constructor; simpl; rewrite Ha|].
  inversion IH; subst. constructor; [|done]. simpl. by rewrite Ha.
Qed.

Lemma endswith_slash (a : string) :
  endswith a "/" = true -> ∃ a0, a = a0 +:+ "/".
Proof.
  induction a as [|x a IH]; [done|]. cbn [endswith].
  destruct (String.eqb_spec (String x a) "/") as [Heq|Hne].
  - intros _. rewrite Heq. by exists "".
  - rewrite orb_false_l. intros [a0 ->]%IH. by exists (String x a0).
Qed.

Lemma components_empty : PosixPath.components "" = [].
Proof. reflexivity. Qed.

Lemma components_sep_app (a b : string) :
  PosixPath.components (a +:+ "/" +:+ b)
  = (PosixPath.components a ++ PosixPath.components b)%list.
Proof. unfold PosixPath.components. by rewrite split_on_app, filter_app. Qed.

Lemma components_leading_sep (b : string) :
  PosixPath.components ("/" +:+ b) = PosixPath.components b.
Proof. exact (components_sep_app "" b). Qed.

Lemma components_trailing_sep (a : string) :
  PosixPath.components (a +:+ "/") = PosixPath.components a.
Proof.
  change (a +:+ "/") with (a +:+ "/" +:+ "").
  by rewrite components_sep_app, components_empty, app_nil_r.
Qed.

(** The components of a joined path. *)
Lemma join_components (a b : string) :
  startswith b "/" = false ->
  PosixPath.components (PosixPath.join a b)
  = (PosixPath.components a ++ PosixPath.components b)%list.
Proof.
  intros Hb. unfold PosixPath.join. rewrite Hb.
  destruct a as [|x a]; [reflexivity|].
  change (negb (truthy (String x a))) with false. rewrite orb_false_l.
  destruct (endswith (String x a) "/") eqn:Hend.
  - apply endswith_slash in Hend as [a0 Ha0]. rewrite Ha0.
    rewrite app_assoc_str, components_sep_app, components_trailing_sep. done.
  - apply components_sep_app.
Qed.

Lemma components_single (x : string) : component x -> PosixPath.components x = [x].
Proof.
  intros [Hne Hs]. unfold PosixPath.components. rewrite split_on_plain by done.
  rewrite filter_cons, filter_nil. unfold truthy.
  destruct (String.eqb_spec x ""); [done|]. by rewrite decide_True.
Qed.

Lemma components_join_with (l : list string) :
  Forall component l -> PosixPath.components (join_with "/" l) = l.
Proof.
  induction 1 as [|x l Hx Hl IH]; [reflexivity|].
  destruct l as [|y l].
  - by apply components_single.
  - change (join_with "/" (x :: y :: l))
      with (x +:+ "/" +:+ join_with "/" (y :: l)).
    by rewrite components_sep_app, IH, components_single.
Qed.

Lemma components_are_components (p : string) :
  Forall component (PosixPath.components p).
Proof.
  unfold PosixPath.components. apply Forall_forall.
  intros x [Hx Hin]%list_elem_of_filter. split.
  - intros ->. done.
  - pose proof (split_on_slash_free p) as Hs. rewrite Forall_forall in Hs.
    by apply Hs.
Qed.

(** The loop of [normpath] passes over empty components and dots. *)
Lemma norm_skip_empty (i : bool) (l acc : list string) :
  fold_left (PosixPath.norm_step i) l acc
  = fold_left (PosixPath.norm_step i) (filter (fun x => truthy x = true) l) acc.
Proof.
  revert acc. induction l as [|x l IH]; intros acc; [done|].
  rewrite filter_cons. destruct (String.eqb_spec x "") as [->|Hne].
  - simpl. apply IH.
  - assert (Htr : truthy x = true)
      by (unfold truthy; by apply negb_true_iff, String.eqb_neq).
    rewrite decide_True by done. simpl. apply IH.
Qed.

Lemma norm_skip_dot (i : bool) (l acc : list string) :
  fold_left (PosixPath.norm_step i) l acc
  = fold_left (PosixPath.norm_step i) (filter not_dot l) acc.
Proof.
  revert acc. induction l as [|x l IH]; intros acc; [done|].
  rewrite filter_cons. unfold not_dot at 1.
  destruct (decide (x ≠ ".")) as [Hne|Heq].
  - simpl. apply IH.
  - apply dec_stable in Heq. subst x. simpl.
    unfold PosixPath.norm_step at 2. simpl. apply IH.
Qed.

Lemma norm_step_ordinary (i : bool) (acc : list string) (x : string) :
  ordinary x -> PosixPath.norm_step i acc x = x :: acc.
Proof.
  intros (H1 & H2 & H3). unfold PosixPath.norm_step.
  apply String.eqb_neq in H1, H2, H3. by rewrite H1, H2, H3.
Qed.

Lemma norm_ordinary (i : bool) (l acc : list string) :
  Forall ordinary l ->
  fold_left (PosixPath.norm_step i) l acc = (rev l ++ acc)%list.
Proof.
  intros Hl. revert acc. induction Hl as [|x l Hx Hl IH]; intros acc; [done|].
  simpl. rewrite norm_step_ordinary by done. rewrite IH, <- app_assoc. done.
Qed.

Lemma norm_pop (i : bool) (n : nat) (top acc : list string) :
  Forall (fun x => x ≠ "..") top -> (n <= List.length top)%nat ->
  fold_left (PosixPath.norm_step i) (repeat ".." n) (top ++ acc)%list
  = (drop n top ++ acc)%list.
Proof.
  revert top. induction n as [|n IH]; intros top Htop Hn; [done|].
  destruct top as [|x top]; [simpl in Hn; lia|].
  inversion Htop as [|? ? Hx Htop']; subst. simpl in Hn.
  simpl. unfold PosixPath.norm_step at 2. simpl.
  apply String.eqb_neq in Hx. rewrite Hx.
  rewrite andb_false_r. simpl. apply IH; [done|lia].
Qed.

Lemma truthy_true (s : string) : s ≠ "" -> truthy s = true.
Proof. intros Hne. unfold truthy. by apply negb_true_iff, String.eqb_neq. Qed.

(** [normpath] of a relative path, by its components. *)
Lemma normpath_relative (s : string) :
  s ≠ "" -> startswith s "/" = false ->
  PosixPath.normpath s
  = let p := join_with "/"
               (rev (fold_left (PosixPath.norm_step false)
                       (PosixPath.components s) [])) in
    if truthy p then p else ".".
Proof.
  intros Hne Hrel. unfold PosixPath.normpath.
  rewrite (truthy_true _ Hne), Hrel. simpl negb. cbv iota.
  by rewrite norm_skip_empty.
Qed.

(** The components of [normpath] of an absolute path. *)
Lemma components_normpath_absolute (s : string) (N : list string) :
  startswith s "/" = true ->
  rev (fold_left (PosixPath.norm_step true) (PosixPath.components s) []) = N ->
  Forall component N ->
  PosixPath.components (PosixPath.normpath s) = N.
Proof.
  intros Habs HN Hcomp. unfold PosixPath.normpath.
  assert (Hne : truthy s = true) by (by destruct s).
  rewrite Hne, Habs. simpl negb. cbv iota.
  rewrite norm_skip_empty. fold (PosixPath.components s). rewrite HN.
  destruct (startswith s "//" && negb (startswith s "///")).
  - change ("//" +:+ join_with "/" N) with ("/" +:+ ("/" +:+ join_with "/" N)).
    change (truthy ("/" +:+ ("/" +:+ join_with "/" N))) with true. cbv iota.
    by rewrite !components_leading_sep, components_join_with.
  - change (truthy ("/" +:+ join_with "/" N)) with true. cbv iota.
    by rewrite components_leading_sep, components_join_with.
Qed.

Lemma startswith_app (a x : string) :
  a ≠ "" -> startswith (a +:+ x) "/" = startswith a "/".
Proof.
  destruct a as [|c a]; [done|]. intros _.
  change (String c a +:+ x) with (String c (a +:+ x)).
  by rewrite !startswith_char.
Qed.

Lemma join_keeps_start (a b : string) :
  a ≠ "" -> startswith b "/" = false ->
  PosixPath.join a b ≠ ""
  ∧ startswith (PosixPath.join a b) "/" = startswith a "/".
Proof.
  intros Ha Hb. unfold PosixPath.join. rewrite Hb.
  destruct (negb (truthy a) || endswith a "/").
  - split; [by destruct a|by apply startswith_app].
  - split; [by destruct a|by apply startswith_app].
Qed.

Lemma component_not_leading (x : string) :
  component x -> startswith x "/" = false.
Proof.
  intros [Hne Hs]. destruct x as [|c x]; [done|].
  rewrite startswith_char. simpl in Hs. by apply orb_false_iff in Hs as [-> _].
Qed.

Lemma fold_join_components (l : list string) (a : string) :
  a ≠ "" -> Forall component l ->
  fold_left PosixPath.join l a ≠ ""
  ∧ startswith (fold_left PosixPath.join l a) "/" = startswith a "/"
  ∧ PosixPath.components (fold_left PosixPath.join l a)
    = (PosixPath.components a ++ l)%list.
Proof.
  intros Ha Hl. revert a Ha. induction Hl as [|x l Hx Hl IH]; intros a Ha.
  - simpl. by rewrite app_nil_r.
  - simpl. pose proof (component_not_leading x Hx) as Hrel.
    destruct (join_keeps_start a x Ha Hrel) as [Hne Hstart].
    destruct (IH _ Hne) as (H1 & H2 & H3).
    split; [done|]. split; [by rewrite H2|].
    rewrite H3, join_components, (components_single x) by done.
    by rewrite <- app_assoc.
Qed.

Lemma components_cwd (cwd : string) (comps : list string) :
  absolute_dir cwd comps ->
  PosixPath.components cwd = comps ∧ startswith cwd "/" = true ∧ cwd ≠ "".
Proof.
  intros (-> & Hc & _). split; [|split].
  - by rewrite components_leading_sep, components_join_with.
  - change ("/" +:+ join_with "/" comps) with (String "/" (join_with "/" comps)).
    by rewrite startswith_char.
  - change ("/" +:+ join_with "/" comps) with (String "/" (join_with "/" comps)).
    done.
Qed.

Lemma ordinary_filtered (p : string) :
  Forall (fun x => x ≠ "..") (PosixPath.components p) ->
  Forall ordinary (filter not_dot (PosixPath.components p))
  ∧ Forall component (filter not_dot (PosixPath.components p)).
Proof.
  intros Hp. pose proof (components_are_components p) as Hc.
  rewrite Forall_forall in Hp, Hc. split; apply Forall_forall;
    intros x [Hx Hin]%list_elem_of_filter.
  - split; [apply (Hc x Hin)|]. split; [exact Hx|by apply Hp].
  - by apply Hc.
Qed.

(** The components of [abspath] of a relative path without two dots. *)
Lemma components_abspath (cwd : string) (comps : list string) (p : string) :
  absolute_dir cwd comps -> startswith p "/" = false ->
  Forall (fun x => x ≠ "..") (PosixPath.components p) ->
  PosixPath.components (PosixPath.abspath cwd p)
  = (comps ++ filter not_dot (PosixPath.components p))%list.
Proof.
  intros Hcwd Hrel Hp. destruct (components_cwd _ _ Hcwd) as (Hcomps & Habs & Hne).
  destruct (ordinary_filtered p Hp) as [Hord Hcomp].
  unfold PosixPath.abspath. rewrite Hrel.
  apply components_normpath_absolute.
  - destruct (join_keeps_start cwd p Hne Hrel) as [_ ->]. done.
  - rewrite join_components, Hcomps by done. rewrite fold_left_app.
    rewrite (norm_ordinary true comps []) by apply Hcwd. rewrite app_nil_r.
    rewrite norm_skip_dot, norm_ordinary by done.
    by rewrite rev_app_distr, !rev_involutive.
  - apply Forall_app. split; [apply Hcwd|done].
Qed.

Lemma common_len_app (c a b : list string) :
  PosixPath.common_len (c ++ a) (c ++ b)
  = (List.length c + PosixPath.common_len a b)%nat.
Proof.
  induction c as [|x c IH]; [done|]. simpl. by rewrite String.eqb_refl, IH.
Qed.

Lemma common_len_prefix (a b : list string) :
  (PosixPath.common_len a b <= List.length a)%nat
  ∧ take (PosixPath.common_len a b) a = take (PosixPath.common_len a b) b.
Proof.
  revert b. induction a as [|x a IH]; intros b; [by destruct b|].
  destruct b as [|y b]; simpl; [split; [lia|done]|].
  destruct (String.eqb_spec x y) as [->|Hne]; [|split; [lia|done]].
  destruct (IH b) as [Hle Heq]. simpl. split; [lia|by rewrite Heq].
Qed.

Lemma Forall_repeat_of {A} (P : A -> Prop) (x : A) (n : nat) :
  P x -> Forall P (repeat x n).
Proof. intros Hx. induction n; simpl; by constructor. Qed.

Lemma filter_all {A} (P : A -> Prop) `{∀ x, Decision (P x)} (l : list A) :
  Forall P l -> filter P l = l.
Proof.
  induction 1 as [|x l Hx Hl IH]; [done|].
  by rewrite filter_cons, decide_True, IH.
Qed.

Lemma filter_not_dot_twice (l : list string) :
  Forall not_dot (filter not_dot l).
Proof. apply Forall_forall. by intros x [Hx _]%list_elem_of_filter. Qed.

(** The relative path [relpath] computes for two relative paths without
    two dots, by components: as many steps up as the start has components
    beyond the common prefix, then the rest of the path. *)
Lemma relpath_components (cwd : string) (comps : list string)
    (local start : string) :
  absolute_dir cwd comps ->
  local ≠ "" -> startswith local "/" = false -> startswith start "/" = false ->
  Forall (fun x => x ≠ "..") (PosixPath.components local) ->
  Forall (fun x => x ≠ "..") (PosixPath.components start) ->
  let L := filter not_dot (PosixPath.components local) in
  let D := filter not_dot (PosixPath.components start) in
  let j := PosixPath.common_len D L in
  ∃ rel, PosixPath.relpath cwd local start = Some rel
         ∧ rel ≠ "" ∧ startswith rel "/" = false
         ∧ filter not_dot (PosixPath.components rel)
           = (repeat ".." (List.length D - j) ++ drop j L)%list.
Proof.
  intros Hcwd Hne Hrel Hstart Hl Hd L D j.
  unfold PosixPath.relpath. rewrite (truthy_true _ Hne). simpl negb. cbv iota.
  rewrite (components_abspath _ _ _ Hcwd Hrel Hl).
  rewrite (components_abspath _ _ _ Hcwd Hstart Hd).
  fold L D. rewrite common_len_app. fold j.
  replace (List.length (comps ++ D) - (List.length comps + j))%nat
    with (List.length D - j)%nat by (rewrite length_app; lia).
  rewrite drop_app_add.
  destruct (ordinary_filtered local Hl) as [HLord HLcomp]. fold L in HLord, HLcomp.
  assert (Hcomp : Forall component (repeat ".." (List.length D - j) ++ drop j L)).
  { apply Forall_app. split.
    - apply Forall_repeat_of. by split.
    - by apply Forall_drop. }
  assert (Hnd : Forall not_dot (repeat ".." (List.length D - j) ++ drop j L)).
  { apply Forall_app. split.
    - apply Forall_repeat_of. done.
    - apply Forall_drop. apply filter_not_dot_twice. }
  destruct (repeat ".." (List.length D - j) ++ drop j L)%list as [|x l] eqn:Hlist.
  - exists ".". repeat split; done.
  - inversion Hcomp as [|? ? Hx Hl']; subst.
    destruct (fold_join_components l x (proj1 Hx) Hl') as (H1 & H2 & H3).
    exists (fold_left PosixPath.join l x). split; [done|]. split; [done|].
    split; [by rewrite H2; apply component_not_leading|].
    rewrite H3, (components_single x Hx). simpl. by apply filter_all.
Qed.

Lemma split_last_seg_head (c : string) :
  (CPython.split_last_seg c).1 = ""
  ∨ ∃ a t h, c = String a t ∧ (CPython.split_last_seg c).1 = String a h.
Proof.
  destruct c as [|a c]; [by left|]. simpl.
  destruct (CPython.split_last_seg c) as [d l].
  destruct (has_char "/" c); [right; by eexists _, _, _|].
  destruct (Ascii.eqb a "/") eqn:Ha; [|by left].
  right. apply Ascii.eqb_eq in Ha as ->. by eexists _, _, _.
Qed.

Lemma rstrip_sep_head (a : ascii) (h : string) :
  PosixPath.rstrip_sep (String a h) = ""
  ∨ ∃ t, PosixPath.rstrip_sep (String a h) = String a t.
Proof.
  simpl. destruct (PosixPath.rstrip_sep h).
  - destruct (Ascii.eqb a "/"); [by left|right; by eexists].
  - right. by eexists.
Qed.

Lemma dirname_relative (c : string) :
  startswith c "/" = false -> startswith (PosixPath.dirname c) "/" = false.
Proof.
  intros Hc. unfold PosixPath.dirname.
  destruct (split_last_seg_head c) as [->|(a & t & h & -> & ->)]; [done|].
  rewrite startswith_char in Hc.
  destruct (truthy (String a h) && negb (all_chars PosixPath.is_sep (String a h))).
  - destruct (rstrip_sep_head a h) as [->|[t' ->]]; [done|].
    by rewrite startswith_char.
  - by rewrite startswith_char.
Qed.

(** The relative path resolves, from the directory of the page, to the
    local path it was computed for. *)
Lemma relpath_resolves (cwd : string) (comps : list string)
    (local current rel : string) :
  absolute_dir cwd comps ->
  startswith local "/" = false -> startswith current "/" = false ->
  Forall (fun x => x ≠ "..") (PosixPath.components local) ->
  Forall (fun x => x ≠ "..") (PosixPath.components (PosixPath.dirname current)) ->
  PosixPath.relpath cwd local (page_dir current) = Some rel ->
  PosixPath.normpath (PosixPath.join (PosixPath.dirname current) rel)
  = PosixPath.normpath local.
Proof.
  intros Hcwd Hlocal Hcurrent Hl Hd Hrun.
  assert (Hne : local ≠ "").
  { intros ->. discriminate Hrun. }
  set (d := PosixPath.dirname current) in *.
  pose proof (dirname_relative current Hcurrent) as Hdrel. fold d in Hdrel.
  assert (Hstart : startswith (page_dir current) "/" = false
                   ∧ filter not_dot (PosixPath.components (page_dir current))
                     = filter not_dot (PosixPath.components d)
                   ∧ Forall (fun x => x ≠ "..")
                       (PosixPath.components (page_dir current))).
  { unfold page_dir. fold d. destruct d as [|a d']; [|done].
    split; [done|]. split; [done|].
    change (PosixPath.components ".") with ["."]. by repeat constructor. }
  destruct Hstart as (Hprel & HD & Hpd).
  destruct (relpath_components cwd comps local (page_dir current)
              Hcwd Hne Hlocal Hprel Hl Hpd) as (rel' & Hrel' & Hrne & Hrrel & Hcomps).
  rewrite Hrun in Hrel'. injection Hrel' as <-.
  rewrite HD in Hcomps.
  set (L := filter not_dot (PosixPath.components local)) in *.
  set (D := filter not_dot (PosixPath.components d)) in *.
  set (j := PosixPath.common_len D L) in *.
  destruct (ordinary_filtered local Hl) as [HLord _]. fold L in HLord.
  destruct (ordinary_filtered d Hd) as [HDord _]. fold D in HDord.
  destruct (common_len_prefix D L) as [Hj Hpre]. fold j in Hj, Hpre.
  assert (Hjoin : PosixPath.join d rel ≠ ""
                  ∧ startswith (PosixPath.join d rel) "/" = false).
  { destruct d as [|a d'].
    - unfold PosixPath.join. rewrite Hrrel. simpl. by destruct rel.
    - destruct (join_keeps_start (String a d') rel) as [H1 H2]; [done..|].
      by rewrite H2. }
  destruct Hjoin as [Hjne Hjrel].
  rewrite (normpath_relative _ Hjne Hjrel), (normpath_relative _ Hne Hlocal).
  assert (Hsame : fold_left (PosixPath.norm_step false)
                    (PosixPath.components (PosixPath.join d rel)) []
                  = fold_left (PosixPath.norm_step false)
                      (PosixPath.components local) []).
  { rewrite (norm_skip_dot false (PosixPath.components local)). fold L.
    rewrite (norm_ordinary false L []) by done.
    rewrite norm_skip_dot, join_components, filter_app by done. fold D.
    rewrite Hcomps, !fold_left_app.
    rewrite (norm_ordinary false D []) by done. rewrite app_nil_r.
    rewrite <- (app_nil_r (rev D)) at 1.
    rewrite norm_pop; [|apply Forall_rev; eapply Forall_impl; [exact HDord|];
                          by intros x (_ & _ & ?)
                       |rewrite length_rev; lia].
    rewrite norm_ordinary by (by apply Forall_drop).
    rewrite !app_nil_r. change (drop (List.length D - j) (rev D))
      with (skipn (List.length D - j) (rev D)).
    rewrite skipn_rev.
    replace (List.length D - (List.length D - j))%nat with j by lia.
    rewrite <- rev_app_distr. change (firstn j D) with (take j D).
    by rewrite Hpre, take_drop. }
  by rewrite Hsame.
Qed.

(** X22. Without components of two dots the reference leads to the
    asset: when the working directory is an absolute path of ordinary
    components and neither the local path of the asset nor the directory
    of the local path of the page has a component of two dots, the
    relative path the rewriter stores for a same-site reference, joined to
    the directory of the local path of the page and normalized, is the
    normalized local path of the asset. *)
Theorem relative_target_resolves `{UrlLib} (cwd : string)
    (comps : list string) (base_url root_host v rel absu local current : string) :
  absolute_dir cwd comps ->
  rewrite_attr cwd base_url root_host v = Some (rel, Some absu) ->
  asset_local absu = Some local ->
  asset_local base_url = Some current ->
  Forall (fun x => x ≠ "..") (PosixPath.components local) ->
  Forall (fun x => x ≠ "..") (PosixPath.components (PosixPath.dirname current)) ->
  is_same_site absu root_host = Some true
  ∧ PosixPath.normpath (PosixPath.join (PosixPath.dirname current) rel)
    = PosixPath.normpath local.
Proof.
  intros Hcwd Hattr Hlocal Hcurrent Hl Hd.
  unfold rewrite_attr in Hattr.
  destruct (negb (truthy v)); [discriminate|].
  destruct (urljoin base_url v) as [absu'|]; simpl in Hattr; [|discriminate].
  destruct (is_same_site absu' root_host) as [[]|] eqn:Hsame; simpl in Hattr;
    [|discriminate..].
  destruct (relative_target cwd base_url absu') as [rel'|] eqn:Htarget;
    simpl in Hattr; [|discriminate].
  injection Hattr as -> ->.
  split; [done|].
  unfold relative_target, asset_local in *.
  destruct (urlparse absu) as [p|]; simpl in *; [|discriminate].
  destruct (urlparse base_url) as [b|]; simpl in *; [|discriminate].
  injection Hlocal as <-. injection Hcurrent as <-.
  eapply relpath_resolves; try eassumption; apply lstrip_not_leading.
Qed.

Lemma relative_target_resolves_witness :
  absolute_dir "/srv/work" ["srv"; "work"]
  ∧ @rewrite_attr CPython.urllib "/srv/work" "http://example.com/blog/post"
      "example.com" "/img/a.png"
    = Some ("../img/a.png", Some "http://example.com/img/a.png")
  ∧ @asset_local CPython.urllib "http://example.com/img/a.png" = Some "img/a.png"
  ∧ @asset_local CPython.urllib "http://example.com/blog/post" = Some "blog/post"
  ∧ PosixPath.normpath
      (PosixPath.join (PosixPath.dirname "blog/post") "../img/a.png")
    = PosixPath.normpath "img/a.png".
Proof.
  assert (Hcwd : absolute_dir "/srv/work" ["srv"; "work"]).
  { split; [reflexivity|]. split; repeat constructor; done. }
  assert (Hattr : @rewrite_attr CPython.urllib "/srv/work"
                    "http://example.com/blog/post" "example.com" "/img/a.png"
                  = Some ("../img/a.png", Some "http://example.com/img/a.png"))
    by reflexivity.
  assert (Hlocal : @asset_local CPython.urllib "http://example.com/img/a.png"
                   = Some "img/a.png") by reflexivity.
  assert (Hcurrent : @asset_local CPython.urllib "http://example.com/blog/post"
                     = Some "blog/post") by reflexivity.
  assert (Hl : Forall (fun x => x ≠ "..") (PosixPath.components "img/a.png")).
  { change (PosixPath.components "img/a.png") with ["img"; "a.png"].
    repeat constructor; done. }
  assert (Hd : Forall (fun x => x ≠ "..")
                 (PosixPath.components (PosixPath.dirname "blog/post"))).
  { change (PosixPath.components (PosixPath.dirname "blog/post")) with ["blog"].
    repeat constructor; done. }
  split; [exact Hcwd|]. split; [exact Hattr|]. split; [exact Hlocal|].
  split; [exact Hcurrent|].
  exact (proj2 (@relative_target_resolves CPython.urllib _ _ _ _ _ _ _ _ _
                  Hcwd Hattr Hlocal Hcurrent Hl Hd)).
Defined.

(** C4 (the code differs). A same-site address whose path climbs with
    two dots above the root of the site keeps its dots through [urljoin]
    and [ensure_local_path].  [download_asset] joins that local path to
    the output directory, so the file is written outside the output
    directory, while the rewriter computes the reference with
    [os.path.relpath], which clips the climb at the root of the file
    system, so the reference stored in the page leads to yet another
    place.  Here the process runs in [/srv/work] with the output
    directory [out], and the page [http://example.com/] refers to
    [http://example.com/../../../x.png]. *)
Theorem climbing_reference_leaves_output_directory :
  absolute_dir "/srv/work" ["srv"; "work"]
  ∧ @is_same_site CPython.urllib "http://example.com/../../../x.png" "example.com"
    = Some true
  ∧ @rewrite_attr CPython.urllib "/srv/work" "http://example.com/" "example.com"
      "http://example.com/../../../x.png"
    = Some ("../../x.png", Some "http://example.com/../../../x.png")
  ∧ @asset_local CPython.urllib "http://example.com/../../../x.png"
    = Some "../../../x.png"
  ∧ @asset_local CPython.urllib "http://example.com/" = Some "index.html"
  ∧ PosixPath.abspath "/srv/work" "out" = "/srv/work/out"
  ∧ PosixPath.abspath "/srv/work" (PosixPath.join "out" "../../../x.png")
    = "/x.png"
  ∧ PosixPath.abspath "/srv/work"
      (PosixPath.join "out"
         (PosixPath.join (PosixPath.dirname "index.html") "../../x.png"))
    = "/srv/x.png"
  ∧ PosixPath.normpath
      (PosixPath.join (PosixPath.dirname "index.html") "../../x.png")
    ≠ PosixPath.normpath "../../../x.png".
Proof.
  split; [split; [reflexivity|split; repeat constructor; done]|].
  repeat split; try by_evaluation. by vm_compute.
Qed.

(** ** The model of [urllib.parse] on examples *)

Example urlparse_example :
  @urlparse CPython.urllib "HTTP://Example.com/a/b;p?x=1#top"
  = Some {| scheme := "http"; netloc := "Example.com"; path := "/a/b";
            params := "p"; query := "x=1"; fragment := "top" |}.
Proof. reflexivity. Qed.

Example urljoin_relative :
  @urljoin CPython.urllib "http://example.com/css/site.css" "../img/a.png?v=2"
  = Some "http://example.com/img/a.png?v=2".
Proof. reflexivity. Qed.

Example urljoin_network_path :
  @urljoin CPython.urllib "http://example.com/css/site.css" "//other-host.example/x.png"
  = Some "http://other-host.example/x.png".
Proof. reflexivity. Qed.

Example urljoin_absolute_keeps_dots :
  @urljoin CPython.urllib "http://example.com/" "http://example.com/../x.png"
  = Some "http://example.com/../x.png".
Proof. reflexivity. Qed.

(** * Further properties of the program *)

(** ** Strings *)

Lemma endswith_iff (s suf : string) :
  endswith s suf = true <-> ∃ pre, s = pre +:+ suf.
Proof.
  split.
  - induction s as [|a s IH]; cbn [endswith].
    + rewrite orb_false_r. intros ->%String.eqb_eq. by exists "".
    + destruct (String.eqb_spec (String a s) suf) as [<-|Hne].
      * intros _. by exists "".
      * rewrite orb_false_l. intros [pre ->]%IH. by exists (String a pre).
  - intros [pre ->]. induction pre as [|a pre IH].
    + change ("" +:+ suf) with suf. destruct suf; cbn [endswith];
        by rewrite String.eqb_refl.
    + change (String a pre +:+ suf) with (String a (pre +:+ suf)).
      cbn [endswith]. by rewrite IH, orb_true_r.
Qed.

Lemma app_cancel_r (a b c : string) : a +:+ c = b +:+ c -> a = b.
Proof.
  revert b. induction a as [|x a IH]; intros b Heq.
  - destruct b as [|y b]; [done|].
    apply (f_equal String.length) in Heq.
    change ("" +:+ c) with c in Heq. rewrite length_app_str in Heq.
    simpl in Heq. lia.
  - destruct b as [|y b].
    + apply (f_equal String.length) in Heq.
      change ("" +:+ c) with c in Heq. rewrite length_app_str in Heq.
      simpl in Heq. lia.
    + change (String x (a +:+ c) = String y (b +:+ c)) in Heq.
      injection Heq as -> Heq. by rewrite (IH b Heq).
Qed.

Lemma prefix_cons (a b : ascii) (p s : string) :
  String.prefix (String a p) (String b s) = Ascii.eqb a b && String.prefix p s.
Proof.
  cbn [String.prefix]. destruct (ascii_dec a b) as [->|Hne].
  - by rewrite Ascii.eqb_refl.
  - apply Ascii.eqb_neq in Hne. by rewrite Hne.
Qed.

Lemma prefix_trans (a b c : string) :
  String.prefix a b = true -> String.prefix b c = true -> String.prefix a c = true.
Proof.
  revert b c. induction a as [|x a IH]; intros b c; [by destruct c|].
  destruct b as [|y b]; [done|]. destruct c as [|z c]; [done|].
  rewrite !prefix_cons, !andb_true_iff, !Ascii.eqb_eq.
  intros [-> Hab] [-> Hbc]. split; [done|]. by eapply IH.
Qed.

Lemma contains_of_prefix (p s sub : string) :
  String.prefix p s = true -> contains p sub = true -> contains s sub = true.
Proof.
  revert s. induction p as [|x p IH]; intros s Hps.
  - cbn [contains]. rewrite orb_false_r. intros Hsub.
    destruct sub; [by destruct s|done].
  - destruct s as [|y s]; [done|].
    rewrite prefix_cons, andb_true_iff, Ascii.eqb_eq in Hps.
    destruct Hps as [-> Hps]. cbn [contains].
    rewrite !orb_true_iff. intros [Hpre|Hrest].
    + left. eapply prefix_trans; [exact Hpre|].
      by rewrite prefix_cons, Ascii.eqb_refl.
    + right. by apply IH.
Qed.

(** ** Local paths *)

Lemma endswith_sep_app (a b : string) :
  b ≠ "" -> endswith (a +:+ b) "/" = endswith b "/".
Proof.
  intros Hb. induction a as [|x a IH]; [done|].
  change (String x a +:+ b) with (String x (a +:+ b)). cbn [endswith].
  rewrite IH. destruct (String.eqb_spec (String x (a +:+ b)) "/") as [Heq|Hne];
    [|done].
  injection Heq as _ Heq. destruct a; [by destruct b|done].
Qed.

Lemma lstrip_keeps_file (s : string) :
  s ≠ "" -> endswith s "/" = false ->
  lstrip_char "/" s ≠ "" ∧ endswith (lstrip_char "/" s) "/" = false.
Proof.
  induction s as [|a s IH]; [done|]. intros _ Hend.
  cbn [lstrip_char]. destruct (Ascii.eqb a "/") eqn:Ha; [|done].
  cbn [endswith] in Hend. apply orb_false_iff in Hend as [Hne Hend].
  apply Ascii.eqb_eq in Ha as ->. apply IH; [|done].
  intros ->. discriminate Hne.
Qed.

Lemma lstrip_fixed (s : string) :
  startswith s "/" = false -> lstrip_char "/" s = s.
Proof.
  destruct s as [|a s]; [done|]. rewrite startswith_char. simpl. by intros ->.
Qed.

(** X1. For a path without question mark and hash, as [urlparse] gives
    them, the local path names a file: it is not empty, does not end with
    a separator, and is its own local path. *)
Theorem local_path_names_file (p : string) :
  has_char "?" p = false -> has_char "#" p = false ->
  ensure_local_path p ≠ ""
  ∧ endswith (ensure_local_path p) "/" = false
  ∧ ensure_local_path (ensure_local_path p) = ensure_local_path p.
Proof.
  intros Hq Hf.
  assert (Hfile : ensure_local_path p ≠ ""
                  ∧ endswith (ensure_local_path p) "/" = false).
  { destruct p as [|a p]; [done|]. rewrite ensure_local_path_nonempty.
    destruct (endswith (String a p) "/") eqn:Hend.
    - assert (Hq' : has_char "?" (String a p +:+ "index.html") = false)
        by (by rewrite has_char_app, Hq).
      assert (Hf' : has_char "#" (String a p +:+ "index.html") = false)
        by (by rewrite has_char_app, Hf).
      rewrite (before_without "?" _ Hq'), (before_without "#" _ Hf').
      rewrite lstrip_app_index. split.
      + by destruct (lstrip_char "/" (String a p)).
      + by rewrite endswith_sep_app.
    - rewrite (before_without "?" _ Hq), (before_without "#" _ Hf).
      by apply lstrip_keeps_file. }
  destruct Hfile as [Hne Hend]. split; [done|]. split; [done|].
  assert (Hq2 : has_char "?" (ensure_local_path p) = false).
  { unfold ensure_local_path.
    apply has_char_lstrip, has_char_before_other, has_char_before. }
  assert (Hf2 : has_char "#" (ensure_local_path p) = false).
  { unfold ensure_local_path. apply has_char_lstrip, has_char_before. }
  destruct (ensure_local_path p) as [|b r] eqn:Hr; [done|].
  rewrite ensure_local_path_nonempty, Hend.
  rewrite (before_without "?" _ Hq2), (before_without "#" _ Hf2).
  apply lstrip_fixed. rewrite <- Hr. apply lstrip_not_leading.
Qed.

Lemma local_path_names_file_witness :
  ensure_local_path "/docs/" ≠ ""
  ∧ endswith (ensure_local_path "/docs/") "/" = false
  ∧ ensure_local_path (ensure_local_path "/docs/") = ensure_local_path "/docs/".
Proof. exact (local_path_names_file "/docs/" eq_refl eq_refl). Defined.

(** ** Same site *)

(** X2. When the network location of an address, in lower case, is a
    text followed by the root host, the address is same-site exactly when
    that text is empty or ends with a dot: a host that only ends with the
    letters of the root host is not same-site.  An address [urlparse]
    rejects raises. *)
Theorem same_site_by_label `{UrlLib} (url root_host pre : string) (p : ParseResult) :
  urlparse url = Some p ->
  lower (netloc p) = pre +:+ root_host ->
  (is_same_site url root_host = Some true
   <-> pre = "" ∨ endswith pre "." = true)
  ∧ (is_same_site url root_host = Some false
     <-> pre ≠ "" ∧ endswith pre "." = false).
Proof.
  intros Hp Hh. unfold is_same_site. rewrite Hp. simpl. rewrite Hh.
  assert (Heq : String.eqb (pre +:+ root_host) root_host = true <-> pre = "").
  { rewrite String.eqb_eq. split; [|by intros ->].
    intros Heq. by apply (app_cancel_r pre "" root_host). }
  assert (Hend : endswith (pre +:+ root_host) ("." +:+ root_host) = true
                 <-> endswith pre "." = true).
  { rewrite !endswith_iff. split.
    - intros [q Hq]. exists q. apply (app_cancel_r _ _ root_host).
      rewrite Hq. by normalize_append.
    - intros [q ->]. exists q. by normalize_append. }
  destruct (String.eqb (pre +:+ root_host) root_host) eqn:E1;
    destruct (endswith (pre +:+ root_host) ("." +:+ root_host)) eqn:E2;
    simpl.
  - pose proof (proj1 Heq eq_refl).
    split; split; try done; try tauto; intros [? ?]; congruence.
  - pose proof (proj1 Heq eq_refl).
    split; split; try done; try tauto; intros [? ?]; congruence.
  - pose proof (proj1 Hend eq_refl).
    split; split; try done; try tauto; intros [? ?]; congruence.
  - assert (pre ≠ "").
    { intros Hpre. apply Heq in Hpre. discriminate Hpre. }
    assert (endswith pre "." = false).
    { apply not_true_is_false. intros E. apply Hend in E. discriminate E. }
    split; split; try done; try tauto; intros [?|?]; congruence.
Qed.

Lemma same_site_by_label_witness :
  @urlparse CPython.urllib "http://NotExample.com/a"
  = Some {| scheme := "http"; netloc := "NotExample.com"; path := "/a";
            params := ""; query := ""; fragment := "" |}
  ∧ lower "NotExample.com" = "not" +:+ "example.com"
  ∧ @is_same_site CPython.urllib "http://NotExample.com/a" "example.com"
    = Some false.
Proof.
  assert (Hp : @urlparse CPython.urllib "http://NotExample.com/a"
               = Some {| scheme := "http"; netloc := "NotExample.com";
                         path := "/a"; params := ""; query := "";
                         fragment := "" |}) by reflexivity.
  assert (Hh : lower "NotExample.com" = "not" +:+ "example.com") by reflexivity.
  split; [exact Hp|]. split; [exact Hh|].
  apply (proj2 (@same_site_by_label CPython.urllib _ "example.com" "not" _ Hp Hh)).
  split; [discriminate|reflexivity].
Defined.

(** ** Content type *)

(** X3. [looks_html] is the test whether [html] occurs in the content
    type in lower case: the two prefixes it also tries add nothing. *)
Theorem looks_html_is_substring_test (resp : Response) :
  looks_html resp
  = contains (lower (default "" (header_get resp "Content-Type"))) "html".
Proof.
  unfold looks_html, HTMLISH_PREFIXES.
  set (ctype := lower (default "" (header_get resp "Content-Type"))).
  cbn [existsb]. rewrite orb_false_r.
  destruct (contains ctype "html") eqn:Hc; [apply orb_true_r|].
  rewrite orb_false_r. apply orb_false_iff. split.
  - destruct (startswith ctype "text/html") eqn:Hs; [|done].
    rewrite <- Hc. symmetry. by eapply contains_of_prefix.
  - destruct (startswith ctype "application/xhtml+xml") eqn:Hs; [|done].
    rewrite <- Hc. symmetry. by eapply contains_of_prefix.
Qed.

(** ** Capture index client *)

Lemma cdx_run `{Network} `{JsonLib} (params : gmap string string)
    (endpoint : string) (log : list Request) :
  _cdx params endpoint log
  = (inr (cdx_rows (session_get (cdx_request params endpoint))),
     (log ++ [cdx_request params endpoint])%list).
Proof.
  unfold _cdx, try_except, bind, http_get, cdx_request, cdx_rows.
  destruct (session_get _) as [e|r]; [done|].
  destruct (_ && _); [done|]. destruct (negb _); [done|].
  destruct (json_rows _) as [[|header lines]|]; try done.
  by destruct (mapM _ _).
Qed.

Lemma zip_take {A B} (l : list A) (k : list B) :
  zip (take (List.length k) l) k = zip l k.
Proof.
  revert k. induction l as [|x l IH]; intros [|y k]; simpl; try done.
  by rewrite IH.
Qed.

Lemma dict_zip_names (header cells : list cell) (names : list pykey) :
  mapM hash_key header = Some names ->
  dict_zip header cells = Some (zip_row names cells).
Proof.
  intros Hnames%mapM_Some. unfold dict_zip.
  apply (Forall2_take _ _ _ (List.length cells)) in Hnames.
  apply mapM_Some in Hnames. rewrite Hnames. simpl.
  unfold zip_row. by rewrite zip_take.
Qed.

Lemma dict_zip_unhashable (header cells : list cell) (i : nat) (c : cell) :
  header !! i = Some c -> hash_key c = None -> (i < List.length cells)%nat ->
  dict_zip header cells = None.
Proof.
  intros Hi Hc Hlen. unfold dict_zip.
  assert (Hnone : mapM hash_key (take (List.length cells) header) = None).
  { apply mapM_None, Exists_exists. exists c. split; [|done].
    apply list_elem_of_lookup. exists i. by rewrite lookup_take_lt. }
  by rewrite Hnone.
Qed.

(** X4. A query of the capture index never raises and sends one request.
    It yields no row when the session raises, when the status is an error
    status, when the body is blank, when the body is not a table and when
    the table is empty.  Otherwise the table has a header and lines.
    When every name of the header can be hashed, there is one row for
    each line, in their order: the dictionary of the names and the cells
    of the line.  When a name that cannot be hashed meets a cell of some
    line, there is no row at all. *)
Theorem cdx_never_raises `{Network} `{JsonLib} (params : gmap string string)
    (endpoint : string) (log : list Request) :
  ∃ rows,
    _cdx params endpoint log
    = (inr rows, (log ++ [cdx_request params endpoint])%list)
    ∧ match session_get (cdx_request params endpoint) with
      | inl _ => rows = []
      | inr r =>
          ((400 <= status_code r < 600)%Z -> rows = [])
          ∧ (strip (content r) = "" -> rows = [])
          ∧ (json_rows (content r) = None -> rows = [])
          ∧ (json_rows (content r) = Some [] -> rows = [])
          ∧ (∀ header lines,
               (status_code r < 400 ∨ 600 <= status_code r)%Z ->
               strip (content r) ≠ "" ->
               json_rows (content r) = Some (header :: lines) ->
               (∀ names, mapM hash_key header = Some names ->
                  rows = map (zip_row names) lines)
               ∧ (∀ line i name,
                    line ∈ lines -> header !! i = Some name ->
                    hash_key name = None -> (i < List.length line)%nat ->
                    rows = []))
      end.
Proof.
  eexists. split; [apply cdx_run|].
  unfold cdx_rows. destruct (session_get _) as [e|r]; [done|].
  destruct ((400 <=? status_code r)%Z && (status_code r <? 600)%Z) eqn:Hst.
  { split; [|split; [|split; [|split]]]; auto.
    intros header lines Hok. exfalso.
    apply andb_true_iff in Hst as [?%Z.leb_le ?%Z.ltb_lt]. lia. }
  destruct (truthy (strip (content r))) eqn:Htr; simpl.
  2:{ split; [|split; [|split; [|split]]]; auto.
      intros header lines _ Hblank. exfalso.
      apply Hblank. unfold truthy in Htr. apply negb_false_iff in Htr.
      by apply String.eqb_eq. }
  split; [|split; [|split; [|split]]].
  - intros [? ?]. apply andb_false_iff in Hst as [?%Z.leb_gt|?%Z.ltb_ge]; lia.
  - intros Hblank. rewrite Hblank in Htr. discriminate Htr.
  - by intros ->.
  - by intros ->.
  - intros header lines _ _ Hjson. rewrite Hjson. split.
    + intros names Hnames.
      assert (Hall : mapM (dict_zip header) lines
                     = Some (map (zip_row names) lines)).
      { apply mapM_Some. clear Hjson.
        induction lines as [|line lines IH]; constructor.
        - by apply dict_zip_names.
        - exact IH. }
      by rewrite Hall.
    + intros line i name Hline Hi Hname Hlen.
      assert (Hnone : mapM (dict_zip header) lines = None).
      { apply mapM_None, Exists_exists. exists line. split; [done|].
        by eapply dict_zip_unhashable. }
      by rewrite Hnone.
Qed.

Lemma zip_row_other {K V} `{Countable K} (header : list K) (cells : list V)
    (d : gmap K V) (k : K) :
  k ∉ header ->
  fold_left (fun (d : gmap K V) kv => <[kv.1 := kv.2]> d) (zip header cells) d !! k
  = d !! k.
Proof.
  revert cells d. induction header as [|k0 header IH]; intros cells d Hk; [done|].
  destruct cells as [|v0 cells]; [done|]. simpl.
  apply not_elem_of_cons in Hk as [Hne Hk].
  rewrite IH by done. by rewrite lookup_insert_ne.
Qed.

(** X5. In a row made of a header without repetition, the field of a
    column is the cell of that column, and a name that is not in the
    header is not a field. *)
Theorem zip_row_lookup {K V} `{Countable K} (header : list K) (cells : list V) :
  NoDup header ->
  (∀ i k v, header !! i = Some k -> cells !! i = Some v ->
     zip_row header cells !! k = Some v)
  ∧ (∀ k, k ∉ header -> zip_row header cells !! k = None).
Proof.
  intros Hnd. split.
  - unfold zip_row. generalize (∅ : gmap K V) as d. revert cells.
    induction Hnd as [|k0 header Hk0 Hnd IH]; intros cells d i k v Hk Hv;
      [done|].
    destruct cells as [|v0 cells]; [done|]. simpl.
    destruct i as [|i]; simpl in Hk, Hv.
    + injection Hk as <-. injection Hv as <-.
      rewrite zip_row_other by done. apply lookup_insert_eq.
    + by eapply IH.
  - intros k Hk. unfold zip_row. by rewrite zip_row_other.
Qed.

Lemma zip_row_lookup_witness :
  NoDup ["timestamp"; "original"]
  ∧ zip_row ["timestamp"; "original"] ["20200101000000"; "http://example.com/"]
      !! "original" = Some "http://example.com/".
Proof.
  assert (Hnd : NoDup ["timestamp"; "original"]).
  { apply NoDup_cons. split; [|apply NoDup_singleton].
    intros Hin%list_elem_of_singleton. discriminate Hin. }
  split; [exact Hnd|].
  exact (proj1 (zip_row_lookup ["timestamp"; "original"]
                  ["20200101000000"; "http://example.com/"] Hnd)
           1%nat "original" "http://example.com/" eq_refl eq_refl).
Defined.

(** X6. [_cdx_multi_endpoint] never raises.  It asks the primary address,
    once more with the match type [prefix] before that when the parameters
    name no match type, and the alternate address exactly when those
    queries gave fewer than ten rows; the rows of the alternate address
    are added after the others. *)
Theorem multi_endpoint_asks_alternate_below_ten `{Network} `{JsonLib}
    (params : gmap string string) (log : list Request) :
  let prefixed := <["matchType" := "prefix"]> params in
  let first_rows :=
    match params !! "matchType" with
    | None => cdx_rows (session_get (cdx_request prefixed CDX))
    | Some _ => []
    end in
  let first_requests :=
    match params !! "matchType" with
    | None => [cdx_request prefixed CDX]
    | Some _ => []
    end in
  let results :=
    (first_rows ++ cdx_rows (session_get (cdx_request params CDX)))%list in
  ((List.length results < 10)%nat ->
     _cdx_multi_endpoint params log
     = (inr (results
             ++ cdx_rows (session_get (cdx_request params CDX_ALTERNATE)))%list,
        (log ++ first_requests
         ++ [cdx_request params CDX; cdx_request params CDX_ALTERNATE])%list))
  ∧ ((10 <= List.length results)%nat ->
     _cdx_multi_endpoint params log
     = (inr results, (log ++ first_requests ++ [cdx_request params CDX])%list)).
Proof.
  intros prefixed first_rows first_requests results.
  subst results first_rows first_requests prefixed.
  unfold _cdx_multi_endpoint, bind.
  destruct (params !! "matchType") as [m|]; unfold ret; cbn beta iota;
    rewrite !cdx_run; cbn [app];
    (split; intros Hlen; cbn [app] in Hlen).
  - apply Nat.ltb_lt in Hlen. rewrite Hlen, cdx_run.
    by rewrite <- !app_assoc.
  - apply Nat.ltb_ge in Hlen. by rewrite Hlen.
  - apply Nat.ltb_lt in Hlen. rewrite Hlen, cdx_run.
    by rewrite <- !app_assoc.
  - apply Nat.ltb_ge in Hlen. rewrite Hlen.
    by rewrite <- !app_assoc.
Qed.

Lemma multi_endpoint_asks_alternate_below_ten_witness :
  (List.length
     ((@cdx_rows empty_index_json
         (@session_get empty_index_net
            (cdx_request (<["matchType" := "prefix"]> base_all_urls) CDX)))
      ++ @cdx_rows empty_index_json
           (@session_get empty_index_net (cdx_request base_all_urls CDX)))%list
   < 10)%nat
  ∧ @_cdx_multi_endpoint empty_index_net empty_index_json base_all_urls []
    = (inr [],
       [cdx_request (<["matchType" := "prefix"]> base_all_urls) CDX;
        cdx_request base_all_urls CDX;
        cdx_request base_all_urls CDX_ALTERNATE]).
Proof.
  assert (Hlen : (List.length
     ((@cdx_rows empty_index_json
         (@session_get empty_index_net
            (cdx_request (<["matchType" := "prefix"]> base_all_urls) CDX)))
      ++ @cdx_rows empty_index_json
           (@session_get empty_index_net (cdx_request base_all_urls CDX)))%list
   < 10)%nat) by (vm_compute; lia).
  split; [exact Hlen|].
  exact (proj1 (@multi_endpoint_asks_alternate_below_ten empty_index_net
                  empty_index_json base_all_urls []) Hlen).
Defined.

(** ** Availability service *)

Lemma truthy_nonempty (s : string) : truthy s = true -> s ≠ "".
Proof. unfold truthy. intros Ht%negb_true_iff. by apply String.eqb_neq. Qed.

Lemma availability_row_shaped (ts original : cell) :
  cell_truthy ts = true -> cell_truthy original = true ->
  availability_shaped (availability_row ts original).
Proof.
  intros Hts Ho. unfold availability_shaped, availability_row, cell_field.
  by simplify_map_eq.
Qed.

Lemma availability_lookup_run `{Network} `{JsonLib} (host cutoff_ts : string)
    (log : list Request) :
  ∃ out,
    availability_lookup host cutoff_ts log
    = (out, (log ++ [availability_request host cutoff_ts])%list)
    ∧ match availability_rows (session_get (availability_request host cutoff_ts))
      with
      | Some rows => out = inr rows
      | None => ∃ e, out = inl e
      end.
Proof.
  unfold availability_lookup, bind, http_get, availability_rows.
  fold (availability_request host cutoff_ts).
  destruct (session_get (availability_request host cutoff_ts)) as [e|resp].
  { eexists. split; [reflexivity|]. by exists e. }
  destruct (Z.eqb_spec (status_code resp) 200) as [Hst|Hst].
  2:{ rewrite bool_decide_eq_false_2 by done. by eexists. }
  rewrite bool_decide_eq_true_2 by done.
  destruct (json_closest (content resp)) as [[snapshot|]|]; simpl.
  - destruct (snap_available snapshot) eqn:Ha;
      destruct (cell_truthy (snap_url snapshot)) eqn:Hu;
      destruct (cell_truthy (snap_timestamp snapshot)) eqn:Ht; simpl;
      by eexists.
  - by eexists.
  - eexists. split; [reflexivity|]. by exists OtherError.
Qed.

Lemma availability_rows_shaped `{JsonLib} (outcome : exn + Response)
    (rows : list crow) :
  availability_rows outcome = Some rows ->
  (List.length rows <= 1)%nat ∧ Forall availability_shaped rows.
Proof.
  unfold availability_rows. destruct outcome as [e|resp]; [done|].
  case_bool_decide; [|intros [= <-]; split; [simpl; lia|done]].
  destruct (json_closest (content resp)) as [[snapshot|]|]; simpl; [|by intros [= <-]; split; [simpl; lia|]|done].
  intros [= <-]. case_bool_decide as Hs; [|split; [simpl; lia|done]].
  destruct Hs as (_ & Hu & Ht). split; [simpl; lia|].
  apply Forall_singleton. by apply availability_row_shaped.
Qed.

(** X7. [check_availability_api] never raises.  It asks the availability
    service about the domain.  When that look-up fails, nothing more is
    asked and no row is returned.  Otherwise it asks about the [www.] form
    of the domain: when that look-up fails no row is returned, whatever
    the first one found, and otherwise the rows of the first look-up
    followed by those of the second.  A look-up yields at most one row,
    with a timestamp, an address, the status 200 and the type
    [text/html]. *)
Theorem availability_never_raises `{Network} `{JsonLib}
    (domain cutoff_ts : string) (log : list Request) :
  let first_request := availability_request domain cutoff_ts in
  let second_request := availability_request (with_www domain) cutoff_ts in
  check_availability_api domain cutoff_ts log
  = match availability_rows (session_get first_request) with
    | None => (inr [], (log ++ [first_request])%list)
    | Some first =>
        match availability_rows (session_get second_request) with
        | None => (inr [], (log ++ [first_request; second_request])%list)
        | Some second =>
            (inr (first ++ second)%list,
             (log ++ [first_request; second_request])%list)
        end
    end
  ∧ (∀ outcome rows,
       availability_rows outcome = Some rows ->
       (List.length rows <= 1)%nat ∧ Forall availability_shaped rows)
  ∧ (∀ e, availability_rows (inl e) = None)
  ∧ (∀ resp, status_code resp ≠ 200%Z -> availability_rows (inr resp) = Some []).
Proof.
  intros first_request second_request.
  split; [|split; [apply @availability_rows_shaped|split]].
  - unfold check_availability_api, try_except, bind.
    destruct (availability_lookup_run domain cutoff_ts log) as (o1 & -> & R1).
    fold first_request in R1.
    destruct (availability_rows (session_get first_request)) as [first|].
    2:{ by destruct R1 as [e ->]. }
    subst o1. cbv zeta. fold (with_www domain).
    destruct (availability_lookup_run (with_www domain) cutoff_ts
                (log ++ [availability_request domain cutoff_ts]))
      as (o2 & -> & R2).
    fold second_request in R2. rewrite <- app_assoc.
    destruct (availability_rows (session_get second_request)) as [second|].
    + by subst o2.
    + by destruct R2 as [e ->].
  - done.
  - intros resp Hst. unfold availability_rows.
    by rewrite bool_decide_eq_false_2.
Qed.

Lemma availability_run `{Network} `{JsonLib}
    (domain cutoff_ts : string) (log : list Request) :
  ∃ rows sent,
    check_availability_api domain cutoff_ts log = (inr rows, sent)
    ∧ Forall availability_shaped rows.
Proof.
  unfold check_availability_api, try_except, bind.
  destruct (availability_lookup_run domain cutoff_ts log) as (o1 & -> & R1).
  destruct (availability_rows _) as [first|] eqn:H1.
  2:{ destruct R1 as [e ->]. by eexists _, _. }
  subst o1. cbv zeta. fold (with_www domain).
  destruct (availability_lookup_run (with_www domain) cutoff_ts
              (log ++ [availability_request domain cutoff_ts]))
    as (o2 & -> & R2).
  destruct (availability_rows (session_get
              (availability_request (with_www domain) cutoff_ts)))
    as [second|] eqn:H2.
  2:{ destruct R2 as [e ->]. by eexists _, _. }
  subst o2. eexists _, _. split; [reflexivity|].
  apply availability_rows_shaped in H1 as [_ ?], H2 as [_ ?].
  by apply Forall_app.
Qed.

(** ** Enumeration of the captures *)

Lemma track_originals_run (results : list crow) (log : list Request) :
  track_originals results log
  = (if forallb trackable results then inr () else inl OtherError, log).
Proof. unfold track_originals. by destruct (forallb _ _). Qed.

Lemma query_variant_run `{Network} `{JsonLib} (subdomains : bool) (d : string)
    (log : list Request) :
  let wildcard := cdx_request (<["url" := d +:+ "*"]> base_all_urls) CDX in
  let scoped :=
    cdx_request (<["matchType" := if subdomains then "domain" else "host"]>
                   (<["url" := d +:+ "/*"]> base_all_urls)) CDX in
  query_variant subdomains d log
  = if forallb trackable (cdx_rows (session_get wildcard)) then
      (if forallb trackable (cdx_rows (session_get scoped))
       then inr (cdx_rows (session_get wildcard)
                 ++ cdx_rows (session_get scoped))%list
       else inl OtherError,
       (log ++ [wildcard; scoped])%list)
    else (inl OtherError, (log ++ [wildcard])%list).
Proof.
  intros wildcard scoped. unfold query_variant, bind. rewrite cdx_run.
  cbn beta iota. rewrite track_originals_run. fold wildcard.
  destruct (forallb trackable (cdx_rows (session_get wildcard))); [|done].
  rewrite cdx_run. cbn beta iota. rewrite track_originals_run. fold scoped.
  rewrite <- app_assoc.
  by destruct (forallb trackable (cdx_rows (session_get scoped))).
Qed.

Lemma forallb_Forall {A} (p : A -> bool) (l : list A) :
  forallb p l = true <-> Forall (fun x => p x = true) l.
Proof.
  induction l as [|x l IH]; simpl; [by split; [constructor|]|].
  rewrite andb_true_iff, Forall_cons, IH. done.
Qed.

Lemma query_all_run `{Network} `{JsonLib} (subdomains : bool) (ds : list string)
    (log : list Request) :
  ∃ out new,
    query_all subdomains ds log = (out, (log ++ new)%list)
    ∧ match out with
      | inr rows => Forall (fun r => trackable r = true) rows
      | inl e => e = OtherError
      end
    ∧ ((∀ rq, forallb trackable (cdx_rows (session_get rq)) = true) ->
       ∃ rows, out = inr rows).
Proof.
  revert log. induction ds as [|d ds IH]; intros log; simpl.
  { exists (inr []), []. unfold ret. rewrite app_nil_r.
    split; [done|]. split; [done|]. by eexists. }
  unfold bind. rewrite query_variant_run.
  destruct (forallb trackable (cdx_rows (session_get _))) eqn:Hw.
  2:{ eexists _, _. split; [reflexivity|]. split; [done|].
      intros Hall. by rewrite Hall in Hw. }
  destruct (forallb trackable (cdx_rows (session_get
              (cdx_request (<["matchType" := _]> _) CDX)))) eqn:Hs.
  2:{ eexists _, _. split; [reflexivity|]. split; [done|].
      intros Hall. by rewrite Hall in Hs. }
  match goal with
  | |- context [query_all subdomains ds ?l] =>
      destruct (IH l) as (out & new & -> & Hout & Htotal)
  end.
  destruct out as [e|rows].
  - eexists _, _. rewrite <- app_assoc. split; [reflexivity|]. split; [done|].
    intros Hall. by destruct (Htotal Hall).
  - eexists _, _. unfold ret. rewrite <- (app_assoc log).
    split; [reflexivity|]. split; [|by eexists].
    apply forallb_Forall in Hw, Hs. by rewrite !Forall_app.
Qed.

Lemma filter_by_date_dated (cutoff_ts : string) (l : list crow) :
  Forall dated l ->
  ∃ filtered,
    filter_by_date cutoff_ts l = Some filtered
    ∧ ∀ ts r, (ts, r) ∈ filtered
              <-> r ∈ l ∧ cell_field r "timestamp" = Str ts
                  ∧ String.le ts cutoff_ts.
Proof.
  induction 1 as [|r l [ts Hts] _ (filtered & IH & Hin)]; simpl.
  { exists []. split; [done|]. intros ts r. rewrite !elem_of_nil. tauto. }
  rewrite Hts, IH. simpl. eexists. split; [reflexivity|]. intros ts' r'.
  destruct (String.leb ts cutoff_ts) eqn:Hle.
  - rewrite !elem_of_cons, Hin. split.
    + intros [[= -> ->]|(? & ? & ?)]; [|by auto].
      split; [by left|]. split; [done|]. unfold String.le. by rewrite Hle.
    + intros ([->|?] & Hts' & Hle'); [|by auto].
      left. rewrite Hts in Hts'. by injection Hts' as ->.
  - rewrite elem_of_cons, Hin. split; [by intros (? & ? & ?); auto|].
    intros ([->|?] & Hts' & Hle'); [|by auto].
    rewrite Hts in Hts'. injection Hts' as ->.
    unfold String.le in Hle'. by rewrite Hle in Hle'.
Qed.

Lemma filter_by_date_undated (cutoff_ts : string) (l : list crow) :
  Exists (fun r => ¬ dated r) l -> filter_by_date cutoff_ts l = None.
Proof.
  induction 1 as [r l Hr|r l _ IH]; simpl.
  - destruct (cell_field r "timestamp") as [ts| |] eqn:Hts; [|done..].
    exfalso. apply Hr. by exists ts.
  - destruct (cell_field r "timestamp"); [|done..]. by rewrite IH.
Qed.

Lemma kdict_get_set {V} (k k' : pykey) (v : V) (d : list (pykey * V)) :
  kdict_get k' (kdict_set k v d)
  = if bool_decide (k = k') then Some v else kdict_get k' d.
Proof.
  induction d as [|[k0 v0] d IH]; simpl; [done|].
  destruct (decide (k0 = k)) as [->|Hne].
  - rewrite bool_decide_eq_true_2 by done. simpl. by case_bool_decide.
  - rewrite (bool_decide_eq_false_2 (k0 = k)) by done. simpl. rewrite IH.
    repeat case_bool_decide; congruence.
Qed.

Lemma kdict_get_None {V} (k : pykey) (d : list (pykey * V)) :
  kdict_get k d = None <-> k ∉ map fst d.
Proof.
  induction d as [|[k0 v0] d IH]; simpl.
  { split; [intros _; apply not_elem_of_nil|done]. }
  rewrite not_elem_of_cons. case_bool_decide as Hk.
  - subst k0. split; [done|]. by intros [? _].
  - rewrite IH. split; [|tauto]. intros ?. split; [congruence|done].
Qed.

Lemma kdict_get_elem {V} (k : pykey) (v : V) (d : list (pykey * V)) :
  kdict_get k d = Some v -> (k, v) ∈ d.
Proof.
  induction d as [|[k0 v0] d IH]; simpl; [done|].
  case_bool_decide as Hk.
  - subst k0. intros [= ->]. left.
  - intros Hd. right. by apply IH.
Qed.

Lemma kdict_elem_get {V} (k : pykey) (v : V) (d : list (pykey * V)) :
  NoDup (map fst d) -> (k, v) ∈ d -> kdict_get k d = Some v.
Proof.
  induction d as [|[k0 v0] d IH]; simpl; [by intros _ ?%elem_of_nil|].
  intros [Hk0 Hnd]%NoDup_cons [[= -> ->]|Hin]%elem_of_cons.
  - by rewrite bool_decide_eq_true_2.
  - case_bool_decide as Hk; [|by apply IH].
    subst k0. exfalso. apply Hk0. apply list_elem_of_fmap. by exists (k, v).
Qed.

Lemma kdict_set_keys {V} (k : pykey) (v : V) (d : list (pykey * V)) :
  NoDup (map fst d) -> NoDup (map fst (kdict_set k v d)).
Proof.
  induction d as [|[k0 v0] d IH]; simpl.
  - intros _. apply NoDup_singleton.
  - intros [Hk0 Hnd]%NoDup_cons.
    case_bool_decide as Hk; simpl.
    + subst k0. by apply NoDup_cons.
    + apply NoDup_cons. split; [|by apply IH].
      intros ([k1 v1] & Hk1 & Hin)%list_elem_of_fmap. simpl in Hk1. subst k1.
      apply Hk0. assert (Hg : kdict_get k0 (kdict_set k v d) = Some v1).
      { apply kdict_elem_get; [by apply IH|done]. }
      rewrite kdict_get_set in Hg. rewrite bool_decide_eq_false_2 in Hg by done.
      apply kdict_get_elem in Hg. apply list_elem_of_fmap. by exists (k0, v1).
Qed.

Lemma latest_inv_skip (seen : list (string * crow))
    (latest : list (pykey * (string * crow))) (x : string * crow) :
  latest_inv seen latest -> ¬ counted x -> latest_inv (x :: seen) latest.
Proof.
  intros [Hnd Hinv] Hnot. split; [done|]. intros k. specialize (Hinv k).
  destruct (kdict_get k latest) as [x0|].
  - destruct Hinv as (Hin & Hid & Hk & Hnew). split; [by right|].
    split; [done|]. split; [done|].
    intros x' [->|Hx']%elem_of_cons Hid' Hk'; [done|by apply Hnew].
  - intros x' [->|Hx']%elem_of_cons Hid'; [done|by apply Hinv].
Qed.

Lemma latest_inv_keep (seen : list (string * crow))
    (latest : list (pykey * (string * crow))) (x old : string * crow)
    (k : pykey) :
  latest_inv seen latest ->
  address_key x.2 = Some k ->
  kdict_get k latest = Some old ->
  String.le x.1 old.1 ->
  latest_inv (x :: seen) latest.
Proof.
  intros [Hnd Hinv] Hkey Hget Hle. split; [done|]. intros k'.
  pose proof (Hinv k') as Hk. destruct (kdict_get k' latest) as [x0|] eqn:Hk0.
  - destruct Hk as (Hin & Hid & Hkey0 & Hnew). split; [by right|].
    split; [done|]. split; [done|].
    intros x' [->|Hx']%elem_of_cons Hid' Hk'; [|by apply Hnew].
    assert (k' = k) as -> by congruence. congruence.
  - intros x' [->|Hx']%elem_of_cons Hid' Hk'; [|by eapply Hk].
    assert (k' = k) as -> by congruence. congruence.
Qed.

Lemma latest_inv_set (seen : list (string * crow))
    (latest : list (pykey * (string * crow))) (x : string * crow) (k : pykey) :
  latest_inv seen latest -> counted x -> address_key x.2 = Some k ->
  (∀ x', x' ∈ seen -> counted x' -> address_key x'.2 = Some k ->
     String.le x'.1 x.1) ->
  latest_inv (x :: seen) (kdict_set k x latest).
Proof.
  intros [Hnd Hinv] Hid Hkey Hnewest. split; [by apply kdict_set_keys|].
  intros k'. rewrite kdict_get_set. case_bool_decide as Hk.
  - subst k'. split; [by left|]. split; [done|]. split; [done|].
    intros x' [->|Hx']%elem_of_cons Hid' Hk'; [apply le_refl_str|by apply Hnewest].
  - specialize (Hinv k'). destruct (kdict_get k' latest) as [x0|].
    + destruct Hinv as (Hin & Hid0 & Hkey0 & Hnew). split; [by right|].
      split; [done|]. split; [done|].
      intros x' [->|Hx']%elem_of_cons Hid' Hk'; [congruence|by apply Hnew].
    + intros x' [->|Hx']%elem_of_cons Hid'; [congruence|by apply Hinv].
Qed.

Lemma counted_truthy (ts : string) (r : crow) :
  negb (cell_truthy (cell_field r "original")) || negb (truthy ts) = false
  <-> counted (ts, r).
Proof.
  unfold counted. simpl. rewrite orb_false_iff, !negb_false_iff. split.
  - intros [Ho Ht]. split; [done|by apply truthy_nonempty].
  - intros [Ho Ht]. split; [done|by apply truthy_true].
Qed.

Lemma latest_step_inv (seen : list (string * crow))
    (latest : list (pykey * (string * crow))) (x : string * crow) :
  latest_inv seen latest ->
  (cell_truthy (cell_field x.2 "original") = true -> is_Some (address_key x.2)) ->
  ∃ latest', latest_step latest x = Some latest'
             ∧ latest_inv (x :: seen) latest'.
Proof.
  intros Hinv Hhash. destruct x as [ts r]. unfold latest_step.
  destruct (negb (cell_truthy (cell_field r "original")) || negb (truthy ts))
    eqn:Hid.
  { exists latest. split; [done|]. apply latest_inv_skip; [done|].
    intros Hx%counted_truthy. congruence. }
  apply counted_truthy in Hid.
  destruct (Hhash (proj1 Hid)) as [k Hk]. simpl in Hk.
  unfold address_key in Hk. rewrite Hk. simpl.
  pose proof (proj2 Hinv k) as Hat.
  destruct (kdict_get k latest) as [[old_ts old]|] eqn:Hget.
  - destruct Hat as (Hin & Hido & Hkey & Hnew).
    destruct (String.ltb old_ts ts) eqn:Hlt.
    + eexists. split; [reflexivity|].
      apply latest_inv_set; [done..|]. intros x' Hx' Hid' Hk'.
      eapply le_trans_str; [by apply Hnew|by apply ltb_true_le].
    + eexists. split; [reflexivity|].
      eapply (latest_inv_keep _ _ (ts, r)); [done..|].
      by apply ltb_false_le.
  - eexists. split; [reflexivity|].
    apply latest_inv_set; [done..|]. intros x' Hx' Hid' Hk'.
    by destruct (Hat x' Hx' Hid').
Qed.

Lemma latest_loop_inv (l seen : list (string * crow))
    (latest : list (pykey * (string * crow))) :
  latest_inv seen latest ->
  Forall (fun x => cell_truthy (cell_field x.2 "original") = true
                   -> is_Some (address_key x.2)) l ->
  ∃ latest', latest_loop l latest = Some latest'
             ∧ latest_inv (rev l ++ seen) latest'.
Proof.
  revert seen latest. induction l as [|x l IH]; intros seen latest Hinv Hall.
  { by exists latest. }
  apply Forall_cons in Hall as [Hx Hall].
  destruct (latest_step_inv seen latest x Hinv Hx) as (latest1 & Hstep & Hinv1).
  destruct (IH (x :: seen) latest1 Hinv1 Hall) as (latest' & Hloop & Hinv').
  exists latest'. simpl. rewrite Hstep. simpl. rewrite Hloop.
  split; [done|]. by rewrite <- app_assoc.
Qed.

Lemma latest_inv_keys (seen : list (string * crow))
    (latest : list (pykey * (string * crow))) :
  latest_inv seen latest ->
  map (fun e => Some e.1) latest = map (fun e => address_key e.2.2) latest
  ∧ ∀ e, e ∈ latest -> latest_of seen e.1 e.2.
Proof.
  intros [Hnd Hinv].
  assert (Hent : ∀ e, e ∈ latest -> latest_of seen e.1 e.2).
  { intros [k x] Hin. specialize (Hinv k).
    by rewrite (kdict_elem_get k x latest Hnd Hin) in Hinv. }
  split; [|done].
  apply map_ext_in. intros e Hin%list_elem_of_In.
  by destruct (Hent e Hin) as (_ & _ & -> & _).
Qed.

Lemma trackable_hashed (r : crow) :
  trackable r = true ->
  cell_truthy (cell_field r "original") = true -> is_Some (address_key r).
Proof.
  unfold trackable, address_key, cell_get, cell_field.
  destruct (r !! (inl "original" : pykey)) as [c|]; simpl; [|done].
  intros Ht Hc. rewrite Hc in Ht. simpl in Ht.
  by apply bool_decide_eq_true in Ht.
Qed.

Lemma new_rows_spec {V} (latest : list (pykey * V)) (avail : list crow) :
  Forall (fun r => cell_truthy (cell_field r "original") = true) avail ->
  (Exists (fun r => address_key r = None) avail -> new_rows latest avail = None)
  ∧ (Forall (fun r => is_Some (address_key r)) avail ->
     new_rows latest avail
     = Some (filter (fun r => address_key r ∉ map (fun e => Some e.1) latest)
               avail)).
Proof.
  induction 1 as [|r avail Hr _ [IHnone IHsome]]; simpl.
  { split; [by intros ?%Exists_nil|done]. }
  rewrite Hr. simpl. split.
  - intros [Hnone|Hex]%Exists_cons.
    + unfold address_key in Hnone. by rewrite Hnone.
    + destruct (hash_key _); [|done]. simpl. by rewrite IHnone.
  - intros [[k Hk] Hall]%Forall_cons. rewrite (IHsome Hall).
    pose proof Hk as Hk'. unfold address_key in Hk'. rewrite Hk'. simpl.
    rewrite filter_cons, Hk.
    assert (Hmem : Some k ∈ map (fun e : pykey * V => Some e.1) latest
                   <-> k ∈ map fst latest).
    { rewrite <- (map_map fst Some). split.
      - by intros (k' & [= ->] & ?)%list_elem_of_fmap.
      - intros ?. apply list_elem_of_fmap. by exists k. }
    destruct (kdict_get k latest) as [v|] eqn:Hget.
    + rewrite decide_False; [done|]. intros Hnot. apply Hnot, Hmem.
      apply kdict_get_elem in Hget. apply list_elem_of_fmap. by exists (k, v).
    + rewrite decide_True; [done|]. rewrite Hmem. by apply kdict_get_None.
Qed.

(** X8. [cdx_query_variants] asks the index about the spellings of the
    domain, and what leaves those queries leaves it.  A row whose
    timestamp is not a string then makes it raise [TypeError], when the
    timestamps are compared with the cutoff.  Otherwise it keeps, for
    every address, one row: the newest one that has an address and a
    timestamp not after the cutoff.  With five addresses or more these
    rows are the result.  With fewer, the availability service is asked:
    its rows whose address is not among those found are added after them,
    and an address that cannot be hashed makes the call raise.  The
    queries of the index return when every address they yield is falsy
    or can be hashed. *)
Theorem enumeration_keeps_latest_per_address `{Network} `{JsonLib}
    (domain cutoff_ts : string) (subdomains : bool) (log : list Request) :
  let asked := query_all subdomains (elements (domain_variants domain)) log in
  let result := cdx_query_variants domain cutoff_ts subdomains log in
  let fallback := check_availability_api domain cutoff_ts asked.2 in
  match asked.1 with
  | inl e => result = (inl e, asked.2)
  | inr all_urls =>
      (Exists (fun r => ¬ dated r) all_urls ->
       result = (inl OtherError, asked.2))
      ∧ (Forall dated all_urls ->
         ∃ index_rows,
           NoDup (map address_key index_rows)
           ∧ (∀ r, r ∈ index_rows ->
                r ∈ all_urls ∧ identified r ∧ is_Some (address_key r)
                ∧ String.le (timestamp_of r) cutoff_ts
                ∧ ∀ r', r' ∈ all_urls -> identified r' ->
                    String.le (timestamp_of r') cutoff_ts ->
                    address_key r' = address_key r ->
                    String.le (timestamp_of r') (timestamp_of r))
           ∧ (∀ r', r' ∈ all_urls -> identified r' ->
                String.le (timestamp_of r') cutoff_ts ->
                address_key r' ∈ map address_key index_rows)
           ∧ ((5 <= List.length index_rows)%nat ->
              result = (inr index_rows, asked.2))
           ∧ ((List.length index_rows < 5)%nat ->
              ∃ avail_results,
                fallback.1 = inr avail_results
                ∧ (Exists (fun r => address_key r = None) avail_results ->
                   result = (inl OtherError, fallback.2))
                ∧ (Forall (fun r => is_Some (address_key r)) avail_results ->
                   result
                   = (inr (index_rows
                           ++ filter (fun r => address_key r
                                               ∉ map address_key index_rows)
                                avail_results)%list,
                      fallback.2))))
  end
  ∧ ((∀ rq, forallb trackable (cdx_rows (session_get rq)) = true) ->
     ∃ all_urls, asked.1 = inr all_urls).
Proof.
  intros asked result fallback. subst asked result fallback.
  unfold cdx_query_variants, bind.
  destruct (query_all_run subdomains (elements (domain_variants domain)) log)
    as (out & new & -> & Hout & Htotal).
  cbn [fst snd]. split; [|exact Htotal]. clear Htotal.
  destruct out as [e|all_urls]; [done|]. split.
  { intros Hex. by rewrite (filter_by_date_undated _ _ Hex). }
  intros Hdated.
  destruct (filter_by_date_dated cutoff_ts all_urls Hdated)
    as (filtered & -> & Hfiltered).
  assert (Hhash : Forall (fun x : string * crow =>
            cell_truthy (cell_field x.2 "original") = true
            -> is_Some (address_key x.2)) filtered).
  { apply Forall_forall. intros [ts r] Hin%Hfiltered. simpl.
    destruct Hin as (Hin & _). eapply Forall_forall in Hout; [|exact Hin].
    by apply trackable_hashed. }
  destruct (latest_loop_inv filtered [] [])
    as (latest & -> & Hinv); [|done|].
  { split; [apply NoDup_nil_2|]. intros k. simpl. by intros x' ?%elem_of_nil. }
  rewrite app_nil_r in Hinv.
  assert (Hseen : ∀ ts r, (ts, r) ∈ rev filtered
            <-> r ∈ all_urls ∧ cell_field r "timestamp" = Str ts
                ∧ String.le ts cutoff_ts).
  { intros ts r. by rewrite elem_of_rev. }
  destruct (latest_inv_keys _ _ Hinv) as [Hkeys Hrows].
  cbv zeta. set (index_rows := map (fun e : pykey * (string * crow) => e.2.2) latest).
  assert (Hkeys' : map address_key index_rows = map (fun e => Some e.1) latest).
  { subst index_rows. by rewrite map_map, Hkeys. }
  assert (Hts : ∀ ts r, cell_field r "timestamp" = Str ts -> timestamp_of r = ts).
  { intros ts r Hr. unfold timestamp_of. by rewrite Hr. }
  assert (Hcounted : ∀ r, r ∈ all_urls -> identified r ->
            String.le (timestamp_of r) cutoff_ts ->
            (timestamp_of r, r) ∈ rev filtered ∧ counted (timestamp_of r, r)).
  { intros r Hr [Ho Ht] Hle. split; [|by split].
    apply Hseen. split; [done|]. split; [|done].
    eapply Forall_forall in Hdated as [ts Hr']; [|exact Hr].
    by rewrite (Hts _ _ Hr'). }
  exists index_rows. split; [|split; [|split; [|split]]].
  - rewrite Hkeys', <- (map_map fst Some). apply NoDup_fmap; [apply _|].
    apply Hinv.
  - intros r ([k [ts r0]] & -> & Hin)%list_elem_of_fmap. simpl.
    destruct (Hrows _ Hin) as (Hseen0 & [Ho Ht] & Hk & Hnew). simpl in *.
    apply Hseen in Hseen0 as (Hr & Hr' & Hle).
    assert (Hid0 : identified r0) by (split; [done|by rewrite (Hts _ _ Hr')]).
    rewrite (Hts _ _ Hr'). split; [done|]. split; [done|].
    split; [by rewrite Hk|]. split; [done|].
    intros r' Hin' Hid' Hle' Hsame.
    destruct (Hcounted r' Hin' Hid' Hle') as [Hs Hc].
    apply (Hnew _ Hs Hc). simpl. by rewrite Hsame.
  - intros r' Hin' Hid' Hle'. rewrite Hkeys'.
    destruct (Hcounted r' Hin' Hid' Hle') as [Hs Hc].
    eapply Forall_forall in Hout; [|exact Hin'].
    destruct (trackable_hashed r' Hout (proj1 Hid')) as [k Hk]. rewrite Hk.
    pose proof (proj2 Hinv k) as Hat.
    destruct (kdict_get k latest) as [x0|] eqn:Hget.
    + apply kdict_get_elem in Hget. apply list_elem_of_fmap. by exists (k, x0).
    + exfalso. by eapply (Hat _ Hs Hc).
  - intros Hlen. apply Nat.ltb_ge in Hlen. by rewrite Hlen.
  - intros Hlen. apply Nat.ltb_lt in Hlen. rewrite Hlen.
    pose proof (availability_run domain cutoff_ts (log ++ new))
      as (avail & sent & Hrun & Hshaped).
    rewrite Hrun. cbn [fst snd]. exists avail. split; [done|].
    destruct (new_rows_spec latest avail) as [Hnone Hsome].
    { eapply Forall_impl; [exact Hshaped|]. by intros r (_ & _ & _ & ?). }
    split.
    + intros Hex. by rewrite (Hnone Hex).
    + intros Hall. rewrite (Hsome Hall), Hkeys'. done.
Qed.

(** ** Order and stability of the candidates *)

Lemma dict_get_fresh {V} (k : string) (d : list (string * V)) :
  k ∉ map fst d -> dict_get k d = None.
Proof.
  intros Hk. destruct (dict_get k d) as [v|] eqn:Hget; [|done].
  exfalso. apply Hk. apply dict_get_elem in Hget.
  apply list_elem_of_fmap. by exists (k, v).
Qed.

Lemma dict_set_fresh {V} (k : string) (v : V) (d : list (string * V)) :
  k ∉ map fst d -> dict_set k v d = (d ++ [(k, v)])%list.
Proof.
  induction d as [|[k0 v0] d IH]; simpl; [done|].
  intros [Hne Hk]%not_elem_of_cons.
  destruct (String.eqb_spec k0 k) as [->|_]; [done|]. by rewrite IH.
Qed.

Lemma dict_set_fst {V} (k : string) (v : V) (d : list (string * V)) :
  map fst (dict_set k v d) = add_key (map fst d) k.
Proof.
  unfold add_key. induction d as [|[k0 v0] d IH].
  { case_bool_decide as Hin; [by apply elem_of_nil in Hin|done]. }
  cbn [dict_set]. destruct (String.eqb_spec k0 k) as [->|Hne].
  - clear IH. cbn [map fst].
    case_bool_decide as Hin; [done|]. exfalso. apply Hin. left.
  - cbn [map fst]. rewrite IH. clear IH.
    case_bool_decide as Hin; case_bool_decide as Hin'; [done| | |done].
    + exfalso. apply Hin'. by right.
    + apply elem_of_cons in Hin' as [->|Hin']; done.
Qed.

Lemma add_key_present (acc : list string) (k : string) :
  k ∈ acc -> add_key acc k = acc.
Proof. intros Hin. unfold add_key. by rewrite bool_decide_eq_true_2. Qed.

Section BuilderOrder.
Context `{UrlLib}.
Variables (cutoff_ts : string) (path_prefix : option string).
Variables (include_nonhtml ignore_query_params : bool).

Local Abbreviation classify_now :=
  (classify cutoff_ts path_prefix include_nonhtml ignore_query_params).
Local Abbreviation key_now :=
  (key_of cutoff_ts path_prefix include_nonhtml ignore_query_params).
Local Abbreviation step_now :=
  (builder_step cutoff_ts path_prefix include_nonhtml ignore_query_params).
Local Abbreviation loop_now :=
  (builder_loop cutoff_ts path_prefix include_nonhtml ignore_query_params).

Lemma builder_step_keys (latest latest' : list (string * row)) (r : row) :
  step_now latest r = Some latest' ->
  map fst latest'
  = match key_now r with
    | Some k => add_key (map fst latest) k
    | None => map fst latest
    end.
Proof.
  unfold builder_step, key_of.
  destruct (classify_now r) as [[|k]|]; simpl; [by intros [= <-]| |done].
  destruct (dict_get k latest) as [old|] eqn:Hold.
  - assert (Hin : k ∈ map fst latest).
    { apply dict_get_elem in Hold. apply list_elem_of_fmap. by exists (k, old). }
    destruct (String.ltb _ _); intros [= <-].
    + apply dict_set_fst.
    + by rewrite add_key_present.
  - intros [= <-]. apply dict_set_fst.
Qed.

Lemma builder_loop_keys (records : list row) (latest latest' : list (string * row)) :
  loop_now latest records = Some latest' ->
  map fst latest' = fold_left add_key (omap key_now records) (map fst latest).
Proof.
  revert latest. induction records as [|r rs IH]; intros latest; simpl.
  { by intros [= <-]. }
  destruct (step_now latest r) as [latest1|] eqn:Hstep; simpl; [|done].
  intros Hloop. rewrite (IH _ Hloop), (builder_step_keys _ _ _ Hstep).
  by destruct (key_now r).
Qed.

Lemma builder_loop_replay (d acc : list (string * row)) :
  NoDup (map fst (acc ++ d)) ->
  (∀ k r, (k, r) ∈ d -> classify_now r = Some (Keep k)) ->
  loop_now acc (map snd d) = Some (acc ++ d)%list.
Proof.
  revert acc. induction d as [|[k r] d IH]; intros acc Hnd Hcl; simpl.
  { by rewrite app_nil_r. }
  unfold builder_step. rewrite (Hcl k r) by left. simpl.
  assert (Hfresh : k ∉ map fst acc).
  { rewrite map_app in Hnd. apply NoDup_app in Hnd as (_ & Hdis & _).
    intros Hin. apply (Hdis k Hin). simpl. left. }
  rewrite (dict_get_fresh k acc Hfresh). simpl.
  rewrite (dict_set_fresh k r acc Hfresh).
  rewrite IH.
  - by rewrite <- app_assoc.
  - by rewrite <- app_assoc.
  - intros k' r' Hin. apply Hcl. by right.
Qed.

(** X9. The candidates stand in the order in which their keys first
    come up among the records that pass the filters: a newer capture
    takes the place of the older one of its address, it does not move
    to the end. *)
Theorem candidates_in_order_of_first_appearance (records out : list row) :
  latest_per_original records cutoff_ts path_prefix include_nonhtml
    ignore_query_params = Some out ->
  map (record_key ignore_query_params) out
  = first_occurrences (omap key_now records).
Proof.
  intros Hout.
  destruct (latest_per_original_inv _ _ _ _ _ _ Hout) as (latest & -> & Hinv).
  unfold latest_per_original in Hout.
  destruct (loop_now [] records) as [latest0|] eqn:Hloop; simpl in Hout; [|done].
  pose proof (builder_loop_keys _ _ _ Hloop) as Hkeys.
  change (map fst []) with (@nil string) in Hkeys.
  unfold first_occurrences. rewrite <- Hkeys.
  assert (Hsame : map snd latest0 = map snd latest) by congruence.
  pose proof (builder_loop_inv _ _ _ _ records [] [] latest0
                (builder_inv_start _ _ _ _) Hloop) as Hinv0.
  rewrite <- Hsame, map_map. symmetry. apply map_ext_in.
  intros [k r] Hin%list_elem_of_In. simpl.
  by destruct (latest_entry _ _ _ _ _ _ _ _ Hinv0 Hin) as [-> _].
Qed.

(** X10. The builder returns its own output unchanged: the candidates
    made of a list of candidates are that list. *)
Theorem candidates_are_stable (records out : list row) :
  latest_per_original records cutoff_ts path_prefix include_nonhtml
    ignore_query_params = Some out ->
  latest_per_original out cutoff_ts path_prefix include_nonhtml
    ignore_query_params = Some out.
Proof.
  intros Hout.
  destruct (latest_per_original_inv _ _ _ _ _ _ Hout) as (latest & -> & Hinv).
  unfold latest_per_original. rewrite (builder_loop_replay latest []); [done| |].
  - apply Hinv.
  - intros k r Hin.
    destruct (latest_entry _ _ _ _ _ _ _ _ Hinv Hin) as [_ (_ & Hc & _)].
    exact Hc.
Qed.

End BuilderOrder.

Lemma candidates_in_order_of_first_appearance_witness :
  @latest_per_original CPython.urllib [page_capture; image_capture; short_capture]
    "20200101235959" None true false
  = Some [image_capture; short_capture]
  ∧ map (@record_key CPython.urllib false) [image_capture; short_capture]
    = first_occurrences
        (omap (@key_of CPython.urllib "20200101235959" None true false)
           [page_capture; image_capture; short_capture]).
Proof.
  assert (Hrun : @latest_per_original CPython.urllib
                   [page_capture; image_capture; short_capture]
                   "20200101235959" None true false
                 = Some [image_capture; short_capture]) by by_evaluation.
  split; [exact Hrun|].
  exact (@candidates_in_order_of_first_appearance CPython.urllib
           "20200101235959" None true false _ _ Hrun).
Defined.

Lemma candidates_are_stable_witness :
  @latest_per_original CPython.urllib [page_capture; image_capture]
    "20200101235959" None false false = Some [page_capture]
  ∧ @latest_per_original CPython.urllib [page_capture]
      "20200101235959" None false false = Some [page_capture].
Proof.
  assert (Hrun : @latest_per_original CPython.urllib [page_capture; image_capture]
                   "20200101235959" None false false = Some [page_capture])
    by by_evaluation.
  split; [exact Hrun|].
  exact (@candidates_are_stable CPython.urllib "20200101235959" None false false
           _ _ Hrun).
Defined.

(** ** Requests of the resolver *)

Lemma resolve_loop_cons `{Network} (include_nonhtml : bool) (ts : string) (r : row)
    (l : list (string * row)) (log : list Request) :
  keyed (ts, r) ->
  resolve_loop include_nonhtml ((ts, r) :: l) log
  = if pass include_nonhtml (ts, r)
    then (inr (Some (r, content (capture_response r))),
          (log ++ [row_request r])%list)
    else resolve_loop include_nonhtml l (log ++ [row_request r])%list.
Proof.
  intros [Hts [o Ho]]. simpl in Hts, Ho. simpl resolve_loop. rewrite Ho.
  unfold bind. rewrite guarded_fetch_id, fetch_id_run.
  assert (Hresp : absorb (session_get (id_request ts o)) = capture_response r).
  { unfold capture_response, field. by rewrite Hts, Ho. }
  assert (Hreq : id_request ts o = row_request r).
  { unfold row_request, field. by rewrite Hts, Ho. }
  rewrite Hresp, Hreq. unfold pass, acceptable. simpl.
  destruct (status_code (capture_response r) =? 200)%Z; simpl; [|done].
  destruct (origin_ok (capture_response r)); simpl; [|done].
  destruct include_nonhtml; simpl; [done|].
  by destruct (looks_html (capture_response r)).
Qed.

Lemma resolve_loop_trace `{Network} (include_nonhtml : bool)
    (l : list (string * row)) (log : list Request) :
  Forall keyed l ->
  (∃ rejected x rest,
     l = (rejected ++ x :: rest)%list
     ∧ Forall (fun y => pass include_nonhtml y = false) rejected
     ∧ pass include_nonhtml x = true
     ∧ resolve_loop include_nonhtml l log
       = (inr (Some (x.2, content (capture_response x.2))),
          (log ++ map (fun y => row_request y.2) (rejected ++ [x]))%list))
  ∨ (Forall (fun y => pass include_nonhtml y = false) l
     ∧ resolve_loop include_nonhtml l log
       = (inr None, (log ++ map (fun y => row_request y.2) l)%list)).
Proof.
  intros Hl. revert log. induction Hl as [|[ts r] l Hk Hl IH]; intros log.
  { right. split; [done|]. simpl. unfold ret. by rewrite app_nil_r. }
  rewrite (resolve_loop_cons _ _ _ _ _ Hk).
  destruct (pass include_nonhtml (ts, r)) eqn:Hp.
  { left. exists [], (ts, r), l. by repeat split. }
  destruct (IH (log ++ [row_request r])%list)
    as [(rejected & x & rest & -> & Hrej & Hx & ->)|[Hnone ->]].
  - left. exists ((ts, r) :: rejected), x, rest. split; [done|].
    split; [by constructor|]. split; [done|]. simpl. by rewrite <- app_assoc.
  - right. split; [by constructor|]. simpl. by rewrite <- app_assoc.
Qed.

Lemma sort_keys_missing (records : list row) (r : row) :
  r ∈ records -> r !! "timestamp" = None -> sort_keys records = None.
Proof.
  intros Hin Hts. unfold sort_keys. apply mapM_None.
  apply Exists_exists. exists r. split; [done|]. by rewrite Hts.
Qed.

(** X11. A record without timestamp anywhere in the list makes
    [pick_best_snapshot] raise [KeyError] before it sends any request:
    the sort reads the timestamp of every record first. *)
Theorem resolver_raises_before_asking `{Network} (records : list row)
    (include_nonhtml : bool) (log : list Request) (r : row) :
  r ∈ records -> r !! "timestamp" = None ->
  pick_best_snapshot records include_nonhtml log = (inl KeyError, log).
Proof.
  intros Hin Hts. unfold pick_best_snapshot.
  by rewrite (sort_keys_missing _ _ Hin Hts).
Qed.

Lemma resolver_raises_before_asking_witness :
  undated_capture ∈ [tls_capture; undated_capture]
  ∧ undated_capture !! "timestamp" = None
  ∧ @pick_best_snapshot tls_failure_net [tls_capture; undated_capture] false []
    = (inl KeyError, []).
Proof.
  assert (Hin : undated_capture ∈ [tls_capture; undated_capture])
    by (right; left).
  split; [exact Hin|]. split; [reflexivity|].
  exact (@resolver_raises_before_asking tls_failure_net
           [tls_capture; undated_capture] false [] undated_capture Hin eq_refl).
Defined.

Lemma sorted_rows (l : list (string * row)) :
  (∀ x, x ∈ l -> x.1 = field x.2 "timestamp") ->
  StronglySorted newer_first l ->
  StronglySorted newer_capture_first (map snd l).
Proof.
  intros Hfst Hs. induction Hs as [|x l Hs IH Hx]; simpl; constructor.
  - apply IH. intros y Hy. apply Hfst. by right.
  - apply Forall_forall. intros b (y & -> & Hy)%list_elem_of_fmap.
    unfold newer_capture_first.
    rewrite <- (Hfst x) by left. rewrite <- (Hfst y) by (by right).
    by eapply Forall_forall in Hx.
Qed.

(** X12. On records that have their timestamp and their address the
    resolver sends one identity-mode request for each capture it tries and
    no other request.  It tries the captures from the newest on, stops at
    the first usable one, which it returns, and so never asks for a
    capture older than the one it returns; when none is usable it has
    asked once for every record. *)
Theorem resolver_tries_newest_first `{Network} (records : list row)
    (include_nonhtml : bool) (log : list Request) :
  Forall well_formed records ->
  ∃ tried untried,
    (tried ++ untried)%list ≡ₚ records
    ∧ StronglySorted newer_capture_first (tried ++ untried)%list
    ∧ (pick_best_snapshot records include_nonhtml log).2
      = (log ++ map row_request tried)%list
    ∧ match (pick_best_snapshot records include_nonhtml log).1 with
      | inr (Some (r, body)) =>
          ∃ rejected, tried = (rejected ++ [r])%list
                      ∧ Forall (fun x => ¬ usable include_nonhtml x) rejected
                      ∧ usable include_nonhtml r
                      ∧ body = content (capture_response r)
      | inr None =>
          untried = [] ∧ Forall (fun x => ¬ usable include_nonhtml x) tried
      | inl _ => False
      end.
Proof.
  intros Hwf. unfold pick_best_snapshot. rewrite (sort_keys_ok _ Hwf).
  set (keyed_records := map (fun r => (field r "timestamp", r)) records).
  assert (Hperm : sort_desc keyed_records ≡ₚ keyed_records) by apply sort_desc_perm.
  assert (Hkeyed : Forall keyed (sort_desc keyed_records)).
  { rewrite Hperm. by apply keyed_of_well_formed. }
  assert (Hfst : ∀ x, x ∈ sort_desc keyed_records -> x.1 = field x.2 "timestamp").
  { intros x Hx. rewrite Hperm in Hx.
    by apply list_elem_of_fmap in Hx as (r0 & -> & _). }
  assert (Hrows : map snd (sort_desc keyed_records) ≡ₚ records).
  { rewrite Hperm. subst keyed_records. rewrite map_map. simpl.
    by rewrite map_id. }
  assert (Hsorted : StronglySorted newer_capture_first
                      (map snd (sort_desc keyed_records))).
  { apply sorted_rows; [done|apply sort_desc_sorted]. }
  assert (Hnot : ∀ l, Forall (fun y => pass include_nonhtml y = false) l ->
                      Forall (fun x => ¬ usable include_nonhtml x) (map snd l)).
  { intros l Hl. apply Forall_fmap. eapply Forall_impl; [exact Hl|].
    intros y Hy Hu%acceptable_usable. unfold pass in Hy. congruence. }
  destruct (resolve_loop_trace include_nonhtml _ log Hkeyed)
    as [(rejected & x & rest & Hsplit & Hrej & Hx & ->)|[Hnone ->]].
  - exists (map snd (rejected ++ [x])), (map snd rest).
    rewrite <- map_app, <- app_assoc. simpl app. rewrite <- Hsplit.
    split; [done|]. split; [done|]. simpl. split; [by rewrite map_map|].
    exists (map snd rejected). rewrite map_app. split; [done|].
    split; [by apply Hnot|]. split; [by apply acceptable_usable|done].
  - exists (map snd (sort_desc keyed_records)), []. rewrite app_nil_r.
    split; [done|]. split; [done|]. simpl. split; [by rewrite map_map|].
    split; [done|by apply Hnot].
Qed.

Lemma resolver_tries_newest_first_witness :
  Forall well_formed [page_capture; image_capture]
  ∧ ∃ tried untried,
      (tried ++ untried)%list ≡ₚ [page_capture; image_capture]
      ∧ StronglySorted newer_capture_first (tried ++ untried)%list
      ∧ (@pick_best_snapshot empty_index_net [page_capture; image_capture]
           true []).2
        = ([] ++ map row_request tried)%list
      ∧ match (@pick_best_snapshot empty_index_net [page_capture; image_capture]
                 true []).1 with
        | inr (Some (r, body)) =>
            ∃ rejected, tried = (rejected ++ [r])%list
                        ∧ Forall (fun x => ¬ @usable empty_index_net true x) rejected
                        ∧ @usable empty_index_net true r
                        ∧ body = content (@capture_response empty_index_net r)
        | inr None =>
            untried = [] ∧ Forall (fun x => ¬ @usable empty_index_net true x) tried
        | inl _ => False
        end.
Proof.
  assert (Hwf : Forall well_formed [page_capture; image_capture]).
  { repeat constructor; eexists; vm_compute; reflexivity. }
  split; [exact Hwf|].
  exact (@resolver_tries_newest_first empty_index_net
           [page_capture; image_capture] true [] Hwf).
Defined.

(** ** Resolution of a candidate *)

Lemma resolve_loop_extends `{Network} (include_nonhtml : bool)
    (l : list (string * row)) (log : list Request) :
  ∃ more, (resolve_loop include_nonhtml l log).2 = (log ++ more)%list.
Proof.
  revert log. induction l as [|[ts r] l IH]; intros log; simpl.
  { exists []. by rewrite app_nil_r. }
  destruct (r !! "original") as [o|]; [|exists []; by rewrite app_nil_r].
  unfold bind. rewrite guarded_fetch_id, fetch_id_run.
  repeat match goal with
         | |- context [if ?b then _ else _] => destruct b
         end;
    first [ destruct (IH (log ++ [id_request ts o])%list) as [more ->];
            exists (id_request ts o :: more); by rewrite <- app_assoc
          | by exists [id_request ts o] ].
Qed.

Lemma pick_extends `{Network} (records : list row) (include_nonhtml : bool)
    (log : list Request) :
  ∃ more, (pick_best_snapshot records include_nonhtml log).2 = (log ++ more)%list.
Proof.
  unfold pick_best_snapshot. destruct (sort_keys records) as [keyed_records|].
  - apply resolve_loop_extends.
  - exists []. by rewrite app_nil_r.
Qed.

Lemma pick_from_history_extends `{Network} `{JsonLib} (history : list crow)
    (include_nonhtml : bool) (log : list Request) :
  ∃ more, (pick_from_history history include_nonhtml log).2 = (log ++ more)%list.
Proof.
  unfold pick_from_history. destruct (forallb readable history).
  - apply pick_extends.
  - destruct (untyped_pick history include_nonhtml log) as [outcome sent].
    by exists sent.
Qed.

Lemma pick_single `{Network} (r : row) (include_nonhtml : bool)
    (log : list Request) :
  well_formed r ->
  pick_best_snapshot [r] include_nonhtml log
  = (inr (if acceptable include_nonhtml (capture_response r)
          then Some (r, content (capture_response r)) else None),
     (log ++ [row_request r])%list).
Proof.
  intros Hwf. assert (Hall : Forall well_formed [r]) by by constructor.
  unfold pick_best_snapshot. rewrite (sort_keys_ok _ Hall).
  unfold sort_desc. cbn [map foldr insert_desc].
  assert (Hk : keyed (field r "timestamp", r)).
  { apply (keyed_of_well_formed [r]) in Hall. exact (Forall_inv Hall). }
  rewrite (resolve_loop_cons _ _ _ _ _ Hk).
  unfold pass. simpl. by destruct (acceptable _ _).
Qed.

(** X13. The loop of [main] resolves a candidate that has its timestamp
    and its address as follows.  When the capture of the candidate is
    usable and its body is not empty, it is taken after one request, and
    the history of the address is not asked for.  Otherwise, also when
    the capture is usable with an empty body, the second request asks the
    capture index for the history of the address up to the cutoff.  A
    capture that is taken never has an empty body. *)
Theorem candidate_resolution `{Network} `{JsonLib} (url_info : row)
    (cutoff_ts : string) (include_nonhtml : bool) (log : list Request) :
  well_formed url_info ->
  (usable include_nonhtml url_info ->
   content (capture_response url_info) ≠ "" ->
   resolve_candidate url_info cutoff_ts include_nonhtml log
   = (inr (Some (url_info, content (capture_response url_info))),
      (log ++ [row_request url_info])%list))
  ∧ (¬ usable include_nonhtml url_info
     ∨ content (capture_response url_info) = "" ->
     ∃ out more,
       resolve_candidate url_info cutoff_ts include_nonhtml log
       = (out,
          (log ++ [row_request url_info;
                   history_request (field url_info "original") cutoff_ts]
               ++ more)%list))
  ∧ (∀ r body,
       (resolve_candidate url_info cutoff_ts include_nonhtml log).1
       = inr (Some (r, body)) -> body ≠ "" ∧ r ≠ ∅).
Proof.
  intros Hwf. pose proof Hwf as [_ [o Ho]].
  assert (Hfield : field url_info "original" = o) by (unfold field; by rewrite Ho).
  assert (Hfound : ∀ r body, found (Some (r, body)) = true -> body ≠ "" ∧ r ≠ ∅).
  { intros r body [Hr Hb]%andb_true_iff. split; [by apply truthy_nonempty|].
    apply negb_true_iff in Hr. by apply bool_decide_eq_false in Hr. }
  set (first := if acceptable include_nonhtml (capture_response url_info)
                then Some (url_info, content (capture_response url_info))
                else None).
  assert (Hrun :
    resolve_candidate url_info cutoff_ts include_nonhtml log
    = if found first then (inr first, (log ++ [row_request url_info])%list)
      else bind (cdx_history_for_url o cutoff_ts)
             (fun history =>
                bind (pick_from_history history include_nonhtml)
                  (fun second => if found second then ret second else ret None))
             (log ++ [row_request url_info])%list).
  { unfold resolve_candidate. rewrite Ho. unfold bind at 1.
    rewrite (pick_single _ _ _ Hwf). fold first. by destruct (found first). }
  rewrite Hrun. clear Hrun.
  split; [|split].
  - intros Hu%acceptable_usable Hbody. subst first. rewrite Hu.
    assert (Hf : found (Some (url_info, content (capture_response url_info))) = true).
    { unfold found. rewrite (truthy_true _ Hbody), andb_true_r.
      apply negb_true_iff, bool_decide_eq_false. intros Hempty.
      rewrite Hempty in Ho. by rewrite lookup_empty in Ho. }
    by rewrite Hf.
  - intros Hcase.
    assert (Hf : found first = false).
    { subst first. destruct (acceptable _ _) eqn:Hacc; [|done].
      destruct Hcase as [Hnot|Hempty].
      - exfalso. by apply Hnot, acceptable_usable.
      - unfold found. rewrite Hempty. by rewrite andb_false_r. }
    rewrite Hf. unfold bind, cdx_history_for_url. rewrite cdx_run.
    fold (history_request o cutoff_ts). rewrite Hfield.
    match goal with
    | |- context [pick_from_history ?rows include_nonhtml ?l] =>
        destruct (pick_from_history_extends rows include_nonhtml l)
          as [more Hmore];
        destruct (pick_from_history rows include_nonhtml l) as [out2 log2]
    end.
    simpl in Hmore. subst log2. rewrite <- !app_assoc. simpl app.
    destruct out2 as [e|second]; [by eexists _, _|].
    destruct (found second); by eexists _, _.
  - intros r body. destruct (found first) eqn:Hf.
    + simpl. intros [= Hr]. rewrite Hr in Hf. by apply Hfound.
    + unfold bind, cdx_history_for_url. rewrite cdx_run.
      match goal with
      | |- context [pick_from_history ?rows include_nonhtml ?l] =>
          destruct (pick_from_history rows include_nonhtml l) as [out2 log2]
      end.
      destruct out2 as [e|second]; [done|].
      destruct (found second) eqn:Hf2; unfold ret; simpl; [|done].
      intros [= ->]. by apply Hfound.
Qed.

Lemma candidate_resolution_witness :
  well_formed tls_capture
  ∧ (∃ out more,
       @resolve_candidate tls_failure_net empty_index_json tls_capture
         "20200101235959" false []
       = (out,
          ([] ++ [row_request tls_capture;
                  history_request (field tls_capture "original") "20200101235959"]
              ++ more)%list)).
Proof.
  assert (Hwf : well_formed tls_capture).
  { split; eexists; vm_compute; reflexivity. }
  split; [exact Hwf|].
  apply (proj1 (proj2 (@candidate_resolution tls_failure_net empty_index_json
                         tls_capture "20200101235959" false [] Hwf))).
  left. intros (Hstatus & _). vm_compute in Hstatus. discriminate Hstatus.
Defined.

(** ** Download of an asset *)

(** X14. [download_asset] first makes the directory of the file, and
    raises what that raises before anything is asked for.  Then it asks
    for the asset in identity mode and, exactly when that does not give
    status 200 (also when the request raised), once more in the fallback
    mode.  No failure of a request makes it raise.  When the last response
    has status 200 its body is written to the file: the call raises what
    the writing or the reading of the body raises, and returns the success
    flag otherwise.  With another status nothing is written and the flag
    is off.  The path of the file begins with the output directory. *)
Theorem download_asset_falls_back `{UrlLib} `{Network} `{Storage}
    (ts asset_url outdir local : string) (log : list Request) :
  asset_local asset_url = Some local ->
  let out_path := PosixPath.join outdir local in
  let first := absorb (session_get (id_request ts asset_url)) in
  let second := absorb (session_get (if_request ts asset_url)) in
  let saved (resp : Response) : exn + string * bool * string * string :=
    match save_body out_path resp with
    | Some e => inl e
    | None => inr (local, true, out_path,
                   default "" (header_get resp "Content-Type"))
    end in
  (∀ e, makedirs (PosixPath.dirname out_path) = Some e ->
     download_asset ts asset_url outdir log = (inl e, log))
  ∧ (makedirs (PosixPath.dirname out_path) = None ->
     (status_code first = 200%Z ->
      download_asset ts asset_url outdir log
      = (saved first, (log ++ [id_request ts asset_url])%list))
     ∧ (status_code first ≠ 200%Z -> status_code second = 200%Z ->
        download_asset ts asset_url outdir log
        = (saved second,
           (log ++ [id_request ts asset_url; if_request ts asset_url])%list))
     ∧ (status_code first ≠ 200%Z -> status_code second ≠ 200%Z ->
        download_asset ts asset_url outdir log
        = (inr (local, false, out_path,
                default "" (header_get second "Content-Type")),
           (log ++ [id_request ts asset_url; if_request ts asset_url])%list)))
  ∧ String.prefix outdir out_path = true.
Proof.
  intros Hlocal out_path first second saved. unfold download_asset.
  rewrite Hlocal. fold out_path.
  split; [|split].
  - by intros e ->.
  - intros ->. unfold bind. rewrite fetch_id_run. fold first.
    split; [|split].
    + intros Hst. rewrite Hst. simpl. unfold ret. rewrite Hst. simpl.
      subst saved. simpl. by destruct (save_body out_path first).
    + intros Hst Hst2. apply Z.eqb_neq in Hst. rewrite Hst. simpl.
      rewrite fetch_if_run. fold second. rewrite Hst2. simpl.
      subst saved. simpl. rewrite <- app_assoc.
      by destruct (save_body out_path second).
    + intros Hst Hst2. apply Z.eqb_neq in Hst. rewrite Hst. simpl.
      rewrite fetch_if_run. fold second. apply Z.eqb_neq in Hst2.
      rewrite Hst2. unfold ret. by rewrite <- app_assoc.
  - subst out_path. unfold asset_local in Hlocal.
    destruct (urlparse asset_url) as [p|]; [|done]. injection Hlocal as <-.
    unfold PosixPath.join.
    assert (Hrel : startswith (ensure_local_path (path p)) "/" = false).
    { unfold ensure_local_path. apply lstrip_not_leading. }
    rewrite Hrel.
    assert (Hpre : ∀ a b, String.prefix a (a +:+ b) = true).
    { intros a b. induction a as [|c a IH]; [by destruct b|].
      change (String c a +:+ b) with (String c (a +:+ b)).
      rewrite prefix_cons, IH. by rewrite Ascii.eqb_refl. }
    by destruct (negb (truthy outdir) || endswith outdir "/").
Qed.

Lemma download_asset_falls_back_witness :
  @asset_local CPython.urllib "http://example.com/" = Some "index.html"
  ∧ @download_asset CPython.urllib tls_failure_net full_disk "20200101000000"
      "http://example.com/" "out" []
    = (inl OtherError,
       [id_request "20200101000000" "http://example.com/";
        if_request "20200101000000" "http://example.com/"]).
Proof.
  split; [reflexivity|].
  refine (proj1 (proj2 (proj1 (proj2
            (@download_asset_falls_back CPython.urllib tls_failure_net full_disk
               "20200101000000" "http://example.com/" "out"
               "index.html" [] eq_refl)) eq_refl)) _ _).
  - vm_compute. discriminate.
  - reflexivity.
Defined.

(** ** Relative references *)

Lemma relpath_is_relative (cwd p start rel : string) :
  PosixPath.relpath cwd p start = Some rel ->
  rel ≠ "" ∧ startswith rel "/" = false.
Proof.
  unfold PosixPath.relpath. destruct (negb (truthy p)); [done|].
  set (start_list := PosixPath.components (PosixPath.abspath cwd start)).
  set (path_list := PosixPath.components (PosixPath.abspath cwd p)).
  set (i := PosixPath.common_len start_list path_list).
  assert (Hall : Forall component
                   (repeat ".." (List.length start_list - i) ++ drop i path_list)%list).
  { apply Forall_app. split.
    - apply Forall_repeat_of. by split.
    - apply Forall_drop, components_are_components. }
  destruct (repeat ".." (List.length start_list - i) ++ drop i path_list)%list
    as [|x l]; [by intros [= <-]|].
  apply Forall_cons in Hall as [Hx Hl]. intros [= <-].
  destruct (fold_join_components l x (proj1 Hx) Hl) as (Hne & Hstart & _).
  split; [done|]. rewrite Hstart. by apply component_not_leading.
Qed.

Lemma relpath_start_empty (cwd : string) (comps : list string) (p : string) :
  absolute_dir cwd comps ->
  PosixPath.relpath cwd p "" = PosixPath.relpath cwd p ".".
Proof.
  intros Hcwd. unfold PosixPath.relpath.
  rewrite (components_abspath cwd comps "" Hcwd eq_refl) by constructor.
  rewrite (components_abspath cwd comps "." Hcwd eq_refl)
    by (repeat constructor; discriminate).
  reflexivity.
Qed.

(** X15. When a same-site reference is rewritten, the new value of the
    attribute is a relative path: it is not empty and does not begin with
    a separator, whatever the working directory is. *)
Theorem rewritten_reference_is_relative `{UrlLib}
    (cwd base_url root_host v rel absu : string) :
  rewrite_attr cwd base_url root_host v = Some (rel, Some absu) ->
  rel ≠ "" ∧ startswith rel "/" = false
  ∧ urljoin base_url v = Some absu
  ∧ is_same_site absu root_host = Some true.
Proof.
  unfold rewrite_attr. destruct (negb (truthy v)); [done|].
  destruct (urljoin base_url v) as [a|]; simpl; [|done].
  destruct (is_same_site a root_host) as [[]|] eqn:Hsame; simpl; [|done..].
  destruct (relative_target cwd base_url a) as [rel0|] eqn:Hrel; simpl; [|done].
  intros [= -> ->]. unfold relative_target in Hrel.
  destruct (urlparse absu) as [p|]; simpl in Hrel; [|done].
  destruct (urlparse base_url) as [b|]; simpl in Hrel; [|done].
  destruct (relpath_is_relative _ _ _ _ Hrel). by repeat split.
Qed.

Lemma rewritten_reference_is_relative_witness :
  @rewrite_attr CPython.urllib "/srv/work" "http://example.com/blog/post"
    "example.com" "/img/a.png"
  = Some ("../img/a.png", Some "http://example.com/img/a.png")
  ∧ "../img/a.png" ≠ "" ∧ startswith "../img/a.png" "/" = false.
Proof.
  assert (Hrun : @rewrite_attr CPython.urllib "/srv/work"
                   "http://example.com/blog/post" "example.com" "/img/a.png"
                 = Some ("../img/a.png", Some "http://example.com/img/a.png"))
    by by_evaluation.
  split; [exact Hrun|].
  pose proof (@rewritten_reference_is_relative CPython.urllib _ _ _ _ _ _ Hrun)
    as (Hne & Hrel & _).
  exact (conj Hne Hrel).
Defined.

(** X16. The address [main] writes into the stylesheet links of a page,
    taken from the directory of the page, leads to the standard
    stylesheet [assets/stylesheets/application.css] below the output
    directory; also for a page at the top, whose directory is the empty
    path. *)
Theorem stylesheet_href_resolves (cwd : string) (comps : list string)
    (local_html_rel : string) :
  absolute_dir cwd comps ->
  startswith local_html_rel "/" = false ->
  Forall (fun x => x ≠ "..")
    (PosixPath.components (PosixPath.dirname local_html_rel)) ->
  ∃ href,
    stylesheet_href cwd local_html_rel = Some href
    ∧ href ≠ "" ∧ startswith href "/" = false
    ∧ PosixPath.normpath
        (PosixPath.join (PosixPath.dirname local_html_rel) href)
      = standard_css_rel.
Proof.
  intros Hcwd Hrel Hdir. unfold stylesheet_href.
  assert (Hpage : PosixPath.relpath cwd standard_css_rel
                    (PosixPath.dirname local_html_rel)
                  = PosixPath.relpath cwd standard_css_rel
                      (page_dir local_html_rel)).
  { unfold page_dir.
    destruct (truthy (PosixPath.dirname local_html_rel)) eqn:Hd; [done|].
    unfold truthy in Hd. apply negb_false_iff, String.eqb_eq in Hd.
    rewrite Hd. by eapply relpath_start_empty. }
  destruct (PosixPath.relpath cwd standard_css_rel
              (PosixPath.dirname local_html_rel)) as [href|] eqn:Hhref.
  - exists href. split; [done|].
    destruct (relpath_is_relative _ _ _ _ Hhref) as [Hne Hstart].
    split; [done|]. split; [done|].
    assert (Hcss : Forall (fun x => x ≠ "..")
                     (PosixPath.components standard_css_rel)).
    { assert (Hc : PosixPath.components standard_css_rel
                   = ["assets"; "stylesheets"; "application.css"])
        by by_evaluation.
      rewrite Hc. repeat (constructor; [discriminate|]). constructor. }
    assert (Hcss_rel : startswith standard_css_rel "/" = false) by by_evaluation.
    assert (Hnorm : PosixPath.normpath standard_css_rel = standard_css_rel)
      by by_evaluation.
    rewrite (relpath_resolves cwd comps standard_css_rel local_html_rel href
               Hcwd Hcss_rel Hrel Hcss Hdir (eq_sym Hpage)).
    exact Hnorm.
  - exfalso. unfold PosixPath.relpath in Hhref.
    assert (Ht : negb (truthy standard_css_rel) = false) by by_evaluation.
    rewrite Ht in Hhref. by destruct (_ ++ _)%list.
Qed.

Lemma stylesheet_href_resolves_witness :
  absolute_dir "/srv/work" ["srv"; "work"]
  ∧ ∃ href,
      stylesheet_href "/srv/work" "blog/2019/post.html" = Some href
      ∧ href ≠ "" ∧ startswith href "/" = false
      ∧ PosixPath.normpath
          (PosixPath.join (PosixPath.dirname "blog/2019/post.html") href)
        = standard_css_rel.
Proof.
  assert (Hcwd : absolute_dir "/srv/work" ["srv"; "work"]).
  { split; [reflexivity|]. split; repeat constructor; discriminate. }
  split; [exact Hcwd|].
  apply (stylesheet_href_resolves "/srv/work" ["srv"; "work"]
           "blog/2019/post.html" Hcwd eq_refl).
  repeat constructor; discriminate.
Defined.

(** ** Rate limiter on numbers *)

(** X17. When [rps] is a number, the constructor clamps the refill rate:
    it is [rps] or 0.05, it is not below 0.05 and it is above 0.  The
    bucket starts full, the clock is the reading given, and a burst of at
    most 1 gives the capacity 1. *)
Theorem limiter_rate_clamped (now rps : RateLimiter.float) (burst : Z)
    (l : RateLimiter.t) :
  rps ≠ S754_nan ->
  RateLimiter.init now rps burst = Some l ->
  (RateLimiter.fill l = rps ∨ RateLimiter.fill l = RateLimiter.one_twentieth)
  ∧ RateLimiter.lt (RateLimiter.fill l) RateLimiter.one_twentieth = false
  ∧ RateLimiter.lt RateLimiter.zero (RateLimiter.fill l) = true
  ∧ RateLimiter.tokens l = RateLimiter.capacity l
  ∧ RateLimiter.t0 l = now
  ∧ ((burst <= 1)%Z -> RateLimiter.capacity l = RateLimiter.one).
Proof.
  intros Hrps Hinit. unfold RateLimiter.init in Hinit.
  destruct (RateLimiter.of_int _) as [c|] eqn:Hc; [|discriminate].
  injection Hinit as <-. simpl.
  assert (Hfill :
    (RateLimiter.py_max rps RateLimiter.one_twentieth = rps
     ∨ RateLimiter.py_max rps RateLimiter.one_twentieth = RateLimiter.one_twentieth)
    ∧ RateLimiter.lt (RateLimiter.py_max rps RateLimiter.one_twentieth)
        RateLimiter.one_twentieth = false
    ∧ RateLimiter.lt RateLimiter.zero
        (RateLimiter.py_max rps RateLimiter.one_twentieth) = true).
  { unfold RateLimiter.py_max.
    destruct (RateLimiter.lt rps RateLimiter.one_twentieth) eqn:Hlt.
    - split; [by right|]. split; reflexivity.
    - split; [by left|]. split; [done|].
      destruct rps as [[]|[]| |[] m e]; try done; try by vm_compute in Hlt. }
  destruct Hfill as (? & ? & ?).
  repeat split; try done.
  intros Hb. destruct (Z.ltb_spec burst 1) as [_|Hge].
  - by vm_compute in Hc; injection Hc as <-.
  - assert (burst = 1%Z) as -> by lia. by vm_compute in Hc; injection Hc as <-.
Qed.

Lemma limiter_rate_clamped_witness :
  one_tenth ≠ S754_nan
  ∧ RateLimiter.init RateLimiter.zero one_tenth 1
    = Some {| RateLimiter.capacity := RateLimiter.one;
              RateLimiter.tokens := RateLimiter.one;
              RateLimiter.fill := one_tenth;
              RateLimiter.t0 := RateLimiter.zero |}
  ∧ RateLimiter.lt RateLimiter.zero one_tenth = true.
Proof.
  assert (Hn : one_tenth ≠ S754_nan) by discriminate.
  split; [exact Hn|]. split; [reflexivity|].
  exact (proj1 (proj2 (proj2
    (limiter_rate_clamped RateLimiter.zero one_tenth 1 _ Hn eq_refl)))).
Defined.

(** X18. The arithmetic of [take] is that of [float]s.  A limiter of one
    request in ten seconds with a burst of one lets the first call
    through without sleeping.  A second call three seconds later finds
    [3 * 0.1], which is [0.30000000000000004], and asks [time.sleep] for
    [(1.0 - 0.30000000000000004) / 0.1], which is [6.999999999999999]
    and not 7; the bucket is then empty and the clock is the reading
    taken after the sleep.  When [time.sleep] raises, so does the call,
    and it leaves the tokens it had counted. *)
Theorem limiter_sleeps_in_floats (later : RateLimiter.float) :
  let l0 := {| RateLimiter.capacity := RateLimiter.one;
               RateLimiter.tokens := RateLimiter.one;
               RateLimiter.fill := one_tenth;
               RateLimiter.t0 := RateLimiter.zero |} in
  let l1 := {| RateLimiter.capacity := RateLimiter.one;
               RateLimiter.tokens := RateLimiter.zero;
               RateLimiter.fill := one_tenth;
               RateLimiter.t0 := RateLimiter.zero |} in
  let filled := S754_finite false 5404319552844596 (-54)%Z in
  let sleep_time := S754_finite false 7881299347898367 (-50)%Z in
  RateLimiter.init RateLimiter.zero one_tenth 1 = Some l0
  ∧ RateLimiter.take RateLimiter.zero RateLimiter.zero true RateLimiter.one l0
    = RateLimiter.Returned l1 None
  ∧ RateLimiter.mul three one_tenth = filled
  ∧ RateLimiter.take three later true RateLimiter.one l1
    = RateLimiter.Returned
        {| RateLimiter.capacity := RateLimiter.one;
           RateLimiter.tokens := RateLimiter.zero;
           RateLimiter.fill := one_tenth;
           RateLimiter.t0 := later |} (Some sleep_time)
  ∧ RateLimiter.lt sleep_time
      (S754_finite false 7881299347898368 (-50)%Z) = true
  ∧ RateLimiter.of_int 7 = Some (S754_finite false 7881299347898368 (-50)%Z)
  ∧ RateLimiter.take three later false RateLimiter.one l1
    = RateLimiter.Raised
        {| RateLimiter.capacity := RateLimiter.one;
           RateLimiter.tokens := filled;
           RateLimiter.fill := one_tenth;
           RateLimiter.t0 := three |}.
Proof. repeat split; by vm_compute. Qed.

(** ** Texts without references *)

Lemma match_needs_parenthesis (s : string) :
  has_char "(" s = false -> match_css_url s = None.
Proof.
  intros Hc. destruct s as [|u [|r [|l [|c rest]]]]; try reflexivity.
  cbn [has_char] in Hc.
  apply orb_false_iff in Hc as [_ Hc]. apply orb_false_iff in Hc as [_ Hc].
  apply orb_false_iff in Hc as [_ Hc]. apply orb_false_iff in Hc as [Hc _].
  unfold match_css_url.
  destruct c as [[] [] [] [] [] [] [] []]; try reflexivity.
  discriminate Hc.
Qed.

Lemma css_sub_without_parenthesis (repl : CssMatch -> option string) (s : string) :
  has_char "(" s = false -> css_sub repl s = Some s.
Proof.
  unfold css_sub. induction s as [|c s IH]; [done|]. intros Hc.
  cbn [css_sub_from]. rewrite (match_needs_parenthesis _ Hc).
  cbn [has_char] in Hc. apply orb_false_iff in Hc as [_ Hc].
  by rewrite (IH Hc).
Qed.

(** X19. A text without an opening parenthesis holds no reference:
    [rewrite_css_urls] and the rewriting of inline styles return it as it
    is, and parse no address on the way, so they cannot fail on it. *)
Theorem stylesheet_without_parenthesis_unchanged `{UrlLib}
    (cwd css base_url root_host out_css_dir : string) :
  has_char "(" css = false ->
  rewrite_css_urls cwd css base_url root_host out_css_dir = Some css
  ∧ css_sub (style_repl cwd base_url root_host) css = Some css.
Proof.
  intros Hc. split; [unfold rewrite_css_urls|]; by apply css_sub_without_parenthesis.
Qed.

Lemma stylesheet_without_parenthesis_unchanged_witness :
  has_char "(" "a{color:red}" = false
  ∧ @rewrite_css_urls CPython.urllib "/srv" "a{color:red}"
      "http://example.com/css/site.css" "example.com" "css"
    = Some "a{color:red}".
Proof.
  split; [reflexivity|].
  exact (proj1 (@stylesheet_without_parenthesis_unchanged CPython.urllib "/srv"
                  "a{color:red}" "http://example.com/css/site.css"
                  "example.com" "css" eq_refl)).
Defined.

(** ** Enumeration of [main] *)

Lemma mapM_map {A B} (f : A -> option B) (l : list A) (k : list B) :
  mapM f l = Some k -> map f l = map Some k.
Proof.
  intros Hk%mapM_Some. induction Hk as [|x y l k Hxy _ IH]; [done|].
  simpl. by rewrite Hxy, IH.
Qed.

Lemma merge_loop_unhashable (second : list crow)
    (acc : list crow * gset (pykey * pykey)) :
  Exists (fun r => capture_key r = None) second -> merge_loop second acc = None.
Proof.
  intros Hex. revert acc. induction Hex as [r second Hr|r second _ IH];
    intros [all_rows seen]; simpl.
  - by rewrite Hr.
  - destruct (capture_key r) as [key|]; [|done]. simpl. apply IH.
Qed.

Lemma merge_fold (second first added : list crow) (seen : gset (pykey * pykey)) :
  Forall (fun r => is_Some (capture_key r)) second ->
  (∀ k, k ∈ seen <-> Some k ∈ map capture_key (first ++ added)) ->
  NoDup (map capture_key added) ->
  (∀ r, r ∈ added -> capture_key r ∉ map capture_key first) ->
  ∃ added' seen',
    merge_loop second ((first ++ added)%list, seen)
    = Some ((first ++ added')%list, seen')
    ∧ NoDup (map capture_key added')
    ∧ (∀ r, r ∈ added' -> capture_key r ∉ map capture_key first)
    ∧ (∀ r, r ∈ added' -> r ∈ added ∨ r ∈ second)
    ∧ (∀ k, k ∈ map capture_key (first ++ added) ->
         k ∈ map capture_key (first ++ added'))
    ∧ (∀ r, r ∈ second -> capture_key r ∈ map capture_key (first ++ added')).
Proof.
  revert added seen. induction second as [|r second IH];
    intros added seen Hall Hseen Hnd Hnew.
  { exists added, seen. simpl. repeat split; auto. by intros r ?%elem_of_nil. }
  apply Forall_cons in Hall as [[key Hkey] Hall].
  cbn [merge_loop merge_step]. rewrite Hkey. cbn [mbind option_bind].
  destruct (decide (key ∈ seen)) as [Hin|Hout].
  - destruct (IH added seen Hall Hseen Hnd Hnew)
      as (added' & seen' & Heq & Hnd' & Hnew' & Hfrom & Hmono & Hcov).
    exists added', seen'. split; [done|]. split; [done|]. split; [done|].
    split; [|split; [done|]].
    + intros x Hx. destruct (Hfrom x Hx); [by left|right; by right].
    + intros x [->|Hx]%elem_of_cons; [|by apply Hcov].
      rewrite Hkey. by apply Hmono, Hseen.
  - rewrite <- app_assoc.
    assert (Hfresh : Some key ∉ map capture_key (first ++ added))
      by (by rewrite <- Hseen).
    rewrite map_app in Hfresh. apply not_elem_of_app in Hfresh as [Hf1 Hf2].
    destruct (IH (added ++ [r])%list ({[key]} ∪ seen))
      as (added' & seen' & Heq & Hnd' & Hnew' & Hfrom & Hmono & Hcov).
    + done.
    + intros k. rewrite elem_of_union, elem_of_singleton, Hseen.
      repeat (rewrite map_app || rewrite elem_of_app). cbn [map].
      rewrite list_elem_of_singleton, Hkey. split.
      * intros [->|[?|?]]; auto.
      * intros [?|[?|[= ->]]]; auto.
    + rewrite map_app. apply NoDup_app. split; [done|]. split.
      * intros k Hk [->|Hk']%elem_of_cons; [|by apply elem_of_nil in Hk'].
        by rewrite Hkey in Hk.
      * apply NoDup_singleton.
    + intros x [Hx|Hx%list_elem_of_singleton]%elem_of_app; [by apply Hnew|].
      subst x. by rewrite Hkey.
    + exists added', seen'. split; [done|]. split; [done|]. split; [done|].
      split; [|split].
      * intros x Hx.
        destruct (Hfrom x Hx) as [[?|Hx'%list_elem_of_singleton]%elem_of_app|?];
          [by left|subst x; right; left|right; by right].
      * intros k Hk. apply Hmono.
        repeat (rewrite map_app in Hk || rewrite elem_of_app in Hk).
        repeat (rewrite map_app || rewrite elem_of_app). tauto.
      * intros x [->|Hx]%elem_of_cons; [|by apply Hcov].
        apply Hmono. repeat (rewrite map_app || rewrite elem_of_app).
        right. right. left.
Qed.

(** X20. The enumeration of [main] asks for the rows of the domain as it
    was typed and, when the domain has an upper-case letter, for those of
    the domain in lower case; what leaves either of the two leaves the
    enumeration.  Without an upper-case letter the first rows are the
    result.  Otherwise a row whose address or timestamp cannot be hashed
    makes the merge raise [TypeError].  When all can be hashed, the first
    rows are followed by rows found for the domain in lower case: each of
    these at most once for its pair of address and timestamp, none with a
    pair that the first rows have, and every pair found for the lower-case
    domain is in the result. *)
Theorem main_enumeration_merges `{Network} `{JsonLib}
    (domain cutoff_ts : string) (subdomains : bool) (log : list Request) :
  let first_run := cdx_query_variants domain cutoff_ts subdomains log in
  let second_run :=
    cdx_query_variants (lower domain) cutoff_ts subdomains first_run.2 in
  let result := enumerate_rows domain cutoff_ts subdomains log in
  match first_run.1 with
  | inl e => result = (inl e, first_run.2)
  | inr first =>
      (lower domain = domain -> result = (inr first, first_run.2))
      ∧ (lower domain ≠ domain ->
         match second_run.1 with
         | inl e => result = (inl e, second_run.2)
         | inr second =>
             (Exists (fun r => capture_key r = None) (first ++ second) ->
              result = (inl OtherError, second_run.2))
             ∧ (Forall (fun r => is_Some (capture_key r)) (first ++ second) ->
                ∃ added,
                  result = (inr (first ++ added)%list, second_run.2)
                  ∧ NoDup (map capture_key added)
                  ∧ (∀ r, r ∈ added ->
                       r ∈ second ∧ capture_key r ∉ map capture_key first)
                  ∧ (∀ r, r ∈ second ->
                       capture_key r ∈ map capture_key (first ++ added)))
         end)
  end.
Proof.
  intros first_run second_run result. subst first_run second_run result.
  unfold enumerate_rows, bind.
  destruct (cdx_query_variants domain cutoff_ts subdomains log)
    as [[e|first] log1]; cbn [fst snd]; [done|].
  destruct (String.eqb_spec (lower domain) domain) as [Hsame|Hdiff]; cbn [negb].
  { split; [done|]. by intros ?. }
  split; [done|]. intros _.
  destruct (cdx_query_variants (lower domain) cutoff_ts subdomains log1)
    as [[e|second] log2]; cbn [fst snd]; [done|].
  split.
  - intros [Hex|Hex]%Exists_app.
    + apply mapM_None in Hex. by rewrite Hex.
    + destruct (mapM capture_key first); [|done].
      by rewrite (merge_loop_unhashable _ _ Hex).
  - intros [Hfirst Hsecond]%Forall_app.
    destruct (mapM capture_key first) as [keys|] eqn:Hkeys.
    2:{ apply mapM_None, Exists_exists in Hkeys as (r & Hr & Hnone).
        eapply Forall_forall in Hfirst as [? ?]; [|exact Hr]. congruence. }
    apply mapM_map in Hkeys.
    destruct (merge_fold second first [] (list_to_set keys) Hsecond)
      as (added & seen' & Heq & Hnd & Hnew & Hfrom & _ & Hcov).
    { intros k. rewrite app_nil_r, Hkeys, elem_of_list_to_set.
      split; [by apply list_elem_of_fmap_2|].
      by intros (k' & [= ->] & ?)%list_elem_of_fmap. }
    { constructor. }
    { by intros r ?%elem_of_nil. }
    rewrite app_nil_r in Heq. rewrite Heq. exists added. unfold ret.
    split; [done|]. split; [done|]. split; [|done].
    intros r Hr. split; [|by apply Hnew].
    destruct (Hfrom r Hr) as [?%elem_of_nil|?]; done.
Qed.

(** X21. On an archive whose index answers every query with two captures
    of one page, the enumeration yields the newer capture, once.  When the
    index gives one of the captures the timestamp [null], the comparison
    with the cutoff raises [TypeError]: [cdx_query_variants] raises it
    after the queries of the index, before the availability service is
    asked, and so does the enumeration of [main]. *)
Theorem enumeration_on_examples :
  @enumerate_rows listing_net listing_json "example.com" "20200101235959" true []
  = (inr [zip_row [inl "timestamp"; inl "original"]
            [Str "20190601000000"; Str "http://example.com/"]],
     (@query_all listing_net listing_json true
        (elements (domain_variants "example.com")) []).2
     ++ [availability_request "example.com" "20200101235959";
         availability_request "www.example.com" "20200101235959"])%list
  ∧ @cdx_query_variants listing_net null_timestamp_json
      "example.com" "20200101235959" true []
    = (inl OtherError,
       (@query_all listing_net null_timestamp_json true
          (elements (domain_variants "example.com")) []).2)
  ∧ (@enumerate_rows listing_net null_timestamp_json
       "example.com" "20200101235959" true []).1
    = inl OtherError
  ∧ List.length
      (@query_all listing_net null_timestamp_json true
         (elements (domain_variants "example.com")) []).2 = 4%nat.
Proof. repeat split; by_evaluation. Qed.
